(** * Selection-list prompter of the toolkit ([src/shared/ui/pickerPrompter.ts])

    A shallow embedding of the QuickPick prompter and of the buttons it
    reacts to ([src/shared/ui/buttons.ts]), with the properties the
    specification states about them. Further parts embed code around it:
    the HTTP resource fetcher, the region and credentials commands, two
    commands that record telemetry, the remote invoke view, the exclude
    pattern of the template registry and the text of the quick start
    pages.

    Conventions of the embedding.
    - JavaScript values that the code inspects dynamically ([typeof],
      [===], [JSON.stringify]) are terms of [JsValue].
    - The QuickPick handed to the prompter is the record of the fields the
      source reads and writes; an assignment stores the value it is given.
    - An [async] function is a state transformer that may return or throw;
      every [await] is a point where the user may act on the picker.
    - Callbacks supplied by callers ([onClick], button callbacks) leave a
      mark in an effect log, in the order in which they run. *)

From Stdlib Require Import ZArith Ascii String List.
From Stdlib Require Import Sorting.Sorted Sorting.Permutation.
From stdpp Require Import base option list strings gmap sets pretty.

Set Warnings "-register-all".

Local Open Scope Z_scope.

(** ** JavaScript values *)

Module Js.

(** The values the prompter can meet as item data or as a response.
    Functions and symbols are known by identity only. Numbers are the
    integers, with [JNaN] for the result of adding [undefined]. *)
Inductive JsValue : Type :=
| JUndefined
| JNull
| JBool (b : bool)
| JNumber (z : Z)
| JNaN
| JString (s : string)
| JSymbol (id : nat)
| JFunction (id : nat)
| JArray (elems : list JsValue)
| JObject (props : list (string * JsValue)).

(** What is thrown or what a promise rejects with. *)
Inductive JsError : Type :=
| TypeError (msg : string)
| Thrown (reason : JsValue).

(** The result of [typeof v]. *)
Definition typeof (v : JsValue) : string :=
  match v with
  | JUndefined => "undefined"
  | JNull => "object"
  | JBool _ => "boolean"
  | JNumber _ | JNaN => "number"
  | JString _ => "string"
  | JSymbol _ => "symbol"
  | JFunction _ => "function"
  | JArray _ | JObject _ => "object"
  end.

(** [a === b]. Objects and arrays are equal only to themselves; their
    identity is not part of [JsValue], and no code below compares two of
    them with [===], so the comparison answers [false] for them. *)
Definition strictEquals (a b : JsValue) : bool :=
  match a, b with
  | JUndefined, JUndefined => true
  | JNull, JNull => true
  | JBool x, JBool y => bool_decide (x = y)
  | JNumber x, JNumber y => bool_decide (x = y)
  | JString x, JString y => bool_decide (x = y)
  | JSymbol x, JSymbol y => bool_decide (x = y)
  | JFunction x, JFunction y => bool_decide (x = y)
  | _, _ => false
  end.

(** [v ?? d]. *)
Definition nullish (v d : JsValue) : JsValue :=
  match v with
  | JUndefined | JNull => d
  | _ => v
  end.

(** *** JSON.stringify *)

Definition hexDigit (n : N) : ascii :=
  ascii_of_N (if (n <? 10)%N then 48 + n else 87 + n)%N.

Definition dquote : ascii := ascii_of_N 34.

(** One code unit of a string literal, as [QuoteJSONString] writes it. *)
Definition quoteChar (c : ascii) : string :=
  let n := N_of_ascii c in
  if (n =? 34)%N then String "\" (String dquote EmptyString)
  else if (n =? 92)%N then String "\" (String "\" EmptyString)
  else if (n =? 8)%N then "\b"
  else if (n =? 9)%N then "\t"
  else if (n =? 10)%N then "\n"
  else if (n =? 12)%N then "\f"
  else if (n =? 13)%N then "\r"
  else if (n <? 32)%N then
    "\u00" +:+ String (hexDigit (n / 16)) (String (hexDigit (n mod 16)) EmptyString)
  else String c EmptyString.

Fixpoint quoteBody (s : string) : string :=
  match s with
  | EmptyString => EmptyString
  | String c rest => quoteChar c +:+ quoteBody rest
  end.

Definition quoteJSONString (s : string) : string :=
  String dquote (quoteBody s +:+ String dquote EmptyString).

Fixpoint joinWith (sep : string) (parts : list string) : string :=
  match parts with
  | [] => EmptyString
  | [p] => p
  | p :: rest => p +:+ sep +:+ joinWith sep rest
  end.

(** [JSON.stringify v]; [None] is the result [undefined]. Properties are
    written in the order in which the object lists them; a property whose
    value has no JSON text is left out, an array element without JSON
    text is written [null]. *)
Fixpoint stringify (v : JsValue) : option string :=
  match v with
  | JUndefined | JSymbol _ | JFunction _ => None
  | JNull | JNaN => Some "null"
  | JBool true => Some "true"
  | JBool false => Some "false"
  | JNumber z => Some (pretty z)
  | JString s => Some (quoteJSONString s)
  | JArray elems =>
      Some ("[" +:+ joinWith "," (map (fun e => default "null" (stringify e)) elems) +:+ "]")
  | JObject props =>
      Some ("{" +:+
            joinWith ","
              (omap (fun kv => (fun s => quoteJSONString (fst kv) +:+ ":" +:+ s) <$> stringify (snd kv))
                    props) +:+
            "}")
  end.

(** [obj.key] and [key in obj] for an object given by its properties. *)
Fixpoint getProp (key : string) (props : list (string * JsValue)) : option JsValue :=
  match props with
  | [] => None
  | (k, v) :: rest => if bool_decide (k = key) then Some v else getProp key rest
  end.

Definition hasProp (key : string) (props : list (string * JsValue)) : bool :=
  bool_decide (is_Some (getProp key props)).

End Js.
Export Js.


(** ** Items, buttons and the QuickPick *)

(** [DataQuickPickItem<T>]: a [vscode.QuickPickItem] with its [data]. An
    absent [invalidSelection], [skipEstimate] or [alwaysShow] is falsy and
    is [false] here. A present [onClick] is named by the mark it leaves in
    the effect log when it runs. *)
Record DataQuickPickItem : Type := {
  label : string;
  description : option string;
  detail : option string;
  alwaysShow : bool;
  data : JsValue;
  invalidSelection : bool;
  onClick : option nat;
  skipEstimate : bool
}.

(** The object literal [{ label, data }]. *)
Definition labelled (l : string) (d : JsValue) : DataQuickPickItem :=
  {| label := l; description := None; detail := None; alwaysShow := false;
     data := d; invalidSelection := false; onClick := None; skipEstimate := false |}.

Definition withDetail (d : option string) (item : DataQuickPickItem) : DataQuickPickItem :=
  {| label := label item; description := description item; detail := d;
     alwaysShow := alwaysShow item; data := data item;
     invalidSelection := invalidSelection item; onClick := onClick item;
     skipEstimate := skipEstimate item |}.

(** What running caller code leaves behind, in order. *)
Inductive Effect : Type :=
| ItemClicked (callback : nat)
| ButtonCallback (callback : nat)
| PickerShown
| DidShowFired
| PickerDisposed.

Inductive ButtonState : Type := on | off.

Record ToggleButtonOptions : Type := {
  onCallback : option nat;
  offCallBack : option nat
}.

(** The buttons of [shared/ui/buttons.ts]. [BackButton] is the one object
    [vscode.QuickInputButtons.Back]; [PlainButton] has no [onClick]
    ([createRefreshButton], [createPlusButton]); [CallbackButton] has an
    [onClick] that runs caller code and returns [response]
    ([createExitButton], [QuickInputLinkButton], which returns
    [undefined]); [ToggleButton] is a [QuickInputToggleButton] in its
    current state. *)
Inductive QuickInputButton : Type :=
| BackButton
| PlainButton
| CallbackButton (callback : nat) (response : JsValue)
| ToggleButton (state : ButtonState) (options : ToggleButtonOptions).

(** [DataQuickPick<T>], the fields the prompter touches. [activeItems] can
    hold [undefined] entries: [selectItems] stores [items[0]] there. *)
Record DataQuickPick : Type := {
  items : list DataQuickPickItem;
  activeItems : list (option DataQuickPickItem);
  selectedItems : list DataQuickPickItem;
  busy : bool;
  enabled : bool;
  value : string;
  step : JsValue;
  totalSteps : JsValue;
  buttons : list QuickInputButton;
  visible : bool;
  disposed : bool
}.

Definition setItems (v : list DataQuickPickItem) (q : DataQuickPick) : DataQuickPick :=
  {| items := v; activeItems := activeItems q; selectedItems := selectedItems q;
     busy := busy q; enabled := enabled q; value := value q; step := step q;
     totalSteps := totalSteps q; buttons := buttons q; visible := visible q;
     disposed := disposed q |}.

Definition setActiveItems (v : list (option DataQuickPickItem)) (q : DataQuickPick) : DataQuickPick :=
  {| items := items q; activeItems := v; selectedItems := selectedItems q;
     busy := busy q; enabled := enabled q; value := value q; step := step q;
     totalSteps := totalSteps q; buttons := buttons q; visible := visible q;
     disposed := disposed q |}.

Definition setSelectedItems (v : list DataQuickPickItem) (q : DataQuickPick) : DataQuickPick :=
  {| items := items q; activeItems := activeItems q; selectedItems := v;
     busy := busy q; enabled := enabled q; value := value q; step := step q;
     totalSteps := totalSteps q; buttons := buttons q; visible := visible q;
     disposed := disposed q |}.

Definition setBusyEnabled (b e : bool) (q : DataQuickPick) : DataQuickPick :=
  {| items := items q; activeItems := activeItems q; selectedItems := selectedItems q;
     busy := b; enabled := e; value := value q; step := step q;
     totalSteps := totalSteps q; buttons := buttons q; visible := visible q;
     disposed := disposed q |}.

Definition setValue (v : string) (q : DataQuickPick) : DataQuickPick :=
  {| items := items q; activeItems := activeItems q; selectedItems := selectedItems q;
     busy := busy q; enabled := enabled q; value := v; step := step q;
     totalSteps := totalSteps q; buttons := buttons q; visible := visible q;
     disposed := disposed q |}.

Definition setStepFields (current total : JsValue) (q : DataQuickPick) : DataQuickPick :=
  {| items := items q; activeItems := activeItems q; selectedItems := selectedItems q;
     busy := busy q; enabled := enabled q; value := value q; step := current;
     totalSteps := total; buttons := buttons q; visible := visible q;
     disposed := disposed q |}.

Definition setButtons (v : list QuickInputButton) (q : DataQuickPick) : DataQuickPick :=
  {| items := items q; activeItems := activeItems q; selectedItems := selectedItems q;
     busy := busy q; enabled := enabled q; value := value q; step := step q;
     totalSteps := totalSteps q; buttons := v; visible := visible q;
     disposed := disposed q |}.

(** [picker.show()] and [picker.dispose()]. *)
Definition show (q : DataQuickPick) : DataQuickPick :=
  {| items := items q; activeItems := activeItems q; selectedItems := selectedItems q;
     busy := busy q; enabled := enabled q; value := value q; step := step q;
     totalSteps := totalSteps q; buttons := buttons q; visible := true;
     disposed := disposed q |}.

Definition dispose (q : DataQuickPick) : DataQuickPick :=
  {| items := items q; activeItems := activeItems q; selectedItems := selectedItems q;
     busy := busy q; enabled := enabled q; value := value q; step := step q;
     totalSteps := totalSteps q; buttons := buttons q; visible := false;
     disposed := true |}.

(** The picker [vscode.window.createQuickPick()] returns, before any
    option is applied. *)
Definition createdQuickPick : DataQuickPick :=
  {| items := []; activeItems := []; selectedItems := []; busy := false;
     enabled := true; value := EmptyString; step := JUndefined;
     totalSteps := JUndefined; buttons := []; visible := false; disposed := false |}.

(** ** Promises and asynchronous functions *)

(** How a computation ends: it returns (a promise resolves) or it throws
    (a promise rejects). *)
Inductive Completion (A : Type) : Type :=
| Returns (a : A)
| Throws (e : JsError).
Arguments Returns {A} a.
Arguments Throws {A} e.

(** The state of a promise made with [new Promise]. *)
Inductive PromiseState (A : Type) : Type :=
| Pending
| Fulfilled (v : A)
| Rejected (e : JsError).
Arguments Pending {A}.
Arguments Fulfilled {A} v.
Arguments Rejected {A} e.

Definition settled {A : Type} (p : PromiseState A) : bool :=
  match p with
  | Pending => false
  | _ => true
  end.

(** ** The prompt: [acceptItems] and [promptUser] *)

(** The picker under a prompt, the promise [promptUser] returns and the
    effects of caller code run so far. *)
Record PromptState : Type := {
  picker : DataQuickPick;
  promise : PromiseState (list DataQuickPickItem);
  effects : list Effect
}.

(** The [resolve] function of the promise: the first call settles it,
    later calls do nothing. *)
Definition resolve (v : list DataQuickPickItem) (st : PromptState) : PromptState :=
  {| picker := picker st;
     promise := match promise st with Pending => Fulfilled v | p => p end;
     effects := effects st |}.

Definition perform (es : list Effect) (st : PromptState) : PromptState :=
  {| picker := picker st; promise := promise st; effects := effects st ++ es |}.

Definition withPicker (f : DataQuickPick -> DataQuickPick) (st : PromptState) : PromptState :=
  {| picker := f (picker st); promise := promise st; effects := effects st |}.

(** [item.onClick !== undefined ? item.onClick() : undefined] *)
Definition clickItem (st : PromptState) (item : DataQuickPickItem) : PromptState :=
  match onClick item with
  | Some callback => perform [ItemClicked callback] st
  | None => st
  end.

Definition acceptItems (st : PromptState) : PromptState :=
  if bool_decide (length (selectedItems (picker st)) = 0%nat) then st
  else
    let st' := fold_left clickItem (selectedItems (picker st)) st in
    if existsb invalidSelection (selectedItems (picker st')) then st'
    else resolve (selectedItems (picker st')) st'.

Definition castDatumToItems (datum : list JsValue) : list DataQuickPickItem :=
  map (fun d => labelled EmptyString d) datum.

(** What the user and the host do to a shown picker. [UserSelects] is the
    host updating [selectedItems]; the other three fire the events
    [promptUser] listens to, [DidTriggerButton i] for the button
    [buttons[i]]. *)
Inductive Event : Type :=
| UserSelects (selection : list DataQuickPickItem)
| DidAccept
| DidHide
| DidTriggerButton (i : nat).

Section Prompt.

(** The control signals of [wizards/wizard.ts], which is not among the
    sources: three values the prompter only passes on. *)
Variables WIZARD_BACK WIZARD_EXIT WIZARD_RETRY : JsValue.

Definition toggled (s : ButtonState) : ButtonState :=
  match s with
  | on => off
  | off => on
  end.

(** [QuickInputToggleButton.onClick]: the new state, the callbacks run
    and the value returned. *)
Definition toggleOnClick (state : ButtonState) (options : ToggleButtonOptions)
  : ButtonState * list Effect * JsValue :=
  let state' := toggled state in
  let ranOn := match state', onCallback options with
               | on, Some callback => [ButtonCallback callback]
               | _, _ => []
               end in
  let ranOff := match state', offCallBack options with
                | off, Some callback => [ButtonCallback callback]
                | _, _ => []
                end in
  (state', ranOn ++ ranOff, WIZARD_RETRY).

(** [button.onClick!()] where [button.onClick !== undefined]: the button
    afterwards, the callbacks run and the response; [None] for a button
    without [onClick]. *)
Definition buttonOnClick (button : QuickInputButton)
  : option (QuickInputButton * list Effect * JsValue) :=
  match button with
  | BackButton | PlainButton => None
  | CallbackButton callback response =>
      Some (button, [ButtonCallback callback], response)
  | ToggleButton state options =>
      let '(state', ran, response) := toggleOnClick state options in
      Some (ToggleButton state' options, ran, response)
  end.

Definition isBack (button : QuickInputButton) : bool :=
  match button with
  | BackButton => true
  | _ => false
  end.

(** The three listeners [promptUser] registers. *)
Definition onDidAccept (st : PromptState) : PromptState := acceptItems st.

Definition onDidHide (st : PromptState) : PromptState :=
  resolve (castDatumToItems [WIZARD_EXIT]) st.

Definition onDidTriggerButton (i : nat) (st : PromptState) : PromptState :=
  match buttons (picker st) !! i with
  | None => st
  | Some button =>
      if isBack button then resolve (castDatumToItems [WIZARD_BACK]) st
      else
        match buttonOnClick button with
        | Some (button', ran, response) =>
            let st' := perform ran (withPicker (setButtons (<[i := button']> (buttons (picker st)))) st) in
            if strictEquals response JUndefined then st'
            else resolve (castDatumToItems [response]) st'
        | None => st
        end
  end.

(** [.finally(() => picker.dispose())]: runs once the promise has settled. *)
Definition finally (st : PromptState) : PromptState :=
  if settled (promise st) && negb (disposed (picker st))
  then perform [PickerDisposed] (withPicker dispose st)
  else st.

(** [promptUser(picker, onDidShowEmitter)] up to the point where the
    promise is returned. *)
Definition promptUser (q : DataQuickPick) (done : list Effect) : PromptState :=
  {| picker := show q; promise := Pending; effects := done ++ [PickerShown; DidShowFired] |}.

(** One event on the prompt. A disposed picker fires no events. *)
Definition dispatch (st : PromptState) (ev : Event) : PromptState :=
  if disposed (picker st) then st
  else
    finally
      match ev with
      | UserSelects selection => withPicker (setSelectedItems selection) st
      | DidAccept => onDidAccept st
      | DidHide => onDidHide st
      | DidTriggerButton i => onDidTriggerButton i st
      end.

Definition dispatchAll (evs : list Event) (st : PromptState) : PromptState :=
  fold_left dispatch evs st.

End Prompt.

(** ** The prompter: [QuickPickPrompter] *)

(** The options the prompter reads. An absent [showSelectedPreviously] is
    falsy and is [false] here. A comparator returns a number, of which the
    sort uses the sign. *)
Record ExtendedQuickPickOptions : Type := {
  compare : option (DataQuickPickItem -> DataQuickPickItem -> Z);
  placeholderItem : option DataQuickPickItem;
  errorItem : option DataQuickPickItem;
  showSelectedPreviously : bool
}.

(** [DEFAULT_QUICKPICK_OPTIONS], for the fields above, and the options of a
    prompter built without any ([{}]). *)
Definition DEFAULT_QUICKPICK_OPTIONS : ExtendedQuickPickOptions :=
  {| compare := None; placeholderItem := None; errorItem := None;
     showSelectedPreviously := true |}.

Definition noOptions : ExtendedQuickPickOptions :=
  {| compare := None; placeholderItem := None; errorItem := None;
     showSelectedPreviously := false |}.

(** What the listener that [setEstimatorHook] registers with
    [onDidChangeActive] has closed over. *)
Record EstimatorHook : Type := {
  estimates : gmap string Z;
  current : JsValue;
  total : JsValue
}.

(** The prompter object. [hook] is the [onDidChangeActive] listener, once
    registered. [suspended] is not a field of the class: it keeps the
    picker as it stood each time an [async] method gave up control at an
    [await], first suspension first. *)
Record QuickPickPrompter : Type := {
  quickPick : DataQuickPick;
  options : ExtendedQuickPickOptions;
  isShowingPlaceholder : bool;
  _estimator : option (JsValue -> Z);
  _lastPicked : option DataQuickPickItem;
  hook : option EstimatorHook;
  suspended : list DataQuickPick
}.

(** [new QuickPickPrompter(quickPick, options)] *)
Definition newQuickPickPrompter (q : DataQuickPick) (o : ExtendedQuickPickOptions)
  : QuickPickPrompter :=
  {| quickPick := q; options := o; isShowingPlaceholder := false;
     _estimator := None; _lastPicked := None; hook := None; suspended := [] |}.

Definition withQuickPick (f : DataQuickPick -> DataQuickPick) (p : QuickPickPrompter)
  : QuickPickPrompter :=
  {| quickPick := f (quickPick p); options := options p;
     isShowingPlaceholder := isShowingPlaceholder p; _estimator := _estimator p;
     _lastPicked := _lastPicked p; hook := hook p; suspended := suspended p |}.

Definition setShowingPlaceholder (b : bool) (p : QuickPickPrompter) : QuickPickPrompter :=
  {| quickPick := quickPick p; options := options p; isShowingPlaceholder := b;
     _estimator := _estimator p; _lastPicked := _lastPicked p; hook := hook p;
     suspended := suspended p |}.

Definition setStepEstimator (estimator : JsValue -> Z) (p : QuickPickPrompter)
  : QuickPickPrompter :=
  {| quickPick := quickPick p; options := options p;
     isShowingPlaceholder := isShowingPlaceholder p; _estimator := Some estimator;
     _lastPicked := _lastPicked p; hook := hook p; suspended := suspended p |}.

Definition setLastPicked (item : option DataQuickPickItem) (p : QuickPickPrompter)
  : QuickPickPrompter :=
  {| quickPick := quickPick p; options := options p;
     isShowingPlaceholder := isShowingPlaceholder p; _estimator := _estimator p;
     _lastPicked := item; hook := hook p; suspended := suspended p |}.

Definition setHook (h : option EstimatorHook) (p : QuickPickPrompter) : QuickPickPrompter :=
  {| quickPick := quickPick p; options := options p;
     isShowingPlaceholder := isShowingPlaceholder p; _estimator := _estimator p;
     _lastPicked := _lastPicked p; hook := h; suspended := suspended p |}.

Definition suspend (p : QuickPickPrompter) : QuickPickPrompter :=
  {| quickPick := quickPick p; options := options p;
     isShowingPlaceholder := isShowingPlaceholder p; _estimator := _estimator p;
     _lastPicked := _lastPicked p; hook := hook p;
     suspended := suspended p ++ [quickPick p] |}.

(** *** Methods as state transformers that may throw *)

Definition Async (A : Type) : Type :=
  QuickPickPrompter -> Completion A * QuickPickPrompter.

Definition ret {A : Type} (a : A) : Async A := fun p => (Returns a, p).

Definition throw {A : Type} (e : JsError) : Async A := fun p => (Throws e, p).

Definition bind {A B : Type} (m : Async A) (k : A -> Async B) : Async B :=
  fun p =>
    match m p with
    | (Returns a, p') => k a p'
    | (Throws e, p') => (Throws e, p')
    end.

Definition modify (f : QuickPickPrompter -> QuickPickPrompter) : Async unit :=
  fun p => (Returns tt, f p).

Definition onPicker (f : DataQuickPick -> DataQuickPick) : Async unit :=
  modify (withQuickPick f).

Definition this : Async QuickPickPrompter := fun p => (Returns p, p).

Declare Scope async_scope.
Delimit Scope async_scope with async.
Notation "x <- m ;; k" := (bind m (fun x => k))
  (at level 100, m at next level, k at level 200, right associativity) : async_scope.
Notation "m ;; k" := (bind m (fun _ => k))
  (at level 100, k at level 200, right associativity) : async_scope.
Local Open Scope async_scope.

(** A promise that is awaited: how it settles, and the items the user
    has highlighted by then, if the user moved the highlight while the
    method was suspended. *)
Record Awaited (A : Type) : Type := {
  meanwhile : option (list DataQuickPickItem);
  outcome : Completion A
}.
Arguments meanwhile {A} _.
Arguments outcome {A} _.

(** [await w] *)
Definition await {A : Type} (w : Awaited A) : Async A :=
  fun p =>
    let p' := suspend p in
    (outcome w,
     match meanwhile w with
     | Some highlighted => withQuickPick (setActiveItems (Some <$> highlighted)) p'
     | None => p'
     end).

(** [QuickPick prompts currently support loading]: an array, a promise
    for an array, or an [AsyncIterable]. The iterable is the pages its
    iterator yields ([done] false) and the result that ends it: a last
    value or [undefined] with [done] true, or a rejection. *)
Inductive ItemLoadTypes : Type :=
| ItemArray (loaded : list DataQuickPickItem)
| ItemPromise (loaded : Awaited (list DataQuickPickItem))
| ItemIterable (pages : list (Awaited (list DataQuickPickItem)))
               (last : Awaited (option (list DataQuickPickItem))).

(** [Array.prototype.sort(compare)]: no comparator leaves item objects in
    place (they all convert to the same string and the sort is stable);
    with a comparator, [a] stays before [b] when [compare(a, b) <= 0]. The
    sort is the stable one: items the comparator does not tell apart keep
    their order. *)
Definition staysBefore (c : DataQuickPickItem -> DataQuickPickItem -> Z)
  : relation DataQuickPickItem :=
  fun a b => c a b <= 0.

#[global] Instance staysBefore_dec c : RelDecision (staysBefore c).
Proof. intros a b. unfold staysBefore. apply _. Defined.

Fixpoint insertSorted (c : DataQuickPickItem -> DataQuickPickItem -> Z)
  (x : DataQuickPickItem) (l : list DataQuickPickItem) : list DataQuickPickItem :=
  match l with
  | [] => [x]
  | y :: rest =>
      if decide (staysBefore c x y) then x :: y :: rest
      else y :: insertSorted c x rest
  end.

Definition sortItems (cmp : option (DataQuickPickItem -> DataQuickPickItem -> Z))
  (l : list DataQuickPickItem) : list DataQuickPickItem :=
  match cmp with
  | None => l
  | Some c => foldr (insertSorted c) [] l
  end.

Definition setSteps (cur tot : JsValue) : Async unit :=
  onPicker (setStepFields cur tot).

Definition clearItems : Async unit :=
  onPicker (setItems []) ;;
  modify (setShowingPlaceholder false).

(** [selectItems(...items)]: reading [label] of an [undefined] argument
    throws before anything is assigned. *)
Definition selectItems (sel : list (option DataQuickPickItem)) : Async unit :=
  match mapM (fmap label) sel with
  | None => throw (TypeError "Cannot read properties of undefined (reading 'label')")
  | Some labels =>
      let selected : gset string := list_to_set labels in
      onPicker (fun q => setActiveItems (Some <$> filter (fun item => label item ∈ selected) (items q)) q) ;;
      p <- this ;;
      if bool_decide (length (activeItems (quickPick p)) = 0%nat)
      then onPicker (fun q => setActiveItems [items q !! 0%nat] q)
      else ret tt
  end.

Definition appendItems (page : list DataQuickPickItem) : Async unit :=
  p <- this ;;
  let previousSelected := activeItems (quickPick p) in
  onPicker (fun q => setItems (sortItems (compare (options p)) (items q ++ page)) q) ;;
  p <- this ;;
  (if bool_decide (length (items (quickPick p)) = 0%nat) && negb (busy (quickPick p))
   then
     modify (setShowingPlaceholder true) ;;
     onPicker (setItems match placeholderItem (options p) with
                        | Some placeholder => [placeholder]
                        | None => []
                        end)
   else ret tt) ;;
  selectItems previousSelected.

(** The [while (true)] loop over [iterator.next()]. *)
Fixpoint appendPages (pages : list (Awaited (list DataQuickPickItem)))
  (last : Awaited (option (list DataQuickPickItem))) : Async unit :=
  match pages with
  | page :: rest =>
      v <- await page ;;
      appendItems v ;;
      appendPages rest last
  | [] =>
      v <- await last ;;
      match v with
      | Some lastPage => appendItems lastPage
      | None => ret tt
      end
  end.

(** [!!disableInput] *)
Definition truthy (b : option bool) : bool := default false b.

Definition loadItems (source : ItemLoadTypes) (disableInput : option bool) : Async unit :=
  p <- this ;;
  (if isShowingPlaceholder p then clearItems else ret tt) ;;
  onPicker (setBusyEnabled true (truthy disableInput)) ;;
  match source with
  | ItemIterable pages last => appendPages pages last
  | ItemPromise loaded => v <- await loaded ;; appendItems v
  | ItemArray loaded => appendItems loaded
  end ;;
  onPicker (setBusyEnabled false true) ;;
  appendItems [].

Definition clearAndLoadItems (source : ItemLoadTypes) : Async unit :=
  p <- this ;;
  let previousSelected := activeItems (quickPick p) in
  clearItems ;;
  loadItems source None ;;
  selectItems previousSelected.

(** *** Recovering the last response *)

(** [isDataQuickPickItem(obj)]. [typeof null] is ["object"], so for [null]
    the read of [label] throws. *)
Definition isDataQuickPickItem (obj : JsValue) : Completion bool :=
  match obj with
  | JNull => Throws (TypeError "Cannot read properties of null (reading 'label')")
  | JObject props =>
      Returns (bool_decide (typeof (default JUndefined (getProp "label" props)) = "string")
               && hasProp "data" props)
  | _ => Returns false
  end.

(** [obj.label] when it is a string. *)
Definition labelOf (obj : JsValue) : option string :=
  match obj with
  | JObject props =>
      match getProp "label" props with
      | Some (JString l) => Some l
      | _ => None
      end
  | _ => None
  end.

(** The callback of [items.find] in [recoverItemFromData]. *)
Definition dataMatches (stringified : option string) (d : JsValue)
  (item : DataQuickPickItem) : bool :=
  if bool_decide (typeof (data item) = "object")
  then bool_decide (stringified = stringify (data item))
  else if bool_decide (typeof (data item) = "function") then false
  else strictEquals d (data item).

Definition recoverItemFromData (d : JsValue) (l : list DataQuickPickItem)
  : option DataQuickPickItem :=
  let stringified := stringify d in
  find (dataMatches stringified d) l.

Section LastResponse.

(** The text of [localizedText.selectedPreviously], which is not among the
    sources. *)
Variable selectedPreviously : string.

(** [item.detail = `${item.detail ?? ''} (${selectedPreviously})`] *)
Definition markSelectedPreviously (item : DataQuickPickItem) : DataQuickPickItem :=
  withDetail (Some (default EmptyString (detail item) +:+ " (" +:+ selectedPreviously +:+ ")")) item.

(** [setLastResponse(picked)]. The items highlighted are objects of the
    item list, so marking them shows in the list as well; the entries of
    the list are taken to be distinct objects. *)
Definition setLastResponse (picked : JsValue) : Async unit :=
  if strictEquals picked JUndefined then ret tt
  else
    p <- this ;;
    match isDataQuickPickItem picked with
    | Throws e => throw e
    | Returns isItem =>
        let wanted : option string :=
          if isItem then labelOf picked
          else label <$> recoverItemFromData picked (items (quickPick p)) in
        let highlighted (item : DataQuickPickItem) : bool :=
          bool_decide (Some (label item) = wanted) in
        onPicker (fun q => setActiveItems (Some <$> List.filter highlighted (items q)) q) ;;
        (if showSelectedPreviously (options p)
         then
           onPicker (fun q =>
             setItems (map (fun item => if highlighted item then markSelectedPreviously item else item)
                           (items q))
               (setActiveItems (fmap (M := option) markSelectedPreviously <$> activeItems q) q))
         else ret tt) ;;
        p <- this ;;
        if bool_decide (length (activeItems (quickPick p)) = 0%nat)
        then onPicker (fun q => setActiveItems [items q !! 0%nat] q)
        else ret tt
    end.

End LastResponse.

(** *** Step estimates *)

Definition hashItem (item : DataQuickPickItem) : string :=
  label item +:+ ":" +:+ default EmptyString (description item) +:+ ":" +:+
  default EmptyString (detail item).

(** [a + b] for operands that are numbers or [undefined], the only ones
    the step counts can be. *)
Definition jsPlus (a b : JsValue) : JsValue :=
  match a, b with
  | JNumber x, JNumber y => JNumber (x + y)
  | _, _ => JNaN
  end.

(** The value of [estimates.get(key)]. *)
Definition getEstimate (est : gmap string Z) (key : string) : JsValue :=
  from_option JNumber JUndefined (est !! key).

(** The promise [setEstimate] returns for an item whose data is a
    function: the item, and how the promise of [item.data()] settles. *)
Inductive EstimatePromise : Type :=
| EstimateOf (item : DataQuickPickItem) (settles : Completion JsValue).

Section Estimates.

(** [Prompter.applyTransforms], of the base class in [prompter.ts], which
    is not among the sources. *)
Variable applyTransforms : JsValue -> JsValue.

(** Calling the function with the given identity as [item.data()]: how the
    promise it returns settles. The promise is taken to be settled when
    the call returns. *)
Variable call : nat -> Completion JsValue.

(** [setEstimate(item)]: [None] is the result [undefined]. *)
Definition setEstimate (estimator : JsValue -> Z) (item : DataQuickPickItem)
  (est : gmap string Z) : option EstimatePromise * gmap string Z :=
  if skipEstimate item then (None, est)
  else
    match data item with
    | JFunction f => (Some (EstimateOf item (call f)), est)
    | d => (None, <[hashItem item := estimator (applyTransforms d)]> est)
    end.

(** [list.map(setEstimate)] *)
Fixpoint setEstimates (estimator : JsValue -> Z) (l : list DataQuickPickItem)
  (est : gmap string Z) : list (option EstimatePromise) * gmap string Z :=
  match l with
  | [] => ([], est)
  | item :: rest =>
      let '(promised, est1) := setEstimate estimator item est in
      let '(others, est2) := setEstimates estimator rest est1 in
      (promised :: others, est2)
  end.

(** The [then] chain of one promise running to its end. *)
Definition fulfilEstimate (estimator : JsValue -> Z) (est : gmap string Z)
  (promised : option EstimatePromise) : gmap string Z :=
  match promised with
  | Some (EstimateOf item (Returns d)) =>
      <[hashItem item := estimator (applyTransforms d)]> est
  | _ => est
  end.

Definition fulfilEstimates (estimator : JsValue -> Z)
  (promises : list (option EstimatePromise)) (est : gmap string Z) : gmap string Z :=
  fold_left (fulfilEstimate estimator) promises est.

Definition registerHook (est : gmap string Z) (cur tot : JsValue) : Async unit :=
  modify (setHook (Some {| estimates := est; current := cur; total := tot |})).

(** A write to the [estimates] map the listener shares with the method. *)
Definition modifyEstimates (f : gmap string Z -> gmap string Z) : Async unit :=
  modify (fun p =>
    setHook ((fun h => {| estimates := f (estimates h); current := current h;
                          total := total h |}) <$> hook p) p).

Definition nothingMeanwhile {A : Type} (c : Completion A) : Awaited A :=
  {| meanwhile := None; outcome := c |}.

(** [this.setSteps(current, total + estimates.get(hashItem(item)) ?? orElse)]
    with the map as it stands; [orElse] is [undefined] where the source
    has no [??]. *)
Definition showEstimate (item : option DataQuickPickItem) (orElse : JsValue)
  : Async unit :=
  p <- this ;;
  match hook p, item with
  | Some h, Some first =>
      setSteps (current h)
        (jsPlus (total h)
           (from_option JNumber orElse (estimates h !! hashItem first)))
  | _, None => throw (TypeError "Cannot read properties of undefined (reading 'label')")
  | None, _ => ret tt
  end.

(** [await promises[0]] and what follows it. The chains were started
    together on settled promises. When the first entry is a promise, all
    of them have run, in item order, by the time the method resumes, and a
    rejection of the first one is thrown. When the first entry is
    [undefined], the method resumes before any chain has stored its
    estimate, and they store them after [andThen]. *)
Definition awaitFirst (estimator : JsValue -> Z)
  (promises : list (option EstimatePromise)) (andThen : Async unit) : Async unit :=
  match promises with
  | Some (EstimateOf _ settles) :: _ =>
      modifyEstimates (fulfilEstimates estimator promises) ;;
      await (nothingMeanwhile settles) ;;
      andThen
  | _ =>
      await (nothingMeanwhile (Returns tt)) ;;
      andThen ;;
      modifyEstimates (fulfilEstimates estimator promises)
  end.

Definition setEstimatorHook : Async unit :=
  p <- this ;;
  match _estimator p with
  | None => ret tt
  | Some estimator =>
      let '(promises, est) := setEstimates estimator (items (quickPick p)) ∅ in
      registerHook est (step (quickPick p)) (totalSteps (quickPick p)) ;;
      match promises with
      | [] => ret tt
      | _ :: _ =>
          awaitFirst estimator promises
            (p' <- this ;; showEstimate (items (quickPick p') !! 0%nat) JUndefined)
      end
  end.

(** The listener registered with [onDidChangeActive], called with the
    items that are now highlighted. *)
Definition onDidChangeActive (active : list DataQuickPickItem) : Async unit :=
  p <- this ;;
  match hook p, _estimator p with
  | Some h, Some estimator =>
      match active with
      | [] => ret tt
      | first :: _ =>
          let missing :=
            List.filter (fun item => bool_decide (estimates h !! hashItem item = None)) active in
          let '(sets, est) := setEstimates estimator missing (estimates h) in
          modifyEstimates (fun _ => est) ;;
          awaitFirst estimator sets (showEstimate (Some first) (JNumber 0))
      end
  | _, _ => ret tt
  end.

(** The host moving the highlight of a shown picker. *)
Definition didChangeActive (active : list DataQuickPickItem) : Async unit :=
  onPicker (setActiveItems (Some <$> active)) ;;
  onDidChangeActive active.

(** [QuickPickPrompter.promptUser], the method, up to the moment it waits
    for the user: the estimator hook first, then the function
    [promptUser], which shows the picker. *)
Definition QuickPickPrompter_promptUser_show (done : list Effect)
  : QuickPickPrompter -> Completion PromptState * QuickPickPrompter :=
  fun p =>
    match setEstimatorHook p with
    | (Returns _, p') =>
        let st := promptUser (quickPick p') done in
        (Returns st, withQuickPick (fun _ => picker st) p')
    | (Throws e, p') => (Throws e, p')
    end.

(** The rest of the method, once the prompt promise has resolved with
    [choices] ([None] for [undefined]). *)
Definition QuickPickPrompter_promptUser_result
  (choices : option (list DataQuickPickItem)) : Async JsValue :=
  match choices with
  | None => ret JUndefined
  | Some chosen =>
      modify (setLastPicked (chosen !! 0%nat)) ;;
      match chosen !! 0%nat with
      | None => throw (TypeError "Cannot read properties of undefined (reading 'data')")
      | Some choice =>
          match data choice with
          | JFunction f => await (nothingMeanwhile (call f))
          | result => ret result
          end
      end
  end.

End Estimates.

(** ** Filter-box input: [FilterBoxQuickPickPrompter] *)

(** [export const CUSTOM_USER_INPUT = Symbol()] *)
Definition CUSTOM_USER_INPUT : JsValue := JSymbol 0.

Module FilterBoxInputSettings.
Record t : Type := {
  label : string;
  transform : string -> JsValue;
  inverse : option (JsValue -> string);
  validator : option (string -> option string)
}.
End FilterBoxInputSettings.

(** The prompter of the subclass: the [QuickPickPrompter] it extends, its
    settings, and the listener stored in [onChangeValue], known by the
    items it has closed over; [None] when no listener is registered. *)
Record FilterBoxQuickPickPrompter : Type := {
  super : QuickPickPrompter;
  settings : FilterBoxInputSettings.t;
  onChangeValue : option (list DataQuickPickItem)
}.

(** The callback the constructor passes to [this.transform]. *)
Definition transformSelection (s : FilterBoxInputSettings.t) (q : DataQuickPick)
  (selection : JsValue) : JsValue :=
  if strictEquals selection CUSTOM_USER_INPUT
  then nullish (FilterBoxInputSettings.transform s (value q)) selection
  else selection.

(** [new FilterBoxQuickPickPrompter(quickPick, settings)]: [super(quickPick)]
    leaves the options at [{}]. *)
Definition newFilterBoxQuickPickPrompter (q : DataQuickPick) (s : FilterBoxInputSettings.t)
  : FilterBoxQuickPickPrompter :=
  {| super := newQuickPickPrompter q noOptions; settings := s; onChangeValue := None |}.

(** The local [validator] of [addFilterBoxInput]. *)
Definition validate (s : FilterBoxInputSettings.t) (input : string) : option string :=
  match FilterBoxInputSettings.validator s with
  | Some check => check input
  | None => None
  end.

Definition customUserInputItem (s : FilterBoxInputSettings.t) (v : string)
  : DataQuickPickItem :=
  {| label := FilterBoxInputSettings.label s;
     description := Some v;
     detail := validate s v;
     alwaysShow := true;
     data := CUSTOM_USER_INPUT;
     invalidSelection := bool_decide (validate s v <> None);
     onClick := None;
     skipEstimate := false |}.

(** The local function [update] of [addFilterBoxInput]; [others] is the
    [items] it has closed over. *)
Definition update (s : FilterBoxInputSettings.t) (others : list DataQuickPickItem)
  (v : string) (q : DataQuickPick) : DataQuickPick :=
  if bool_decide (v <> EmptyString)
  then setItems (customUserInputItem s v :: others) q
  else setItems others q.

Definition addFilterBoxInput (fp : FilterBoxQuickPickPrompter) : FilterBoxQuickPickPrompter :=
  let q := quickPick (super fp) in
  let others :=
    List.filter (fun item => negb (strictEquals (data item) CUSTOM_USER_INPUT)) (items q) in
  {| super := withQuickPick (update (settings fp) others (value q)) (super fp);
     settings := settings fp;
     onChangeValue := Some others |}.

(** [FilterBoxQuickPickPrompter.loadItems] *)
Definition FilterBox_loadItems (source : ItemLoadTypes) (fp : FilterBoxQuickPickPrompter)
  : Completion unit * FilterBoxQuickPickPrompter :=
  match loadItems source None (super fp) with
  | (Returns _, p') =>
      (Returns tt,
       addFilterBoxInput {| super := p'; settings := settings fp; onChangeValue := None |})
  | (Throws e, p') =>
      (Throws e, {| super := p'; settings := settings fp; onChangeValue := None |})
  end.

(** The user typing [v] in the filter box: the host stores the text and
    fires [onDidChangeValue]. *)
Definition didChangeValue (v : string) (fp : FilterBoxQuickPickPrompter)
  : FilterBoxQuickPickPrompter :=
  {| super :=
       withQuickPick
         (fun q =>
            match onChangeValue fp with
            | Some others => update (settings fp) others v (setValue v q)
            | None => setValue v q
            end)
         (super fp);
     settings := settings fp;
     onChangeValue := onChangeValue fp |}.

(** [createQuickPick(items, options)] without filter-box settings; the
    promise of [loadItems] is dropped by the caller, its completion is
    kept here to be looked at. *)
Definition createQuickPick (source : ItemLoadTypes) (o : ExtendedQuickPickOptions)
  : Completion unit * QuickPickPrompter :=
  loadItems source None (newQuickPickPrompter createdQuickPick o).

(** ** Vocabulary of the properties *)

(** The marks the [onClick] callbacks of a selection leave, in order. *)
Definition clicksOf (selection : list DataQuickPickItem) : list Effect :=
  omap (fun item => ItemClicked <$> onClick item) selection.

(** A listener leaves the promise alone or fulfils a pending one. *)
Definition advances (st st' : PromptState) : Prop :=
  promise st' = promise st \/
  (promise st = Pending /\ exists v, promise st' = Fulfilled v).

(** What holds of the prompt after any events: the promise has not
    rejected, and a settled promise has a disposed picker. *)
Definition promptInvariant (st : PromptState) : Prop :=
  (forall e, promise st <> Rejected e) /\
  (settled (promise st) = true -> disposed (picker st) = true).

(** The highlight [selectItems] leaves for the given labels over a list of
    items: the items bearing one of the labels or, if there is none, the
    single entry [items[0]], which is [undefined] for an empty list. *)
Definition highlightByLabel (labels : list string) (its : list DataQuickPickItem)
  : list (option DataQuickPickItem) :=
  match filter (fun item => label item ∈ (list_to_set labels : gset string)) its with
  | [] => [its !! 0%nat]
  | kept => Some <$> kept
  end.

(** What [appendItems] shows for a merged list: the list itself, or, when
    it is empty and the picker is not busy, the placeholder if there is
    one. *)
Definition shownFor (o : ExtendedQuickPickOptions) (isBusy : bool)
  (merged : list DataQuickPickItem) : list DataQuickPickItem :=
  match merged with
  | [] => if isBusy then [] else from_option (fun ph => [ph]) [] (placeholderItem o)
  | _ => merged
  end.

(** The label [setLastResponse] looks for: the label of the response when
    the response is an item, the label of the item recovered from it
    otherwise; [None] when nothing is recovered. *)
Definition lastResponseLabel (picked : JsValue) (its : list DataQuickPickItem)
  : option string :=
  match isDataQuickPickItem picked with
  | Returns true => labelOf picked
  | _ => label <$> recoverItemFromData picked its
  end.

(** Data equality between a response and an item, in the words of the
    specification: JSON comparison when the data of the item is an object,
    strict equality when it is a primitive, never when it is a function. *)
Inductive SameData (d : JsValue) (item : DataQuickPickItem) : Prop :=
| same_json :
    typeof (data item) = "object" ->
    stringify d = stringify (data item) ->
    SameData d item
| same_primitive :
    typeof (data item) <> "object" ->
    typeof (data item) <> "function" ->
    strictEquals d (data item) = true ->
    SameData d item.

(** The items as [setLastResponse] leaves them: those bearing the label
    looked for are marked when [showSelectedPreviously] is set. *)
Definition markedItems (selectedPreviously : string) (o : ExtendedQuickPickOptions)
  (wanted : option string) (its : list DataQuickPickItem) : list DataQuickPickItem :=
  if showSelectedPreviously o
  then map (fun item => if bool_decide (Some (label item) = wanted)
                        then markSelectedPreviously selectedPreviously item
                        else item) its
  else its.

(** Every page a source delivers satisfies [ok]. *)
Definition pagesSatisfy (ok : list DataQuickPickItem -> Prop) (source : ItemLoadTypes)
  : Prop :=
  match source with
  | ItemArray loaded => ok loaded
  | ItemPromise loaded => forall page, outcome loaded = Returns page -> ok page
  | ItemIterable pages last =>
      Forall (fun w => forall page, outcome w = Returns page -> ok page) pages /\
      (forall page, outcome last = Returns (Some page) -> ok page)
  end.

(** A load of zero items: every page that arrives is empty. *)
Definition loadsNothing (source : ItemLoadTypes) : Prop :=
  pagesSatisfy (fun page => page = []) source.

(** The part of [loadItems] that runs while the picker is busy. *)
Definition loadPhase (source : ItemLoadTypes) : Async unit :=
  match source with
  | ItemIterable pages last => appendPages pages last
  | ItemPromise loaded => bind (await loaded) appendItems
  | ItemArray loaded => appendItems loaded
  end.

(** The answer an item stands for: its data, or what the promise of
    [item.data()] resolves with; [None] when that promise rejects. *)
Definition answerOf (call : nat -> Completion JsValue) (item : DataQuickPickItem)
  : option JsValue :=
  match data item with
  | JFunction f =>
      match call f with
      | Returns d => Some d
      | Throws _ => None
      end
  | d => Some d
  end.

(** The estimate of an item: the estimator applied to its transformed
    answer; [None] for an item flagged [skipEstimate] and for one without
    an answer. *)
Definition ownEstimate (applyTransforms : JsValue -> JsValue)
  (call : nat -> Completion JsValue) (estimator : JsValue -> Z)
  (item : DataQuickPickItem) : option Z :=
  if skipEstimate item then None
  else (fun d => estimator (applyTransforms d)) <$> answerOf call item.

(** A promise of [setEstimate] is for an item of the list that is not
    flagged and whose data is a function. *)
Definition promiseOf (call : nat -> Completion JsValue) (its : list DataQuickPickItem)
  (promised : option EstimatePromise) : Prop :=
  match promised with
  | None => True
  | Some (EstimateOf item settles) =>
      item ∈ its /\ skipEstimate item = false /\
      exists f, data item = JFunction f /\ settles = call f
  end.

(** Every estimate in the map is the estimate of an item of the list,
    stored under the hash of that item. *)
Definition estimatesOf (applyTransforms : JsValue -> JsValue)
  (call : nat -> Completion JsValue) (estimator : JsValue -> Z)
  (its : list DataQuickPickItem) (est : gmap string Z) : Prop :=
  forall key e, est !! key = Some e ->
    exists item, item ∈ its /\ hashItem item = key /\
                 ownEstimate applyTransforms call estimator item = Some e.

(** The prompter with another [errorItem] option, and what it is for a
    method not to look at that option: run with another error item, it
    completes the same way and leaves the same prompter, up to the option. *)
Definition replaceErrorItem (x : option DataQuickPickItem) (p : QuickPickPrompter)
  : QuickPickPrompter :=
  {| quickPick := quickPick p;
     options := {| compare := compare (options p);
                   placeholderItem := placeholderItem (options p);
                   errorItem := x;
                   showSelectedPreviously := showSelectedPreviously (options p) |};
     isShowingPlaceholder := isShowingPlaceholder p; _estimator := _estimator p;
     _lastPicked := _lastPicked p; hook := hook p; suspended := suspended p |}.

Definition ignoresErrorItem {A : Type} (m : Async A) : Prop :=
  forall x p, m (replaceErrorItem x p) = (fst (m p), replaceErrorItem x (snd (m p))).

(** ** Sample values *)

(** Three distinct objects standing for the control signals. *)
Definition sampleBack : JsValue := JObject [("signal", JString "back")].
Definition sampleExit : JsValue := JObject [("signal", JString "exit")].
Definition sampleRetry : JsValue := JObject [("signal", JString "retry")].

Definition itemA : DataQuickPickItem := labelled "a" (JNumber 1).
Definition itemB : DataQuickPickItem := labelled "b" (JNumber 2).

(** An item with an [onClick] that is marked invalid. *)
Definition itemInvalid : DataQuickPickItem :=
  {| label := "bad"; description := None; detail := None; alwaysShow := false;
     data := JNumber 3; invalidSelection := true; onClick := Some 7%nat;
     skipEstimate := false |}.

(** A picker with the two items, a back button and a toggle button. *)
Definition samplePicker : DataQuickPick :=
  setButtons [BackButton; ToggleButton off {| onCallback := Some 1%nat; offCallBack := None |}]
    (setItems [itemA; itemB] createdQuickPick).

(** A pending prompt in which the user has selected a valid and an
    invalid item. *)
Definition sampleInvalidAccept : PromptState :=
  {| picker := setSelectedItems [itemA; itemInvalid] samplePicker;
     promise := Pending; effects := [PickerShown; DidShowFired] |}.

(** A prompter over the sample picker, and a load of one page that
    arrives later. *)
Definition samplePrompter : QuickPickPrompter :=
  newQuickPickPrompter samplePicker DEFAULT_QUICKPICK_OPTIONS.

Definition arrives {A : Type} (v : A) : Awaited A :=
  {| meanwhile := None; outcome := Returns v |}.

(** An iterable that ends without a page. *)
Definition noPages : ItemLoadTypes := ItemIterable [] (arrives None).

(** A placeholder item, and options that configure it. *)
Definition itemNone : DataQuickPickItem := labelled "No items found" JUndefined.

Definition withPlaceholder : ExtendedQuickPickOptions :=
  {| compare := None; placeholderItem := Some itemNone; errorItem := None;
     showSelectedPreviously := true |}.

(** An error item, options that configure it, and a promise for items
    that rejects. *)
Definition itemError : DataQuickPickItem := labelled "Failed to load items" JUndefined.

Definition withErrorItem : ExtendedQuickPickOptions :=
  {| compare := None; placeholderItem := Some itemNone; errorItem := Some itemError;
     showSelectedPreviously := true |}.

Definition requestFailed : JsError := Thrown (JString "request failed").

Definition rejects {A : Type} (e : JsError) : Awaited A :=
  {| meanwhile := None; outcome := Throws e |}.

(** A prompter in the middle of a load, with the second item highlighted. *)
Definition sampleLoading : QuickPickPrompter :=
  newQuickPickPrompter
    (setBusyEnabled true false (setActiveItems [Some itemB] samplePicker))
    DEFAULT_QUICKPICK_OPTIONS.

(** Settings of the filter-box input: the text is parsed as its own string
    value, an empty parse is [undefined], and texts that start with a
    space are refused. *)
Definition sampleSettings : FilterBoxInputSettings.t :=
  {| FilterBoxInputSettings.label := "Enter a value";
     FilterBoxInputSettings.transform := fun v => JString v;
     FilterBoxInputSettings.inverse := None;
     FilterBoxInputSettings.validator :=
       Some (fun v => match v with
                      | String " " _ => Some "must not start with a space"
                      | _ => None
                      end) |}.

(** Settings whose parse gives no answer. *)
Definition undefinedSettings : FilterBoxInputSettings.t :=
  {| FilterBoxInputSettings.label := "Enter a value";
     FilterBoxInputSettings.transform := fun _ => JUndefined;
     FilterBoxInputSettings.inverse := None;
     FilterBoxInputSettings.validator := None |}.

(** An estimator that reads the number of steps off the answer, a
    transform pipeline that changes nothing, and data functions that all
    resolve with [undefined]. *)
Definition sampleEstimator (answer : JsValue) : Z :=
  match answer with
  | JNumber n => n
  | _ => 0
  end.

Definition noTransforms (answer : JsValue) : JsValue := answer.

Definition sampleCall (f : nat) : Completion JsValue := Returns JUndefined.

(** An item flagged [skipEstimate], and prompters with an estimator at
    step 1 of 3, over that item alone and over the two sample items. *)
Definition itemSkipped : DataQuickPickItem :=
  {| label := "quick"; description := None; detail := None; alwaysShow := false;
     data := JNumber 2; invalidSelection := false; onClick := None;
     skipEstimate := true |}.

Definition estimating (its : list DataQuickPickItem) : QuickPickPrompter :=
  setStepEstimator sampleEstimator
    (newQuickPickPrompter
       (setStepFields (JNumber 1) (JNumber 3) (setItems its createdQuickPick))
       DEFAULT_QUICKPICK_OPTIONS).

(** ** More of the prompter *)

(** [vscode.QuickPickItem & { label: T }], the items of
    [createLabelQuickPick]. *)
Module LabelItem.
Record t : Type := {
  label : string;
  description : option string;
  detail : option string;
  alwaysShow : bool
}.
End LabelItem.

(** [{ data: item.label, ...item }] *)
Definition withLabelData (item : LabelItem.t) : DataQuickPickItem :=
  {| label := LabelItem.label item;
     description := LabelItem.description item;
     detail := LabelItem.detail item;
     alwaysShow := LabelItem.alwaysShow item;
     data := JString (LabelItem.label item);
     invalidSelection := false; onClick := None; skipEstimate := false |}.

(** [promise.then(f)], for a promise that is awaited later. *)
Definition thenMap {A B : Type} (f : A -> B) (w : Awaited A) : Awaited B :=
  {| meanwhile := meanwhile w;
     outcome := match outcome w with
                | Returns v => Returns (f v)
                | Throws e => Throws e
                end |}.

(** The items [createLabelQuickPick] accepts: an array or a promise. *)
Inductive LabelItems : Type :=
| LabelArray (loaded : list LabelItem.t)
| LabelPromise (loaded : Awaited (list LabelItem.t)).

Definition createLabelQuickPick (its : LabelItems) (o : ExtendedQuickPickOptions)
  : Completion unit * QuickPickPrompter :=
  match its with
  | LabelPromise loaded => createQuickPick (ItemPromise (thenMap (map withLabelData) loaded)) o
  | LabelArray loaded => createQuickPick (ItemArray (map withLabelData loaded)) o
  end.

(** An item as the object it is, with the properties the code reads from
    a response: [label], [description], [detail] and [data]. *)
Definition itemToJs (item : DataQuickPickItem) : JsValue :=
  JObject
    ([("label", JString (label item))] ++
     from_option (fun d => [("description", JString d)]) [] (description item) ++
     from_option (fun d => [("detail", JString d)]) [] (detail item) ++
     [("data", data item)]).

(** [set lastResponse(response)] of [QuickPickPrompter]. *)
Definition QuickPickPrompter_setLastResponseItem (selectedPreviously : string)
  (response : option DataQuickPickItem) : Async unit :=
  setLastResponse selectedPreviously (from_option itemToJs JUndefined response).

(** [set lastResponse(response)] of [FilterBoxQuickPickPrompter]. *)
Definition FilterBox_setLastResponse (selectedPreviously : string)
  (response : option DataQuickPickItem) (fp : FilterBoxQuickPickPrompter)
  : Completion unit * FilterBoxQuickPickPrompter :=
  match response with
  | Some picked =>
      if strictEquals (data picked) CUSTOM_USER_INPUT
      then (Returns tt,
            {| super := withQuickPick (setValue (default EmptyString (description picked)))
                          (super fp);
               settings := settings fp; onChangeValue := onChangeValue fp |})
      else
        let '(r, p') := QuickPickPrompter_setLastResponseItem selectedPreviously response (super fp) in
        (r, {| super := p'; settings := settings fp; onChangeValue := onChangeValue fp |})
  | None =>
      let '(r, p') := QuickPickPrompter_setLastResponseItem selectedPreviously response (super fp) in
      (r, {| super := p'; settings := settings fp; onChangeValue := onChangeValue fp |})
  end.

(** The pages a source delivers when none of its promises rejects. *)
Definition deliveredPages (source : ItemLoadTypes) : list (list DataQuickPickItem) :=
  match source with
  | ItemArray loaded => [loaded]
  | ItemPromise loaded =>
      match outcome loaded with
      | Returns page => [page]
      | Throws _ => []
      end
  | ItemIterable pages last =>
      omap (fun w => match outcome w with
                     | Returns page => Some page
                     | Throws _ => None
                     end) pages ++
      match outcome last with
      | Returns (Some page) => [page]
      | _ => []
      end
  end.

(** The highlight is in order: it is not empty, and its entries are items
    of the list, or the list is empty and the one entry is [undefined]. *)
Definition highlightInList (q : DataQuickPick) : Prop :=
  (items q = [] /\ activeItems q = [None]) \/
  (activeItems q <> [] /\
   forall entry, entry ∈ activeItems q -> exists item, entry = Some item /\ item ∈ items q).

(** Choices a prompt can be answered with: at least one item, none of them
    marked invalid. *)
Definition answerable (choices : list DataQuickPickItem) : Prop :=
  choices <> [] /\ existsb invalidSelection choices = false.

(** [createHelpButton], [createBackButton], [createExitButton] and
    [createCommonButtons] of [shared/ui/buttons.ts]. The help button opens
    a link and returns nothing; the exit button returns the EXIT signal.
    The numbers name the two callbacks in the effect log. *)
Definition createHelpButton : QuickInputButton := CallbackButton 0%nat JUndefined.
Definition createBackButton : QuickInputButton := BackButton.
Definition createExitButton (WIZARD_EXIT : JsValue) : QuickInputButton :=
  CallbackButton 1%nat WIZARD_EXIT.
Definition createCommonButtons (WIZARD_EXIT : JsValue) : list QuickInputButton :=
  [createHelpButton; createBackButton; createExitButton WIZARD_EXIT].

(** ** Fetching a resource: [HttpResourceFetcher] *)

Module HttpResourceFetcher.

(** How the request [got] makes ends when nobody cancels it: with a
    response, of which the code reads the body, or with a [RequestError],
    of which the code reads [code]; the message of such an error can name
    the URL. *)
Inductive RequestCourse : Type :=
| Responds (body : string)
| RequestFails (code : JsValue) (message : string).

(** [params]. A present [timeout] is known by whether its token requests
    cancellation while the request is under way, and by the agent of that
    event; [Some None] is a timeout that stays quiet. *)
Record Params : Type := {
  showUrl : bool;
  friendlyName : option string;
  onSuccess : option (string -> Completion unit);
  timeout : option (option string)
}.

Record t : Type := {
  url : string;
  params : Params
}.

(** What a call leaves behind: lines given to the logger, with the value
    for a [%s] in the line, and calls of [params.onSuccess]. *)
Inductive LogLevel : Type := Verbose | Debug.

Inductive Trace : Type :=
| Logged (level : LogLevel) (line : string) (arg : option JsValue)
| SuccessCallback (contents : string).

(** [value.key] for the keys the code reads off a value it knows nothing
    about ([message] and [code] of what was caught, [command] of the data
    of an event): reading a property of [undefined] or [null] throws, an
    object has the property or not, and no other value has one of these
    properties. *)
Definition readProp (key : string) (v : JsValue) : Completion JsValue :=
  match v with
  | JUndefined => Throws (TypeError ("Cannot read properties of undefined (reading '" +:+ key +:+ "')"))
  | JNull => Throws (TypeError ("Cannot read properties of null (reading '" +:+ key +:+ "')"))
  | JObject props => Returns (default JUndefined (getProp key props))
  | _ => Returns JUndefined
  end.

(** [error.message ?? error.code] *)
Definition messageOrCode (err : JsError) : Completion JsValue :=
  match err with
  | TypeError msg => Returns (JString msg)
  | Thrown reason =>
      match readProp "message" reason with
      | Returns (JUndefined | JNull) => readProp "code" reason
      | other => other
      end
  end.

Section Fetcher.

(** [new CancellationError(agent).message], of [timeoutUtils.ts], which is
    not among the sources. *)
Variable cancellationMessage : string -> string.

(** The [CancelError] that [promise.cancel(reason)] rejects with: its
    message is the reason. *)
Definition CancelError (reason : string) : JsError :=
  Thrown (JObject [("message", JString reason)]).

Definition logText (f : t) : string :=
  if showUrl (params f) then url f
  else default "resource from URL" (friendlyName (params f)).

Definition logCancellation (f : t) (agent : string) : Trace :=
  Logged Debug
    ("Download for " +:+ String dquote (logText f) +:+ String dquote " " +:+
     (if bool_decide (agent = "user") then "cancelled" else "timed out"))
    None.

(** [getResponseFromGetRequest(timeout)]: the body of the response it
    resolves with, or what it rejects with. *)
Definition getResponseFromGetRequest (f : t) (course : RequestCourse)
  : list Trace * Completion string :=
  match timeout (params f) with
  | Some (Some agent) =>
      ([logCancellation f agent], Throws (CancelError (cancellationMessage agent)))
  | _ =>
      match course with
      | Responds body => ([], Returns body)
      | RequestFails code _ => ([], Throws (Thrown (JObject [("code", code)])))
      end
  end.

(** The [try] block of [downloadRequest]. *)
Definition tryDownload (f : t) (course : RequestCourse) : list Trace * Completion string :=
  match getResponseFromGetRequest f course with
  | (logged, Returns contents) =>
      match onSuccess (params f) with
      | Some callback =>
          match callback contents with
          | Returns _ =>
              (logged ++ [SuccessCallback contents;
                          Logged Verbose ("Finished downloading " +:+ logText f) None],
               Returns contents)
          | Throws err => (logged ++ [SuccessCallback contents], Throws err)
          end
      | None =>
          (logged ++ [Logged Verbose ("Finished downloading " +:+ logText f) None],
           Returns contents)
      end
  | (logged, Throws err) => (logged, Throws err)
  end.

(** [downloadRequest()]: the value the promise resolves with, [undefined]
    included, or what it rejects with. *)
Definition downloadRequest (f : t) (course : RequestCourse)
  : list Trace * Completion JsValue :=
  match tryDownload f course with
  | (logged, Returns contents) => (logged, Returns (JString contents))
  | (logged, Throws err) =>
      match messageOrCode err with
      | Returns detail =>
          (logged ++ [Logged Verbose ("Error downloading " +:+ logText f +:+ ": %s") (Some detail)],
           Returns JUndefined)
      | Throws thrown => (logged, Throws thrown)
      end
  end.

(** [get()] without a location to pipe the download to. *)
Definition get (f : t) (course : RequestCourse) : list Trace * Completion JsValue :=
  let '(logged, result) := downloadRequest f course in
  (Logged Verbose ("Downloading " +:+ logText f) None :: logged, result).

End Fetcher.

(** The request goes its own way: no cancellation is requested. *)
Definition undisturbed (f : t) : Prop :=
  forall agent, timeout (params f) <> Some (Some agent).

(** What [params.onSuccess] does with the contents; nothing when there is
    no callback. *)
Definition succeeds (f : t) (contents : string) : Completion unit :=
  match onSuccess (params f) with
  | Some callback => callback contents
  | None => Returns tt
  end.

(** The same course of a request, up to the message of the error. *)
Definition sameButMessage (a b : RequestCourse) : Prop :=
  match a, b with
  | Responds x, Responds y => x = y
  | RequestFails c _, RequestFails d _ => c = d
  | _, _ => False
  end.

End HttpResourceFetcher.

(** ** Region commands: [DefaultAWSContextCommands] *)

Module AwsContextCommands.

(** [Region] of [regions/endpoints.ts]. *)
Record Region : Type := {
  id : string;
  name : string
}.

(** [vscode.QuickPickItem], the properties the code sets and reads. *)
Record QuickPickItem : Type := {
  label : string;
  detail : option string
}.

(** The calls a command makes on the context and on the trees, in order. *)
Inductive Call : Type :=
| AddExplorerRegion (regionCode : string)
| RemoveExplorerRegion (regionCode : string)
| RefreshTrees.

(** A string in a condition: the empty string is falsy. *)
Definition truthyString (s : option string) : bool :=
  match s with
  | Some text => bool_decide (text <> EmptyString)
  | None => false
  end.

Section Commands.

(** [getRegionsForActiveCredentials(awsContext, regionProvider)] and
    [awsContext.getExplorerRegions()]. *)
Variable partitionRegions : list Region.
Variable explorerRegions : list string.

(** The answer to a picker of [ui/picker.ts], which is not among the
    sources, showing the given items: what [promptUser] resolves with. *)
Variable user : list QuickPickItem -> option (list QuickPickItem).

(** The local [regionsToShow] of [promptForRegion]. An array of regions,
    empty or not, is truthy. *)
Definition regionsToShow (regions : option (list string)) : list QuickPickItem :=
  map (fun r => {| label := name r; detail := Some (id r) |})
    (List.filter
       (fun r => match regions with
                 | Some given => existsb (fun x => bool_decide (x = id r)) given
                 | None => true
                 end)
       partitionRegions).

Definition promptForRegion (regions : option (list string)) : option string :=
  match user (regionsToShow regions) with
  | Some [picked] => detail picked
  | _ => None
  end.

Definition promptForFilteredRegion (filter : Region -> bool) : option string :=
  promptForRegion (Some (map id (List.filter filter partitionRegions))).

Definition onCommandShowRegion : list Call :=
  let newRegion :=
    promptForFilteredRegion
      (fun candidateRegion => negb (bool_decide (id candidateRegion ∈ explorerRegions))) in
  match newRegion with
  | Some regionCode =>
      if truthyString newRegion then [AddExplorerRegion regionCode; RefreshTrees] else []
  | None => []
  end.

Definition onCommandHideRegion (regionCode : option string) : list Call :=
  let region :=
    if truthyString regionCode then regionCode
    else promptForRegion (Some explorerRegions) in
  match region with
  | Some code => if truthyString region then [RemoveExplorerRegion code; RefreshTrees] else []
  | None => []
  end.

End Commands.

(** The picker answers with items it shows. *)
Definition picksAmongShown (user : list QuickPickItem -> option (list QuickPickItem)) : Prop :=
  forall shown picked item, user shown = Some picked -> item ∈ picked -> item ∈ shown.

(** A user who takes the first item shown. *)
Definition takesFirst (shown : list QuickPickItem) : option (list QuickPickItem) :=
  Some (take 1 shown).

Definition sampleRegions : list Region :=
  [{| id := "us-east-1"; name := "US East (N. Virginia)" |};
   {| id := "us-west-2"; name := "US West (Oregon)" |};
   {| id := "eu-west-1"; name := "Europe (Ireland)" |}].

End AwsContextCommands.

(** ** Credentials commands: [DefaultAWSContextCommands] *)

Module CredentialCommands.

Import AwsContextCommands.

(** [CredentialSelectionState], the fields the commands read. *)
Record CredentialSelectionState : Type := {
  profileName : option string;
  accesskey : option string;
  secretKey : option string;
  credentialProfile : option QuickPickItem
}.

(** The two links the commands open: [credentialHelpUrl] and
    [aboutCredentialsFileUrl]. *)
Inductive Link : Type := CredentialHelp | AboutCredentialsFile.

(** The calls a command makes on the editor, on the credentials files and
    on the login manager, in order. *)
Inductive Call : Type :=
| OpenExternal (link : Link)
| ShowTextDocument (filename : string) (preserveFocus beside : bool)
| GenerateCredentialDirectoryIfNonexistent
| GenerateCredentialsFile (profile accessKey secret : string)
| ShowCreatedMessage (profile : string)
| ShowInvalidMessage
| Login (profile : string).

(** One turn of the loop of [promptAndCreateNewCredentialsFile]: the state
    the user defines, the account [getAccountId] finds for the keys (it
    resolves with [undefined] when it finds none), and the answer to
    "Try again?". *)
Record Round : Type := {
  defined : CredentialSelectionState;
  accountId : option string;
  tryAgain : option string
}.

Section Commands.

(** The texts of [localizedText.ts] and [asString] of
    [credentials/providers/credentials.ts] for a profile of the shared
    credentials provider; neither file is among the sources. *)
Variables yes help viewDocs : string.
Variable asString : string -> string.

(** [UserCredentialsUtils.findExistingCredentialsFilenames()] and the keys
    of [getCredentialProviderNames()]. *)
Variable credentialsFiles : list string.
Variable profileNames : list string.

(** [promptCredentialsSetup()], given the answers of the user to the
    message, one for each time it is shown. The result is [None] while
    the user has not given a last answer. *)
Fixpoint promptCredentialsSetup (answers : list (option string))
  : list Call * option bool :=
  match answers with
  | [] => ([], None)
  | userResponse :: later =>
      if bool_decide (userResponse = Some yes) then ([], Some true)
      else if bool_decide (userResponse = Some help) then
        let '(calls, result) := promptCredentialsSetup later in
        (OpenExternal CredentialHelp :: calls, result)
      else ([], Some false)
  end.

(** [promptAndCreateNewCredentialsFile()], given the turns of its loop.
    The result is [None] while the loop goes on, [Some None] for
    [undefined]. *)
Fixpoint promptAndCreateNewCredentialsFile (rounds : list Round)
  : list Call * option (option string) :=
  match rounds with
  | [] => ([], None)
  | round :: later =>
      let state := defined round in
      if negb (truthyString (profileName state)) || negb (truthyString (accesskey state))
         || negb (truthyString (secretKey state))
      then ([], Some None)
      else
        let profile := default EmptyString (profileName state) in
        if truthyString (accountId round)
        then
          ([GenerateCredentialDirectoryIfNonexistent;
            GenerateCredentialsFile profile (default EmptyString (accesskey state))
              (default EmptyString (secretKey state));
            ShowCreatedMessage profile],
           Some (Some (asString profile)))
        else if negb (truthyString (tryAgain round))
                || negb (bool_decide (tryAgain round = Some yes))
        then ([ShowInvalidMessage], Some None)
        else
          let '(calls, result) := promptAndCreateNewCredentialsFile later in
          (ShowInvalidMessage :: calls, result)
  end.

(** [editCredentials()], given the answer to its message. *)
Definition editCredentials (response : option string) : list Call :=
  imap (fun i filename =>
          ShowTextDocument filename (negb (bool_decide (i = 0%nat)))
            (negb (bool_decide (i = 0%nat))))
    credentialsFiles ++
  (if truthyString response && bool_decide (response = Some viewDocs)
   then [OpenExternal AboutCredentialsFile] else []).

(** What the user does in the course of a command: the profile picked in
    [credentialProfileSelector], the answers to the setup message, the
    turns of the definition loop, and the answer to the message of
    [editCredentials]. *)
Record User : Type := {
  selected : option CredentialSelectionState;
  setupAnswers : list (option string);
  rounds : list Round;
  editAnswer : option string
}.

Definition getProfileNameFromUser (u : User) : list Call * option (option string) :=
  if bool_decide (0 < length profileNames)%nat then
    match selected u with
    | Some state =>
        match credentialProfile state with
        | Some profile => ([], Some (Some (label profile)))
        | None => ([], Some None)
        end
    | None => ([], Some None)
    end
  else if bool_decide (length credentialsFiles = 0%nat) then
    match promptCredentialsSetup (setupAnswers u) with
    | (calls, Some true) =>
        let '(more, result) := promptAndCreateNewCredentialsFile (rounds u) in
        (calls ++ more, result)
    | (calls, Some false) => (calls, Some None)
    | (calls, None) => (calls, None)
    end
  else
    match promptCredentialsSetup (setupAnswers u) with
    | (calls, Some true) => (calls ++ editCredentials (editAnswer u), Some None)
    | (calls, Some false) => (calls, Some None)
    | (calls, None) => (calls, None)
    end.

(** [onCommandLogin()]: the calls made, and whether the command has come
    to its end. *)
Definition onCommandLogin (u : User) : list Call * bool :=
  match getProfileNameFromUser u with
  | (calls, Some profile) =>
      if truthyString profile
      then (calls ++ [Login (default EmptyString profile)], true)
      else (calls, true)
  | (calls, None) => (calls, false)
  end.

Definition onCommandCreateCredentialsProfile (u : User) : list Call * bool :=
  if bool_decide (length credentialsFiles = 0%nat) then
    match promptAndCreateNewCredentialsFile (rounds u) with
    | (calls, Some profile) =>
        if truthyString profile
        then (calls ++ [Login (default EmptyString profile)], true)
        else (calls, true)
    | (calls, None) => (calls, false)
    end
  else (editCredentials (editAnswer u), true).

End Commands.

(** The turn has keys for which an account was found: all three fields
    are filled in and [getAccountId] found an account. *)
Definition validated (round : Round) : Prop :=
  truthyString (profileName (defined round)) = true /\
  truthyString (accesskey (defined round)) = true /\
  truthyString (secretKey (defined round)) = true /\
  truthyString (accountId round) = true.

(** The call that writes the credentials file for the keys of a turn. *)
Definition writesFileOf (round : Round) : Call :=
  GenerateCredentialsFile (default EmptyString (profileName (defined round)))
    (default EmptyString (accesskey (defined round)))
    (default EmptyString (secretKey (defined round))).

Definition isWrite (call : Call) : bool :=
  match call with
  | GenerateCredentialsFile _ _ _ => true
  | _ => false
  end.

Definition isLogin (call : Call) : bool :=
  match call with
  | Login _ => true
  | _ => false
  end.

(** The turn leads to another one: the fields are filled in, no account
    was found for the keys, and the user answers "Try again?" with yes. *)
Definition asksAgain (yes : string) (round : Round) : bool :=
  truthyString (profileName (defined round)) && truthyString (accesskey (defined round))
  && truthyString (secretKey (defined round)) && negb (truthyString (accountId round))
  && truthyString (tryAgain round) && bool_decide (tryAgain round = Some yes).

(** A user who defines keys that are refused, tries again with keys that
    are accepted, and would go on. *)
Definition sampleRounds : list Round :=
  [{| defined := {| profileName := Some "dev"; accesskey := Some "AKIAOLD";
                    secretKey := Some "old"; credentialProfile := None |};
      accountId := None; tryAgain := Some "Yes" |};
   {| defined := {| profileName := Some "dev"; accesskey := Some "AKIANEW";
                    secretKey := Some "new"; credentialProfile := None |};
      accountId := Some "123456789012"; tryAgain := None |};
   {| defined := {| profileName := Some "other"; accesskey := Some "AKIAOTHER";
                    secretKey := Some "other"; credentialProfile := None |};
      accountId := Some "210987654321"; tryAgain := None |}].

End CredentialCommands.

(** ** Commands with telemetry: [runCommandInContainer], [deleteService] *)

(** The [result] of a telemetry record. *)
Inductive TelemetryResult : Type := Succeeded | Failed | Cancelled.

Module EcsCommands.

(** The answer of the [CommandWizard], the fields the command reads. *)
Record CommandResponse : Type := {
  task : string;
  command : string;
  confirmation : option string
}.

(** What the calls the command waits for settle to. [hasRolePermissions]
    resolves with a boolean or [undefined] and is only looked at when the
    node has a task role. *)
Record Run : Type := {
  taskRoleArn : option string;
  createIamClient : Completion unit;
  hasRolePermissions : Completion (option bool);
  isPromptEnabled : Completion bool;
  wizardRun : Completion (option CommandResponse);
  getOrInstallCli : Completion string;
  executeCommand : Completion unit;
  runPlugin : Completion unit
}.

(** The calls with an effect outside, in order. *)
Inductive Call : Type :=
| ShowMissingPermissions
| DisablePrompt
| SetStatusBarMessage
| ExecuteCommand (task command : string)
| ShowCommandOutput (task command : string)
| RunPlugin (ssmPlugin : string)
| LogError (error : JsError)
| ShowViewLogsMessage
| RecordTelemetry (result : TelemetryResult)
| DisposeStatus.

(** The [try] block: the calls made, whether [status] has been assigned,
    and how the block ends: [result] as it stands when the block returns,
    or what it throws. *)
Definition tryRunCommand (w : Run) : list Call * bool * Completion TelemetryResult :=
  match createIamClient w with
  | Throws error => ([], false, Throws error)
  | Returns _ =>
      let missing : Completion bool :=
        match taskRoleArn w with
        | Some _ =>
            match hasRolePermissions w with
            | Returns (Some false) => Returns true
            | Returns _ => Returns false
            | Throws error => Throws error
            end
        | None => Returns false
        end in
      match missing with
      | Throws error => ([], false, Throws error)
      | Returns true => ([ShowMissingPermissions], false, Returns Failed)
      | Returns false =>
          match isPromptEnabled w with
          | Throws error => ([], false, Throws error)
          | Returns _ =>
              match wizardRun w with
              | Throws error => ([], false, Throws error)
              | Returns None => ([], false, Returns Cancelled)
              | Returns (Some response) =>
                  let suppressed :=
                    if bool_decide (confirmation response = Some "suppress")
                    then [DisablePrompt] else [] in
                  match getOrInstallCli w with
                  | Throws error => (suppressed, false, Throws error)
                  | Returns ssmPlugin =>
                      let started :=
                        suppressed ++
                        [SetStatusBarMessage; ExecuteCommand (task response) (command response)] in
                      match executeCommand w with
                      | Throws error => (started, true, Throws error)
                      | Returns _ =>
                          let running :=
                            started ++
                            [ShowCommandOutput (task response) (command response);
                             RunPlugin ssmPlugin] in
                          match runPlugin w with
                          | Throws error => (running, true, Throws error)
                          | Returns _ => (running, true, Returns Succeeded)
                          end
                      end
                  end
              end
          end
      end
  end.

Section RunCommand.

(** [CancellationError.isUserCancelled], of [timeoutUtils.ts], which is
    not among the sources. *)
Variable isUserCancelled : JsError -> bool.

(** The [catch] block, entered with [result] still ['Cancelled']. *)
Definition catchRunCommand (error : JsError) : list Call * TelemetryResult :=
  if isUserCancelled error then ([], Cancelled)
  else ([LogError error; ShowViewLogsMessage], Failed).

(** The command: [try], [catch], and the [finally] block, which records
    the result and then disposes of the status, if there is one. *)
Definition runCommandInContainer (w : Run) : list Call :=
  let '(calls, status, outcome) := tryRunCommand w in
  let '(calls, result) :=
    match outcome with
    | Returns result => (calls, result)
    | Throws error =>
        let '(more, result) := catchRunCommand error in (calls ++ more, result)
    end in
  calls ++ [RecordTelemetry result] ++ (if status then [DisposeStatus] else []).

End RunCommand.

(** The task role of the node lacks the permissions. *)
Definition lacksPermissions (w : Run) : Prop :=
  is_Some (taskRoleArn w) /\ hasRolePermissions w = Returns (Some false).

Definition isRecord (call : Call) : bool :=
  match call with
  | RecordTelemetry _ => true
  | _ => false
  end.

(** A run in which the plugin fails after the command was sent. *)
Definition sampleRun : Run :=
  {| taskRoleArn := Some "arn:aws:iam::123456789012:role/task";
     createIamClient := Returns tt;
     hasRolePermissions := Returns (Some true);
     isPromptEnabled := Returns true;
     wizardRun := Returns (Some {| task := "task-1"; command := "ls";
                                   confirmation := Some "suppress" |});
     getOrInstallCli := Returns "session-manager-plugin";
     executeCommand := Returns tt;
     runPlugin := Throws (Thrown (JString "exit code 1")) |}.

End EcsCommands.

Module AppRunnerCommands.

(** The calls with an effect outside, in order. *)
Inductive Call : Type :=
| DeleteNode
| RecordTelemetry (result : TelemetryResult).

Section DeleteService.

(** The text of the message, and [isValidResponse] of [wizard.ts], which
    is not among the sources. *)
Variable typeDeleteToConfirm : string.
Variable isValidResponse : JsValue -> bool.

Definition validateName (name : string) : option string :=
  if bool_decide (name <> "delete") then Some typeDeleteToConfirm else None.

(** [deleteService(node)], given what [inputBox.prompt()] and
    [node.delete()] settle to: the calls made and how the promise
    settles. *)
Definition deleteService (prompt : Completion JsValue) (delete : Completion unit)
  : list Call * Completion unit :=
  let '(calls, telemetryResult, outcome) :=
    match prompt with
    | Throws error => ([], Failed, Throws error)
    | Returns userInput =>
        if negb (isValidResponse userInput) then ([], Cancelled, Returns tt)
        else
          match delete with
          | Throws error => ([DeleteNode], Failed, Throws error)
          | Returns _ => ([DeleteNode], Succeeded, Returns tt)
          end
    end in
  (calls ++ [RecordTelemetry telemetryResult], outcome).

End DeleteService.

End AppRunnerCommands.

(** ** The remote invoke view: [remoteInvoke.vue] *)

Module RemoteInvoke.

(** A value in a condition. *)
Definition toBoolean (v : JsValue) : bool :=
  match v with
  | JUndefined | JNull | JNaN => false
  | JBool b => b
  | JNumber n => negb (n =? 0)
  | JString s => negb (bool_decide (s = EmptyString))
  | JSymbol _ | JFunction _ | JArray _ | JObject _ => true
  end.

(** [message.key] once [message.command] has been read. *)
Definition prop (key : string) (message : JsValue) : JsValue :=
  match message with
  | JObject props => default JUndefined (getProp key props)
  | _ => JUndefined
  end.

(** The data of the component that its methods write. *)
Record Data : Type := {
  sampleText : JsValue;
  error : JsValue;
  payload : JsValue;
  statusCode : JsValue;
  logs : JsValue;
  showResponse : bool;
  isLoading : bool;
  selectedFile : JsValue
}.

(** [data()]: the payload starts as the empty object. *)
Definition data : Data :=
  {| sampleText := JString EmptyString; error := JUndefined; payload := JObject [];
     statusCode := JString EmptyString; logs := JString EmptyString;
     showResponse := false; isLoading := false; selectedFile := JString EmptyString |}.

Section Methods.

(** [JSON.parse] applied to [message.payload]. *)
Variable parse : JsValue -> Completion JsValue.

(** [handleMessageReceived(event)], given [event.data]. *)
Definition handleMessageReceived (message : JsValue) (d : Data) : Completion unit * Data :=
  match HttpResourceFetcher.readProp "command" message with
  | Throws thrown => (Throws thrown, d)
  | Returns command =>
      if strictEquals command (JString "loadedSample") then
        (Returns tt,
         {| sampleText := prop "sample" message; error := error d; payload := payload d;
            statusCode := statusCode d; logs := logs d; showResponse := showResponse d;
            isLoading := isLoading d; selectedFile := prop "selectedFile" message |})
      else if strictEquals command (JString "invokedLambda") then
        (Returns tt,
         if toBoolean (prop "error" message)
         then
           {| sampleText := sampleText d; error := prop "error" message;
              payload := JString EmptyString; statusCode := JString EmptyString;
              logs := JString EmptyString; showResponse := true; isLoading := false;
              selectedFile := selectedFile d |}
         else
           {| sampleText := sampleText d; error := JUndefined;
              payload := match parse (prop "payload" message) with
                         | Returns parsed => parsed
                         | Throws _ => prop "payload" message
                         end;
              statusCode := prop "statusCode" message; logs := prop "logs" message;
              showResponse := true; isLoading := false; selectedFile := selectedFile d |})
      else (Returns tt, d)
  end.

(** [sendInput()], as far as the data goes. *)
Definition sendInput (d : Data) : Data :=
  {| sampleText := sampleText d; error := error d; payload := payload d;
     statusCode := statusCode d; logs := logs d; showResponse := showResponse d;
     isLoading := true; selectedFile := selectedFile d |}.

(** What happens to the view: a click on Invoke, or a message. *)
Inductive Happening : Type :=
| Invoke
| Message (message : JsValue).

Definition happen (d : Data) (h : Happening) : Data :=
  match h with
  | Invoke => sendInput d
  | Message message => snd (handleMessageReceived message d)
  end.

End Methods.

(** An error stands alone: with an error set, the payload, the status
    code and the logs are empty, and [showResponse] is on. *)
Definition errorStandsAlone (d : Data) : Prop :=
  error d <> JUndefined ->
  toBoolean (error d) = true /\ payload d = JString EmptyString /\
  statusCode d = JString EmptyString /\ logs d = JString EmptyString /\
  showResponse d = true.

Definition isInvoked (h : Happening) : Prop :=
  match h with
  | Message message => prop "command" message = JString "invokedLambda"
  | Invoke => False
  end.

End RemoteInvoke.

(** ** The exclude pattern of the template registry *)

Module RegExp.

(** The regular expressions the pattern is made of. *)
Inductive Regex : Type :=
| Any
| OneOf (chars : list ascii)
| Literal (text : list ascii)
| Star (body : Regex)
| Seq (first second : Regex)
| Alt (preferred fallback : Regex)
| EndOfInput.

(** [.] matches any code unit but a line terminator. *)
Definition isLineTerminator (c : ascii) : bool :=
  Ascii.eqb c (ascii_of_N 10) || Ascii.eqb c (ascii_of_N 13).

Fixpoint dropPrefix (text s : list ascii) : option (list ascii) :=
  match text, s with
  | [], _ => Some s
  | c :: text', d :: s' => if Ascii.eqb c d then dropPrefix text' s' else None
  | _ :: _, [] => None
  end.

(** [body*], greedy: another round of [body] first, the continuation when
    that fails. A round that consumes nothing is refused. *)
Fixpoint repeatMatch (body : list ascii -> (list ascii -> bool) -> bool)
  (k : list ascii -> bool) (fuel : nat) (s : list ascii) : bool :=
  match fuel with
  | O => k s
  | S fuel' =>
      body s (fun rest => (length rest <? length s)%nat && repeatMatch body k fuel' rest)
      || k s
  end.

(** The backtracking matcher: [r] matches at the start of [s] and the
    continuation [k] accepts what is left. *)
Fixpoint matchesAt (r : Regex) (s : list ascii) (k : list ascii -> bool) : bool :=
  match r with
  | Any =>
      match s with
      | c :: rest => negb (isLineTerminator c) && k rest
      | [] => false
      end
  | OneOf chars =>
      match s with
      | c :: rest => existsb (Ascii.eqb c) chars && k rest
      | [] => false
      end
  | Literal text =>
      match dropPrefix text s with
      | Some rest => k rest
      | None => false
      end
  | Star body => repeatMatch (matchesAt body) k (length s) s
  | Seq first second => matchesAt first s (fun rest => matchesAt second rest k)
  | Alt preferred fallback => matchesAt preferred s k || matchesAt fallback s k
  | EndOfInput =>
      match s with
      | [] => k s
      | _ :: _ => false
      end
  end.

(** [r.test(s)] for a pattern without flags: a match at some index. *)
Definition test (r : Regex) (s : string) : bool :=
  let units := list_ascii_of_string s in
  existsb (fun i => matchesAt r (drop i units) (fun _ => true))
    (seq 0 (S (length units))).

(** The same matcher, giving what the continuation gives for the first
    match in the order of backtracking. *)
Fixpoint repeatExec {A : Type} (body : list ascii -> (list ascii -> option A) -> option A)
  (k : list ascii -> option A) (fuel : nat) (s : list ascii) : option A :=
  match fuel with
  | O => k s
  | S fuel' =>
      match body s (fun rest => if (length rest <? length s)%nat
                                then repeatExec body k fuel' rest else None) with
      | Some found => Some found
      | None => k s
      end
  end.

Fixpoint execAt {A : Type} (r : Regex) (s : list ascii) (k : list ascii -> option A)
  : option A :=
  match r with
  | Any =>
      match s with
      | c :: rest => if isLineTerminator c then None else k rest
      | [] => None
      end
  | OneOf chars =>
      match s with
      | c :: rest => if existsb (Ascii.eqb c) chars then k rest else None
      | [] => None
      end
  | Literal text =>
      match dropPrefix text s with
      | Some rest => k rest
      | None => None
      end
  | Star body => repeatExec (execAt body) k (length s) s
  | Seq first second => execAt first s (fun rest => execAt second rest k)
  | Alt preferred fallback =>
      match execAt preferred s k with
      | Some found => Some found
      | None => execAt fallback s k
      end
  | EndOfInput =>
      match s with
      | [] => k s
      | _ :: _ => None
      end
  end.

(** [s.replace(r, replacement)] for a pattern with the [g] flag and a
    replacement without [$]: from left to right, each match gives way to
    the replacement and the search goes on behind it; after an empty
    match it goes on one code unit further. *)
Fixpoint replaceFrom (fuel : nat) (r : Regex) (replacement s : list ascii) : list ascii :=
  match fuel with
  | O => s
  | S fuel' =>
      let copy :=
        match s with
        | [] => []
        | c :: rest => c :: replaceFrom fuel' r replacement rest
        end in
      match execAt r s Some with
      | Some rest =>
          if (length rest <? length s)%nat
          then replacement ++ replaceFrom fuel' r replacement rest
          else replacement ++ copy
      | None => copy
      end
  end.

Definition replace (r : Regex) (replacement : string) (s : list ascii) : list ascii :=
  replaceFrom (S (length s)) r (list_ascii_of_string replacement) s.

End RegExp.

(** [/.*[/\\]\.aws-sam([/\\].*|$)/] *)
Definition pathSeparators : list ascii := [ascii_of_N 47; ascii_of_N 92].

Definition TEMPLATE_FILE_EXCLUDE_PATTERN : RegExp.Regex :=
  RegExp.Seq (RegExp.Star RegExp.Any)
    (RegExp.Seq (RegExp.OneOf pathSeparators)
       (RegExp.Seq (RegExp.Literal (list_ascii_of_string ".aws-sam"))
          (RegExp.Alt (RegExp.Seq (RegExp.OneOf pathSeparators) (RegExp.Star RegExp.Any))
             RegExp.EndOfInput))).

(** ** The quick start pages: [translateReadmeToHtml] *)

(** The three patterns of [translateReadmeToHtml]: [/]\(\.\//g], [/AWS/g]
    and [/-en.png/g], in which the dot stands for any code unit. *)
Definition relativePathRegex : RegExp.Regex :=
  RegExp.Literal (list_ascii_of_string "](./").

Definition awsRegex : RegExp.Regex := RegExp.Literal (list_ascii_of_string "AWS").

Definition enPngRegex : RegExp.Regex :=
  RegExp.Seq (RegExp.Literal (list_ascii_of_string "-en"))
    (RegExp.Seq RegExp.Any (RegExp.Literal (list_ascii_of_string "png"))).

(** The text [translateReadmeToHtml] gives to [marked.parse]. *)
Definition transformedText (cn : bool) (fileText : string) : list ascii :=
  let transformed :=
    RegExp.replace relativePathRegex "](!!EXTENSIONROOT!!/" (list_ascii_of_string fileText) in
  if cn
  then RegExp.replace enPngRegex "-cn.png" (RegExp.replace awsRegex "Amazon" transformed)
  else transformed.

(** [text] has [part] somewhere in it. *)
Definition occursIn (part : string) (text : list ascii) : Prop :=
  exists before after, text = before ++ list_ascii_of_string part ++ after.

(** Whether one of two texts starts with the other, and whether a text
    starts with neither the replacement nor a rest of it. *)
Fixpoint compatible (a b : list ascii) : bool :=
  match a, b with
  | [], _ | _, [] => true
  | c :: a', d :: b' => Ascii.eqb c d && compatible a' b'
  end.

Definition clearOf (part replacement : list ascii) : bool :=
  forallb (fun i => negb (compatible part (drop i replacement)))
    (seq 0 (length replacement)).

(** A path that has a folder [.aws-sam] below some folder: a separator,
    the name, and then the end of the path or another separator. *)
Definition inAwsSamFolder (path : string) : Prop :=
  exists before sep after,
    list_ascii_of_string path
    = before ++ sep :: list_ascii_of_string ".aws-sam" ++ after /\
    sep ∈ pathSeparators /\
    (after = [] \/ exists sep' rest, after = sep' :: rest /\ sep' ∈ pathSeparators).

(** * Properties *)

(** Running the monadic code of a method on a given prompter. *)
Ltac run_async :=
  unfold awaitFirst, showEstimate, registerHook, modifyEstimates, setSteps, clearItems,
    await, nothingMeanwhile, onPicker, modify, bind, this, ret, throw;
  simpl.

(** ** JavaScript values *)

Example stringify_array :
  stringify (JArray [JNumber 1; JUndefined; JBool true; JNumber (-5); JNull])
  = Some "[1,null,true,-5,null]".
Proof. vm_compute. reflexivity. Qed.

(** Properties without JSON text do not count in the comparison of
    objects. *)
Example stringify_skips_functions :
  stringify (JObject [("region", JString "us-east-1"); ("refresh", JFunction 4)])
  = stringify (JObject [("region", JString "us-east-1")]).
Proof. vm_compute. reflexivity. Qed.

Example recover_object_data :
  recoverItemFromData (JObject [("region", JString "us-west-2")])
    [labelled "east" (JObject [("region", JString "us-east-1")]);
     labelled "west" (JObject [("region", JString "us-west-2")])]
  = Some (labelled "west" (JObject [("region", JString "us-west-2")])).
Proof. vm_compute. reflexivity. Qed.

(** ** The prompt promise *)

Section PromptFacts.

Variables WIZARD_BACK WIZARD_EXIT WIZARD_RETRY : JsValue.

Lemma fold_clickItem selection st :
  fold_left clickItem selection st = perform (clicksOf selection) st.
Proof.
  revert st. induction selection as [|item rest IH]; intros [q pr es]; simpl.
  - unfold perform; simpl. by rewrite app_nil_r.
  - rewrite IH. unfold clickItem, clicksOf, perform. simpl.
    destruct (onClick item); simpl; [|done].
    by rewrite <- app_assoc.
Qed.

(** [acceptItems] by cases, as one equation. *)
Lemma acceptItems_cases st :
  acceptItems st =
    match selectedItems (picker st) with
    | [] => st
    | selection =>
        if existsb invalidSelection selection
        then perform (clicksOf selection) st
        else resolve selection (perform (clicksOf selection) st)
    end.
Proof.
  unfold acceptItems. rewrite fold_clickItem.
  change (picker (perform (clicksOf (selectedItems (picker st))) st)) with (picker st).
  destruct (selectedItems (picker st)) as [|item rest]; [done|].
  rewrite bool_decide_eq_false_2 by (simpl; lia). reflexivity.
Qed.

Lemma advances_refl st : advances st st.
Proof. by left. Qed.

Lemma advances_resolve v st : advances st (resolve v st).
Proof.
  unfold advances, resolve. simpl.
  destruct (promise st); eauto.
Qed.

Lemma advances_trans st1 st2 st3 :
  advances st1 st2 -> advances st2 st3 -> advances st1 st3.
Proof.
  unfold advances. intros [H12|[H1 [v Hv]]] [H23|[H2 [w Hw]]].
  - left. congruence.
  - right. split; [congruence|eauto].
  - right. split; [done|]. exists v. congruence.
  - congruence.
Qed.

Lemma advances_acceptItems st : advances st (acceptItems st).
Proof.
  rewrite acceptItems_cases.
  destruct (selectedItems (picker st)); [apply advances_refl|].
  cbv zeta. destruct (existsb invalidSelection _); [by left|].
  apply (advances_resolve _ (perform _ st)).
Qed.

Lemma advances_onDidTriggerButton i st :
  advances st (onDidTriggerButton WIZARD_BACK WIZARD_RETRY i st).
Proof.
  unfold onDidTriggerButton.
  destruct (buttons (picker st) !! i) as [button|]; [|apply advances_refl].
  destruct (isBack button); [apply advances_resolve|].
  destruct (buttonOnClick WIZARD_RETRY button) as [[[button' ran] response]|];
    [|apply advances_refl].
  destruct (strictEquals response JUndefined); [by left|].
  match goal with |- advances _ (resolve ?v ?s) =>
    apply (advances_trans st s (resolve v s)); [by left|apply advances_resolve] end.
Qed.

Lemma advances_finally st : advances st (finally st).
Proof.
  unfold finally. destruct (_ && _); [by left|apply advances_refl].
Qed.

Lemma advances_dispatch st ev :
  advances st (dispatch WIZARD_BACK WIZARD_EXIT WIZARD_RETRY st ev).
Proof.
  unfold dispatch. destruct (disposed (picker st)); [apply advances_refl|].
  eapply advances_trans; [|apply advances_finally].
  destruct ev; simpl.
  - by left.
  - apply advances_acceptItems.
  - apply advances_resolve.
  - apply advances_onDidTriggerButton.
Qed.

Lemma finally_disposes st :
  settled (promise (finally st)) = true -> disposed (picker (finally st)) = true.
Proof.
  unfold finally.
  destruct (settled (promise st)) eqn:Hs, (disposed (picker st)) eqn:Hd; simpl;
    rewrite ?Hs, ?Hd; congruence.
Qed.

Lemma promptInvariant_dispatch st ev :
  promptInvariant st ->
  promptInvariant (dispatch WIZARD_BACK WIZARD_EXIT WIZARD_RETRY st ev).
Proof.
  intros [Hrej Hdis]. split.
  - intros e He.
    destruct (advances_dispatch st ev) as [Heq|[_ [v Hv]]]; [|congruence].
    apply (Hrej e). congruence.
  - unfold dispatch. destruct (disposed (picker st)) eqn:Hd; [done|].
    apply finally_disposes.
Qed.

Lemma promptInvariant_dispatchAll evs st :
  promptInvariant st ->
  promptInvariant (dispatchAll WIZARD_BACK WIZARD_EXIT WIZARD_RETRY evs st).
Proof.
  revert st. induction evs as [|ev evs IH]; intros st Hst; [done|].
  simpl. apply IH. by apply promptInvariant_dispatch.
Qed.

(** A pending prompt whose listener resolves with [v] ends fulfilled with
    [v] and disposed. *)
Lemma finally_resolve v st :
  promise st = Pending -> disposed (picker st) = false ->
  promise (finally (resolve v st)) = Fulfilled v /\
  disposed (picker (finally (resolve v st))) = true.
Proof.
  intros Hp Hd. unfold finally, resolve. simpl. rewrite Hp, Hd. simpl. done.
Qed.

(** The listeners do not dispose of the picker; only [finally] does. *)
Lemma disposed_acceptItems st :
  disposed (picker (acceptItems st)) = disposed (picker st).
Proof.
  rewrite acceptItems_cases.
  destruct (selectedItems (picker st)); [done|].
  cbv zeta. by destruct (existsb invalidSelection _).
Qed.

Lemma disposed_onDidTriggerButton i st :
  disposed (picker (onDidTriggerButton WIZARD_BACK WIZARD_RETRY i st)) = disposed (picker st).
Proof.
  unfold onDidTriggerButton.
  destruct (buttons (picker st) !! i) as [button|]; [|done].
  destruct (isBack button); [done|].
  destruct (buttonOnClick WIZARD_RETRY button) as [[[button' ran] response]|]; [|done].
  by destruct (strictEquals response JUndefined).
Qed.

Lemma disposed_settled_dispatch st ev :
  (disposed (picker st) = true -> settled (promise st) = true) ->
  disposed (picker (dispatch WIZARD_BACK WIZARD_EXIT WIZARD_RETRY st ev)) = true ->
  settled (promise (dispatch WIZARD_BACK WIZARD_EXIT WIZARD_RETRY st ev)) = true.
Proof.
  intros Hst. unfold dispatch.
  destruct (disposed (picker st)) eqn:Hd; [auto|].
  set (st' := match ev with
              | UserSelects selection => withPicker (setSelectedItems selection) st
              | DidAccept => onDidAccept st
              | DidHide => onDidHide WIZARD_EXIT st
              | DidTriggerButton i => onDidTriggerButton WIZARD_BACK WIZARD_RETRY i st
              end).
  assert (Hd' : disposed (picker st') = false).
  { subst st'. destruct ev; simpl; try done.
    - unfold onDidAccept. by rewrite disposed_acceptItems.
    - by rewrite disposed_onDidTriggerButton. }
  unfold finally. rewrite Hd'.
  destruct (settled (promise st')) eqn:Hs; simpl; [by rewrite Hs|congruence].
Qed.

Lemma disposed_settled_dispatchAll evs st :
  (disposed (picker st) = true -> settled (promise st) = true) ->
  disposed (picker (dispatchAll WIZARD_BACK WIZARD_EXIT WIZARD_RETRY evs st)) = true ->
  settled (promise (dispatchAll WIZARD_BACK WIZARD_EXIT WIZARD_RETRY evs st)) = true.
Proof.
  revert st. induction evs as [|ev evs IH]; intros st Hst; [done|].
  simpl. apply IH. by apply disposed_settled_dispatch.
Qed.

End PromptFacts.



(** ** Accepting a selection *)

(** C2. On every accept event: an empty selection is ignored, nothing
    runs and the prompt keeps waiting; for a non-empty selection the
    [onClick] of every selected item has run, in selection order, whether
    or not the selection is then found invalid; a selection with an item
    marked invalid leaves the promise as it was; a selection without one
    resolves it. *)
Theorem accept_ignores_empty_and_invalid (st : PromptState) :
  let selection := selectedItems (picker st) in
  (selection = [] -> acceptItems st = st) /\
  (selection <> [] ->
     effects (acceptItems st) = effects st ++ clicksOf selection /\
     picker (acceptItems st) = picker st /\
     ((exists item, item ∈ selection /\ invalidSelection item = true) ->
        promise (acceptItems st) = promise st) /\
     ((forall item, item ∈ selection -> invalidSelection item = false) ->
        promise (acceptItems st) = promise (resolve selection st))).
Proof.
  intros selection. subst selection. rewrite acceptItems_cases.
  destruct (selectedItems (picker st)) as [|item rest] eqn:Hsel.
  - split; [done|]. intros Hne. by destruct Hne.
  - split; [done|]. intros _. cbv zeta.
    destruct (existsb invalidSelection (item :: rest)) eqn:Hinvalid.
    + repeat split; try done.
      intros Hvalid. apply existsb_exists in Hinvalid as [bad [Hin Hbad]].
      apply list_elem_of_In in Hin. rewrite (Hvalid bad Hin) in Hbad. done.
    + repeat split; try done.
      intros [bad [Hin Hbad]].
      assert (existsb invalidSelection (item :: rest) = true) as Hyes.
      { apply existsb_exists. exists bad. split; [by apply list_elem_of_In|done]. }
      congruence.
Qed.

Lemma accept_ignores_empty_and_invalid_witness :
  effects (acceptItems sampleInvalidAccept) = [PickerShown; DidShowFired; ItemClicked 7%nat] /\
  promise (acceptItems sampleInvalidAccept) = Pending.
Proof.
  pose proof (accept_ignores_empty_and_invalid sampleInvalidAccept) as H.
  cbv zeta in H. destruct H as [_ H].
  destruct H as (Hclicks & _ & Hignored & _); [done|].
  split; [exact Hclicks|].
  apply Hignored. exists itemInvalid. split; [|reflexivity].
  apply list_elem_of_In. simpl. auto.
Defined.

(** ** Selecting and appending items *)

Lemma mapM_label_defined (l : list DataQuickPickItem) :
  mapM (fmap label) (Some <$> l) = Some (label <$> l).
Proof.
  induction l as [|item rest IH]; [done|].
  cbn. rewrite IH. done.
Qed.

Lemma mapM_label_undefined (sel : list (option DataQuickPickItem)) :
  None ∈ sel -> mapM (fmap label) sel = None.
Proof.
  induction sel as [|entry rest IH]; intros Hin; [by apply elem_of_nil in Hin|].
  apply elem_of_cons in Hin as [<-|Hin]; [done|].
  cbn. destruct entry; [|done]. cbn. by rewrite IH.
Qed.

(** [selectItems] as one equation. *)
Lemma selectItems_eq sel p :
  selectItems sel p =
    match mapM (fmap label) sel with
    | None =>
        (Throws (TypeError "Cannot read properties of undefined (reading 'label')"), p)
    | Some labels =>
        (Returns tt,
         withQuickPick (fun q => setActiveItems (highlightByLabel labels (items q)) q) p)
    end.
Proof.
  unfold selectItems. destruct (mapM (fmap label) sel) as [labels|]; [|done].
  destruct p as [q o ph est lp h su].
  unfold bind, onPicker, modify, this, ret, withQuickPick. simpl.
  unfold highlightByLabel. rewrite length_fmap.
  destruct (filter _ (items q)) as [|item kept]; simpl; reflexivity.
Qed.

(** [appendItems] as one equation. *)
Lemma appendItems_eq page p :
  appendItems page p =
    let q := quickPick p in
    let merged := sortItems (compare (options p)) (items q ++ page) in
    selectItems (activeItems q)
      (withQuickPick (setItems (shownFor (options p) (busy q) merged))
         (match merged with
          | [] => if busy q then p else setShowingPlaceholder true p
          | _ => p
          end)).
Proof.
  destruct p as [q o ph est lp h su].
  unfold appendItems, bind, onPicker, modify, this, ret, withQuickPick,
    setShowingPlaceholder, shownFor.
  simpl.
  destruct (sortItems (compare o) (items q ++ page)) as [|item merged] eqn:Hm; simpl.
  - destruct (busy q); simpl; [done|].
    by destruct (placeholderItem o).
  - done.
Qed.

(** The sort rearranges the items and, for a comparator that orders them
    consistently, leaves them in order. *)
Lemma insertSorted_perm c x l : insertSorted c x l ≡ₚ x :: l.
Proof.
  induction l as [|y rest IH]; simpl; [done|].
  destruct (decide (staysBefore c x y)); [done|].
  rewrite IH. apply Permutation_swap.
Qed.

Lemma sortItems_perm cmp l : sortItems cmp l ≡ₚ l.
Proof.
  destruct cmp as [c|]; simpl; [|done].
  induction l as [|x rest IH]; simpl; [done|].
  rewrite insertSorted_perm. by rewrite IH.
Qed.

Lemma insertSorted_sorted c x l :
  Transitive (staysBefore c) -> Total (staysBefore c) ->
  StronglySorted (staysBefore c) l ->
  StronglySorted (staysBefore c) (insertSorted c x l).
Proof.
  intros Htrans Htotal. induction 1 as [|y rest Hsorted IH Hall]; simpl.
  - repeat constructor.
  - destruct (decide (staysBefore c x y)) as [Hxy|Hxy].
    + constructor; [by constructor|].
      constructor; [done|].
      eapply Forall_impl; [exact Hall|]. intros z Hyz. by transitivity y.
    + constructor; [done|].
      rewrite insertSorted_perm. constructor; [|done].
      by destruct (Htotal x y).
Qed.

Lemma sortItems_sorted c l :
  Transitive (staysBefore c) -> Total (staysBefore c) ->
  StronglySorted (staysBefore c) (sortItems (Some c) l).
Proof.
  intros Htrans Htotal. simpl.
  induction l as [|x rest IH]; simpl; [constructor|].
  by apply insertSorted_sorted.
Qed.

Lemma sortItems_nil cmp l : sortItems cmp l = [] <-> l = [].
Proof.
  split; intros H.
  - apply Permutation_nil. by rewrite <- (sortItems_perm cmp l), H.
  - subst. by destruct cmp.
Qed.



(** ** Recovering the last response *)

Lemma filter_marked (keep : DataQuickPickItem -> bool) (mark : DataQuickPickItem -> DataQuickPickItem)
  (its : list DataQuickPickItem) :
  (forall item, keep (mark item) = keep item) ->
  List.filter keep (map (fun item => if keep item then mark item else item) its)
  = map mark (List.filter keep its).
Proof.
  intros Hkeep. induction its as [|item rest IH]; simpl; [done|].
  destruct (keep item) eqn:Hk; simpl.
  - by rewrite Hkeep, Hk, IH.
  - by rewrite Hk, IH.
Qed.

Lemma fmap_mark_defined (mark : DataQuickPickItem -> DataQuickPickItem)
  (l : list DataQuickPickItem) :
  fmap (M := option) mark <$> (Some <$> l) = Some <$> map mark l.
Proof.
  induction l as [|item rest IH]; [done|]. cbn. by rewrite IH.
Qed.

(** [setLastResponse] as one equation: the highlighted entries are the
    items bearing the label looked for, in the list as it is left, or the
    first entry of that list when there is none. *)
Lemma setLastResponse_eq selectedPreviously picked p :
  setLastResponse selectedPreviously picked p =
    if strictEquals picked JUndefined then (Returns tt, p)
    else
      match isDataQuickPickItem picked with
      | Throws e => (Throws e, p)
      | Returns _ =>
          let wanted := lastResponseLabel picked (items (quickPick p)) in
          let shown := markedItems selectedPreviously (options p) wanted (items (quickPick p)) in
          (Returns tt,
           withQuickPick
             (fun q =>
                setActiveItems
                  match List.filter (fun item => bool_decide (Some (label item) = wanted)) shown with
                  | [] => [shown !! 0%nat]
                  | kept => Some <$> kept
                  end
                  (setItems shown q))
             p)
      end.
Proof.
  unfold setLastResponse, lastResponseLabel.
  destruct (strictEquals picked JUndefined); [done|].
  destruct (isDataQuickPickItem picked) as [isItem|e]; [|done].
  destruct p as [q o ph est lp h su].
  unfold bind, onPicker, modify, this, ret, withQuickPick, markedItems. simpl.
  set (wanted := if isItem then labelOf picked
                 else label <$> recoverItemFromData picked (items q)).
  replace (match isItem with true => labelOf picked
           | false => label <$> recoverItemFromData picked (items q) end)
    with wanted by (subst wanted; by destruct isItem).
  set (keep := fun item : DataQuickPickItem => bool_decide (Some (label item) = wanted)).
  destruct (showSelectedPreviously o); simpl.
  - rewrite (filter_marked keep (markSelectedPreviously selectedPreviously)) by done.
    rewrite fmap_mark_defined, length_fmap, length_map.
    destruct (List.filter keep (items q)) as [|item kept]; simpl; done.
  - rewrite length_fmap.
    destruct (List.filter keep (items q)) as [|item kept]; simpl; [|done].
    destruct q; done.
Qed.

Lemma dataMatches_SameData d item :
  dataMatches (stringify d) d item = true <-> SameData d item.
Proof.
  unfold dataMatches. split.
  - intros H. case_bool_decide as Hobj.
    + apply bool_decide_eq_true in H. by apply same_json.
    + case_bool_decide as Hfun; [done|]. by apply same_primitive.
  - intros [Hobj Hjson|Hobj Hfun Heq].
    + rewrite bool_decide_eq_true_2 by done. by apply bool_decide_eq_true.
    + rewrite bool_decide_eq_false_2 by done.
      by rewrite bool_decide_eq_false_2 by done.
Qed.

Lemma find_first {A : Type} (f : A -> bool) (before : list A) (x : A) (rest : list A) :
  f x = true -> (forall y, y ∈ before -> f y = false) ->
  find f (before ++ x :: rest) = Some x.
Proof.
  intros Hx. induction before as [|y before IH]; intros Hbefore; simpl.
  - by rewrite Hx.
  - rewrite (Hbefore y) by apply list_elem_of_here.
    apply IH. intros z Hz. apply Hbefore. by apply list_elem_of_further.
Qed.

Lemma find_nowhere {A : Type} (f : A -> bool) (l : list A) :
  (forall y, y ∈ l -> f y = false) -> find f l = None.
Proof.
  induction l as [|y l IH]; intros Hl; simpl; [done|].
  rewrite (Hl y) by apply list_elem_of_here.
  apply IH. intros z Hz. apply Hl. by apply list_elem_of_further.
Qed.

Lemma recoverItemFromData_first d before found rest :
  SameData d found ->
  (forall item, item ∈ before -> ~ SameData d item) ->
  recoverItemFromData d (before ++ found :: rest) = Some found.
Proof.
  intros Hfound Hbefore. unfold recoverItemFromData. apply find_first.
  - by apply dataMatches_SameData.
  - intros item Hitem. apply not_true_is_false.
    intros H. apply (Hbefore item Hitem). by apply dataMatches_SameData.
Qed.

Lemma recoverItemFromData_none d its :
  (forall item, item ∈ its -> ~ SameData d item) ->
  recoverItemFromData d its = None.
Proof.
  intros Hnone. unfold recoverItemFromData. apply find_nowhere.
  intros item Hitem. apply not_true_is_false.
  intros H. apply (Hnone item Hitem). by apply dataMatches_SameData.
Qed.

Lemma markedItems_labels sp o wanted its :
  label <$> markedItems sp o wanted its = label <$> its.
Proof.
  unfold markedItems. destruct (showSelectedPreviously o); [|done].
  induction its as [|item rest IH]; [done|].
  cbn. rewrite IH. by destruct (bool_decide _).
Qed.

Lemma filter_wanted (l : string) (its : list DataQuickPickItem) :
  List.filter (fun item => bool_decide (Some (label item) = Some l)) its
  = filter (fun item => label item = l) its.
Proof.
  induction its as [|item rest IH]; [done|].
  simpl. rewrite filter_cons, IH.
  destruct (decide (label item = l)) as [Heq|Hne].
  - rewrite bool_decide_eq_true_2; [done|]. by rewrite Heq.
  - rewrite bool_decide_eq_false_2; [done|]. intros H. by inversion H.
Qed.

Lemma filter_nobody (its : list DataQuickPickItem) :
  List.filter (fun item => bool_decide (Some (label item) = None)) its = [].
Proof. induction its as [|item rest IH]; [done|]. simpl. done. Qed.

Lemma filter_label_nil (l : string) (its : list DataQuickPickItem) :
  filter (fun item => label item = l) its = [] <-> l ∉ label <$> its.
Proof.
  split.
  - intros Hnil Hin. apply list_elem_of_fmap in Hin as [item [-> Hitem]].
    by apply (filter_nil_not_elem_of _ _ item Hnil).
  - intros Hnot. induction its as [|item rest IH]; [done|].
    rewrite filter_cons. destruct (decide (label item = l)) as [<-|Hne].
    + exfalso. apply Hnot. cbn. apply list_elem_of_here.
    + apply IH. intros Hin. apply Hnot. cbn. by apply list_elem_of_further.
Qed.

(** The highlight [setLastResponse] leaves when it looks for label [l] and
    when it looks for none. *)
Lemma setLastResponse_label sp picked p l :
  strictEquals picked JUndefined = false ->
  (exists isItem, isDataQuickPickItem picked = Returns isItem) ->
  lastResponseLabel picked (items (quickPick p)) = Some l ->
  let after := setLastResponse sp picked p in
  let shown := items (quickPick (snd after)) in
  fst after = Returns tt /\
  label <$> shown = label <$> items (quickPick p) /\
  (l ∈ label <$> items (quickPick p) ->
     activeItems (quickPick (snd after)) = Some <$> filter (fun item => label item = l) shown) /\
  (l ∉ label <$> items (quickPick p) ->
     activeItems (quickPick (snd after)) = [shown !! 0%nat]).
Proof.
  intros Hdef [isItem HisItem] Hwanted. cbv zeta.
  rewrite setLastResponse_eq, Hdef, HisItem. cbv zeta. rewrite Hwanted.
  simpl. rewrite filter_wanted.
  split; [done|]. split; [apply markedItems_labels|].
  pose proof (filter_label_nil l (markedItems sp (options p) (Some l) (items (quickPick p)))) as Hnil.
  rewrite markedItems_labels in Hnil.
  split.
  - intros Hin. destruct (filter _ _) as [|item kept]; [|done].
    exfalso. by apply Hnil.
  - intros Hnot. apply Hnil in Hnot. by rewrite Hnot.
Qed.

Lemma setLastResponse_nothing sp picked p :
  strictEquals picked JUndefined = false ->
  (exists isItem, isDataQuickPickItem picked = Returns isItem) ->
  lastResponseLabel picked (items (quickPick p)) = None ->
  setLastResponse sp picked p
  = (Returns tt, withQuickPick (fun q => setActiveItems [items q !! 0%nat] q) p).
Proof.
  intros Hdef [isItem HisItem] Hwanted.
  rewrite setLastResponse_eq, Hdef, HisItem. cbv zeta. rewrite Hwanted.
  rewrite filter_nobody.
  assert (Hsame : markedItems sp (options p) None (items (quickPick p)) = items (quickPick p)).
  { clear Hwanted. unfold markedItems.
    destruct (showSelectedPreviously (options p)); [|done].
    induction (items (quickPick p)) as [|item rest IH]; [done|].
    cbn [map]. rewrite IH. by rewrite bool_decide_eq_false_2. }
  rewrite Hsame. destruct p as [q o ph est lp h su]. destruct q. reflexivity.
Qed.

Lemma isDataQuickPickItem_returns picked :
  picked <> JNull -> exists isItem, isDataQuickPickItem picked = Returns isItem.
Proof. intros Hnull. destruct picked; simpl; eauto. done. Qed.

Lemma isDataQuickPickItem_label picked :
  isDataQuickPickItem picked = Returns true -> exists l, labelOf picked = Some l.
Proof.
  destruct picked; simpl; try done. intros H.
  injection H as H. apply andb_true_iff in H as [H _].
  apply bool_decide_eq_true in H.
  destruct (getProp "label" props) as [[]|]; simpl in H; try done. eauto.
Qed.



(** ** The fallback to the first entry *)

Lemma filter_unmatched (wanted : option string) (its : list DataQuickPickItem) :
  (forall item, item ∈ its -> Some (label item) <> wanted) ->
  List.filter (fun item => bool_decide (Some (label item) = wanted)) its = [].
Proof.
  induction its as [|item rest IH]; intros Hnone; [done|].
  simpl. rewrite bool_decide_eq_false_2 by (apply Hnone, list_elem_of_here).
  apply IH. intros other Hother. by apply Hnone, list_elem_of_further.
Qed.

Lemma markedItems_unmatched sp o (wanted : option string) (its : list DataQuickPickItem) :
  (forall item, item ∈ its -> Some (label item) <> wanted) ->
  markedItems sp o wanted its = its.
Proof.
  unfold markedItems. destruct (showSelectedPreviously o); [|done].
  induction its as [|item rest IH]; intros Hnone; [done|].
  cbn [map]. rewrite bool_decide_eq_false_2 by (apply Hnone, list_elem_of_here).
  f_equal. apply IH. intros other Hother. by apply Hnone, list_elem_of_further.
Qed.

Lemma highlightByLabel_unmatched (labels : list string) (its : list DataQuickPickItem) :
  (forall item, item ∈ its -> label item ∉ labels) ->
  highlightByLabel labels its = [its !! 0%nat].
Proof.
  intros Hnone. unfold highlightByLabel.
  destruct (filter _ its) as [|item kept] eqn:Hfilter; [done|].
  assert (Hin : item ∈ filter (fun item => label item ∈ (list_to_set labels : gset string)) its)
    by (rewrite Hfilter; apply list_elem_of_here).
  apply list_elem_of_filter in Hin as [Hlabel Hitem].
  apply elem_of_list_to_set in Hlabel. by destruct (Hnone item Hitem).
Qed.

(** C10. When [selectItems] finds no item bearing one of the labels, and
    when [setLastResponse] finds no item bearing the label it looks for,
    the single entry [items[0]] is assigned to [activeItems] without a
    look at the length of the list; for an empty list this entry is
    [undefined], so [activeItems] is a list of one [undefined] entry and
    not the empty list. *)
Theorem no_match_highlights_first_entry
  (selectedPreviously : string) (p : QuickPickPrompter) :
  let first := withQuickPick (setActiveItems [items (quickPick p) !! 0%nat]) p in
  (forall sel : list DataQuickPickItem,
     (forall item, item ∈ items (quickPick p) -> label item ∉ label <$> sel) ->
     selectItems (Some <$> sel) p = (Returns tt, first)) /\
  (forall picked : JsValue,
     strictEquals picked JUndefined = false ->
     picked <> JNull ->
     (forall item, item ∈ items (quickPick p) ->
        Some (label item) <> lastResponseLabel picked (items (quickPick p))) ->
     setLastResponse selectedPreviously picked p = (Returns tt, first)) /\
  (items (quickPick p) = [] ->
     (forall sel : list DataQuickPickItem,
        activeItems (quickPick (snd (selectItems (Some <$> sel) p))) = [None]) /\
     (forall picked : JsValue,
        strictEquals picked JUndefined = false ->
        picked <> JNull ->
        activeItems (quickPick (snd (setLastResponse selectedPreviously picked p))) = [None])).
Proof.
  intros first.
  assert (Hselect : forall sel : list DataQuickPickItem,
     (forall item, item ∈ items (quickPick p) -> label item ∉ label <$> sel) ->
     selectItems (Some <$> sel) p = (Returns tt, first)).
  { intros sel Hnone. rewrite selectItems_eq, mapM_label_defined.
    subst first. unfold withQuickPick. by rewrite highlightByLabel_unmatched. }
  assert (Hlast : forall picked : JsValue,
     strictEquals picked JUndefined = false ->
     picked <> JNull ->
     (forall item, item ∈ items (quickPick p) ->
        Some (label item) <> lastResponseLabel picked (items (quickPick p))) ->
     setLastResponse selectedPreviously picked p = (Returns tt, first)).
  { intros picked Hdef Hnull Hnone.
    destruct (isDataQuickPickItem_returns picked Hnull) as [isItem HisItem].
    rewrite setLastResponse_eq, Hdef, HisItem. cbv zeta.
    rewrite markedItems_unmatched by done. rewrite filter_unmatched by done.
    subst first. destruct p as [q o ph est lp h su]. destruct q. reflexivity. }
  split; [exact Hselect|]. split; [exact Hlast|].
  intros Hempty. split.
  - intros sel. rewrite Hselect.
    + subst first. simpl. by rewrite Hempty.
    + intros item. rewrite Hempty. by intros ?%elem_of_nil.
  - intros picked Hdef Hnull. rewrite Hlast; [|done|done|].
    + subst first. simpl. by rewrite Hempty.
    + intros item. rewrite Hempty. by intros ?%elem_of_nil.
Qed.

Lemma no_match_highlights_first_entry_witness :
  activeItems (quickPick (snd (selectItems (Some <$> [itemA])
                                 (newQuickPickPrompter createdQuickPick DEFAULT_QUICKPICK_OPTIONS))))
  = [None].
Proof.
  pose proof (no_match_highlights_first_entry "Selected previously"
                (newQuickPickPrompter createdQuickPick DEFAULT_QUICKPICK_OPTIONS)) as H.
  cbv zeta in H. destruct H as (_ & _ & H).
  destruct (H eq_refl) as [Hselect _]. exact (Hselect [itemA]).
Defined.

(** ** Loading items *)

(** What [selectItems] and [appendItems] leave alone, whether they return
    or throw. *)
Lemma selectItems_frame sel p :
  let p' := snd (selectItems sel p) in
  items (quickPick p') = items (quickPick p) /\
  busy (quickPick p') = busy (quickPick p) /\
  enabled (quickPick p') = enabled (quickPick p) /\
  options p' = options p /\
  suspended p' = suspended p /\
  isShowingPlaceholder p' = isShowingPlaceholder p.
Proof.
  rewrite selectItems_eq. by destruct (mapM (fmap label) sel).
Qed.

Lemma appendItems_frame page p :
  let p' := snd (appendItems page p) in
  items (quickPick p')
  = shownFor (options p) (busy (quickPick p))
      (sortItems (compare (options p)) (items (quickPick p) ++ page)) /\
  busy (quickPick p') = busy (quickPick p) /\
  enabled (quickPick p') = enabled (quickPick p) /\
  options p' = options p /\
  suspended p' = suspended p.
Proof.
  rewrite appendItems_eq. cbv zeta.
  match goal with |- context [selectItems ?sel ?p0] =>
    destruct (selectItems_frame sel p0) as (Hi & Hb & He & Ho & Hs & _) end.
  cbv zeta in *. rewrite Hi, Hb, He, Ho, Hs.
  destruct (sortItems _ _); [destruct (busy (quickPick p)) eqn:Hbusy|];
    simpl; rewrite ?Hbusy; done.
Qed.

(** A property of the prompter that holds at every step of the loop over
    the pages holds when the loop ends, whether it returns or throws. *)
Lemma appendPages_invariant (J : QuickPickPrompter -> Prop)
  (okPage : list DataQuickPickItem -> Prop) pages last p :
  (forall p0, J p0 -> J (suspend p0)) ->
  (forall p0 hl, J p0 -> J (withQuickPick (setActiveItems hl) p0)) ->
  (forall p0 page, okPage page -> J p0 -> J (snd (appendItems page p0))) ->
  Forall (fun w => forall page, outcome w = Returns page -> okPage page) pages ->
  (forall page, outcome last = Returns (Some page) -> okPage page) ->
  J p -> J (snd (appendPages pages last p)).
Proof.
  intros Hsuspend Hactive Happend Hpages Hlast. revert p.
  assert (Hawait : forall A (w : Awaited A) p0, J p0 -> J (snd (await w p0))).
  { intros A w p0 Hp0. unfold await. simpl.
    destruct (meanwhile w); auto. }
  induction Hpages as [|w pages Hw Hpages IH]; intros p Hp; simpl; unfold bind.
  - specialize (Hawait _ last p Hp).
    unfold await in *. simpl in *.
    destruct (outcome last) as [[page|]|e]; simpl; auto.
  - specialize (Hawait _ w p Hp).
    unfold await in *. simpl in *.
    destruct (outcome w) as [page|e]; simpl; [|done].
    match goal with |- context [appendItems page ?p0] =>
      specialize (Happend p0 page (Hw page eq_refl) Hawait);
      destruct (appendItems page p0) as [[[]|e] p1] end; simpl in *; auto.
Qed.


Lemma loadPhase_invariant (J : QuickPickPrompter -> Prop)
  (okPage : list DataQuickPickItem -> Prop) source p :
  (forall p0, J p0 -> J (suspend p0)) ->
  (forall p0 hl, J p0 -> J (withQuickPick (setActiveItems hl) p0)) ->
  (forall p0 page, okPage page -> J p0 -> J (snd (appendItems page p0))) ->
  pagesSatisfy okPage source ->
  J p -> J (snd (loadPhase source p)).
Proof.
  intros Hsuspend Hactive Happend Hsource Hp.
  destruct source as [loaded|loaded|pages last]; simpl in *.
  - by apply Happend.
  - unfold bind, await. simpl.
    assert (Hawait : J (match meanwhile loaded with
                        | Some highlighted =>
                            withQuickPick (setActiveItems (Some <$> highlighted)) (suspend p)
                        | None => suspend p
                        end)) by (destruct (meanwhile loaded); auto).
    destruct (outcome loaded) as [page|e]; simpl; [|done].
    by apply Happend; [apply Hsource|].
  - destruct Hsource as [Hpages Hlast].
    by apply (appendPages_invariant J okPage).
Qed.

(** [loadItems] as one equation over its three phases. *)
Lemma loadItems_eq source disableInput p :
  loadItems source disableInput p =
    let cleared :=
      if isShowingPlaceholder p
      then setShowingPlaceholder false (withQuickPick (setItems []) p)
      else p in
    match loadPhase source
            (withQuickPick (setBusyEnabled true (truthy disableInput)) cleared) with
    | (Returns _, loaded) =>
        appendItems [] (withQuickPick (setBusyEnabled false true) loaded)
    | (Throws e, stuck) => (Throws e, stuck)
    end.
Proof.
  unfold loadItems, loadPhase, clearItems, bind, onPicker, modify, this, ret.
  destruct (isShowingPlaceholder p); simpl; destruct source; simpl.
  all: match goal with |- context [match ?m with (_, _) => _ end] =>
         destruct m as [[[]|e] p'] end; simpl; reflexivity.
Qed.

Lemma appendItems_suspended page p :
  suspended (snd (appendItems page p)) = suspended p.
Proof. by destruct (appendItems_frame page p) as (_ & _ & _ & _ & H). Qed.

Lemma loadPhase_grows (n : nat) source p :
  (n <= length (suspended p))%nat ->
  (n <= length (suspended (snd (loadPhase source p))))%nat.
Proof.
  apply (loadPhase_invariant (fun p0 => (n <= length (suspended p0))%nat) (fun _ => True)).
  - intros p0 H. unfold suspend. simpl. rewrite length_app. lia.
  - done.
  - intros p0 page _ H. by rewrite appendItems_suspended.
  - destruct source as [?|?|pages ?]; simpl; try done.
    split; [|done]. by apply Forall_forall.
Qed.

(** A source that is not an array makes [loadItems] wait at least once. *)
Lemma loadPhase_suspends source p :
  (forall loaded, source <> ItemArray loaded) ->
  (length (suspended p) < length (suspended (snd (loadPhase source p))))%nat.
Proof.
  intros Hasync.
  assert (Hone : forall A (w : Awaited A) p0,
            length (suspended (snd (await w p0))) = S (length (suspended p0))).
  { intros A w p0. unfold await. simpl.
    destruct (meanwhile w); simpl; rewrite length_app; simpl; lia. }
  destruct source as [loaded|loaded|pages last]; simpl.
  - by destruct (Hasync loaded).
  - unfold bind. specialize (Hone _ loaded p).
    destruct (await loaded p) as [[page|e] p1]; simpl in *; [|lia].
    rewrite appendItems_suspended. lia.
  - destruct pages as [|w rest]; simpl; unfold bind.
    + specialize (Hone _ last p).
      destruct (await last p) as [[[page|]|e] p1]; simpl in *; try lia.
      rewrite appendItems_suspended. lia.
    + specialize (Hone _ w p).
      destruct (await w p) as [[page|e] p1]; simpl in *; [|lia].
      pose proof (appendItems_suspended page p1) as Hsame.
      destruct (appendItems page p1) as [[[]|e] p2]; simpl in *;
        [|rewrite Hsame; lia].
      pose proof (loadPhase_grows (S (length (suspended p))) (ItemIterable rest last) p2) as H.
      simpl in H. rewrite Hsame in H. lia.
Qed.



(** ** The placeholder *)

(** C4, as the claim states it, fails: a load of zero items that completes
    on a prompter without a placeholder item leaves the list empty. *)
Lemma empty_load_without_placeholder_shows_nothing :
  fst (createQuickPick noPages DEFAULT_QUICKPICK_OPTIONS) = Returns tt /\
  busy (quickPick (snd (createQuickPick noPages DEFAULT_QUICKPICK_OPTIONS))) = false /\
  items (quickPick (snd (createQuickPick noPages DEFAULT_QUICKPICK_OPTIONS))) = [].
Proof. vm_compute. done. Qed.

(** C4, amended. When items are appended to a picker that is not busy and
    the merged list is empty, and so when a load of zero items into an
    empty list (or one showing the placeholder) has left the busy state,
    the list shows exactly the placeholder item if one is configured, and
    is empty if none is. *)
Theorem empty_load_shows_placeholder_if_configured
  (source : ItemLoadTypes) (disableInput : option bool) (p : QuickPickPrompter) :
  let placeholder := from_option (fun ph => [ph]) [] (placeholderItem (options p)) in
  (forall page,
     busy (quickPick p) = false ->
     items (quickPick p) ++ page = [] ->
     items (quickPick (snd (appendItems page p))) = placeholder) /\
  (items (quickPick p) = [] \/ isShowingPlaceholder p = true ->
   loadsNothing source ->
   busy (quickPick (snd (loadItems source disableInput p))) = false ->
   items (quickPick (snd (loadItems source disableInput p))) = placeholder).
Proof.
  intros placeholder. split.
  - intros page Hidle Hempty.
    destruct (appendItems_frame page p) as (Hitems & _). cbv zeta in Hitems.
    rewrite Hitems, Hempty, Hidle. by destruct (compare (options p)).
  - intros Hstart Hnothing. rewrite loadItems_eq. cbv zeta.
    set (cleared := if isShowingPlaceholder p
                    then setShowingPlaceholder false (withQuickPick (setItems []) p)
                    else p).
    set (started := withQuickPick (setBusyEnabled true (truthy disableInput)) cleared).
    set (J := fun p0 : QuickPickPrompter =>
                busy (quickPick p0) = true /\ items (quickPick p0) = [] /\
                options p0 = options p).
    assert (HJ : J (snd (loadPhase source started))).
    { apply (loadPhase_invariant J (fun page => page = [])); try done.
      - intros p0 page -> (Hb & Hi & Ho).
        destruct (appendItems_frame [] p0) as (Hi' & Hb' & _ & Ho' & _).
        cbv zeta in *. rewrite Hi, Hb in Hi'. split; [congruence|]. split; [|congruence].
        rewrite Hi'. by destruct (compare (options p0)).
      - subst started cleared.
        destruct (isShowingPlaceholder p) eqn:Hshowing; simpl; [done|].
        by destruct Hstart as [Hempty|Hshown]. }
    destruct (loadPhase source started) as [[[]|e] loaded]; simpl in *.
    + destruct HJ as (Hb & Hi & Ho). intros _.
      destruct (appendItems_frame [] (withQuickPick (setBusyEnabled false true) loaded))
        as (Hi' & _).
      cbv zeta in Hi'. simpl in Hi'. rewrite Hi' , Hi, Ho.
      by destruct (compare (options p)).
    + destruct HJ as (Hb & _). congruence.
Qed.

Lemma empty_load_shows_placeholder_if_configured_witness :
  items (quickPick (snd (loadItems noPages None
                           (newQuickPickPrompter createdQuickPick withPlaceholder))))
  = [itemNone].
Proof.
  apply (empty_load_shows_placeholder_if_configured noPages None
           (newQuickPickPrompter createdQuickPick withPlaceholder)).
  - left. reflexivity.
  - split; [constructor|]. intros page H. discriminate H.
  - vm_compute. reflexivity.
Defined.

(** ** The error item *)

(** No step of a load looks at the [errorItem] option. *)
Lemma ignoresErrorItem_ret {A : Type} (a : A) : ignoresErrorItem (ret a).
Proof. by intros x p. Qed.

Lemma ignoresErrorItem_bind {A B : Type} (m : Async A) (k : A -> Async B) :
  ignoresErrorItem m -> (forall a, ignoresErrorItem (k a)) -> ignoresErrorItem (bind m k).
Proof.
  intros Hm Hk x p. unfold bind. rewrite Hm.
  destruct (m p) as [[a|e] p']; simpl; [apply Hk|done].
Qed.

Lemma ignoresErrorItem_await {A : Type} (w : Awaited A) : ignoresErrorItem (await w).
Proof. intros x p. unfold await. simpl. by destruct (meanwhile w). Qed.

Lemma ignoresErrorItem_selectItems sel : ignoresErrorItem (selectItems sel).
Proof.
  intros x p. rewrite !selectItems_eq. by destruct (mapM (fmap label) sel).
Qed.

Lemma ignoresErrorItem_appendItems page : ignoresErrorItem (appendItems page).
Proof.
  intros x p. rewrite !appendItems_eq. cbv zeta.
  change (quickPick (replaceErrorItem x p)) with (quickPick p).
  change (compare (options (replaceErrorItem x p))) with (compare (options p)).
  rewrite <- ignoresErrorItem_selectItems. f_equal.
  unfold shownFor.
  destruct (sortItems _ _); [destruct (busy (quickPick p))|]; reflexivity.
Qed.

Lemma ignoresErrorItem_appendPages pages last : ignoresErrorItem (appendPages pages last).
Proof.
  induction pages as [|page rest IH]; simpl.
  - apply ignoresErrorItem_bind; [apply ignoresErrorItem_await|].
    intros [lastPage|]; [apply ignoresErrorItem_appendItems|apply ignoresErrorItem_ret].
  - apply ignoresErrorItem_bind; [apply ignoresErrorItem_await|]. intros v.
    apply ignoresErrorItem_bind; [apply ignoresErrorItem_appendItems|]. by intros _.
Qed.

Lemma ignoresErrorItem_loadPhase source : ignoresErrorItem (loadPhase source).
Proof.
  destruct source as [loaded|loaded|pages last]; simpl.
  - apply ignoresErrorItem_appendItems.
  - apply ignoresErrorItem_bind; [apply ignoresErrorItem_await|].
    apply ignoresErrorItem_appendItems.
  - apply ignoresErrorItem_appendPages.
Qed.

Lemma ignoresErrorItem_loadItems source disableInput :
  ignoresErrorItem (loadItems source disableInput).
Proof.
  intros x p. rewrite !loadItems_eq. cbv zeta.
  change (isShowingPlaceholder (replaceErrorItem x p)) with (isShowingPlaceholder p).
  set (started := withQuickPick (setBusyEnabled true (truthy disableInput))
                    (if isShowingPlaceholder p
                     then setShowingPlaceholder false (withQuickPick (setItems []) p)
                     else p)).
  replace (withQuickPick (setBusyEnabled true (truthy disableInput))
             (if isShowingPlaceholder p
              then setShowingPlaceholder false
                     (withQuickPick (setItems []) (replaceErrorItem x p))
              else replaceErrorItem x p))
    with (replaceErrorItem x started)
    by (subst started; by destruct (isShowingPlaceholder p)).
  rewrite ignoresErrorItem_loadPhase.
  destruct (loadPhase source started) as [[[]|e] loaded]; simpl; [|done].
  apply (ignoresErrorItem_appendItems [] x (withQuickPick (setBusyEnabled false true) loaded)).
Qed.

(** An [undefined] entry in the highlight makes [appendItems] throw once
    the items are merged. *)
Lemma appendItems_undefined_highlight page p :
  None ∈ activeItems (quickPick p) ->
  fst (appendItems page p)
  = Throws (TypeError "Cannot read properties of undefined (reading 'label')") /\
  items (quickPick (snd (appendItems page p)))
  = shownFor (options p) (busy (quickPick p))
      (sortItems (compare (options p)) (items (quickPick p) ++ page)).
Proof.
  intros Hundefined. split; [|by destruct (appendItems_frame page p)].
  rewrite appendItems_eq. cbv zeta. rewrite selectItems_eq.
  by rewrite mapM_label_undefined.
Qed.

(** ** A load that rejects *)

(** A rejection of the awaited items leaves [loadItems] at the [await]:
    it is thrown on, the picker stays busy, and nothing is appended. *)
Lemma rejected_promise_is_thrown (w : Awaited (list DataQuickPickItem)) (e : JsError)
  (disableInput : option bool) (p : QuickPickPrompter) :
  outcome w = Throws e ->
  isShowingPlaceholder p = false ->
  fst (loadItems (ItemPromise w) disableInput p) = Throws e /\
  busy (quickPick (snd (loadItems (ItemPromise w) disableInput p))) = true /\
  enabled (quickPick (snd (loadItems (ItemPromise w) disableInput p))) = truthy disableInput /\
  items (quickPick (snd (loadItems (ItemPromise w) disableInput p))) = items (quickPick p).
Proof.
  intros Hw Hshowing. rewrite loadItems_eq. cbv zeta. rewrite Hshowing.
  unfold loadPhase, bind, await. simpl. rewrite Hw.
  by destruct (meanwhile w).
Qed.

(** C3. The code does not do what the claim says. No load looks at the
    [errorItem] option: whatever error item is configured, [loadItems]
    completes the same way and leaves the same picker. With an error item
    configured, a promise for items that rejects makes [loadItems] reject
    with the same reason: the error item is not shown, the list stays as
    it was and the picker stays busy with input disabled. The same holds
    for an iterable whose first page rejects. *)
Theorem load_rejection_is_not_caught :
  (forall x source disableInput p,
     loadItems source disableInput (replaceErrorItem x p)
     = (fst (loadItems source disableInput p),
        replaceErrorItem x (snd (loadItems source disableInput p)))) /\
  fst (createQuickPick (ItemPromise (rejects requestFailed)) withErrorItem)
  = Throws requestFailed /\
  items (quickPick (snd (createQuickPick (ItemPromise (rejects requestFailed)) withErrorItem)))
  = [] /\
  busy (quickPick (snd (createQuickPick (ItemPromise (rejects requestFailed)) withErrorItem)))
  = true /\
  enabled (quickPick (snd (createQuickPick (ItemPromise (rejects requestFailed)) withErrorItem)))
  = false /\
  fst (createQuickPick (ItemIterable [rejects requestFailed] (arrives None)) withErrorItem)
  = Throws requestFailed /\
  items (quickPick (snd (createQuickPick (ItemIterable [rejects requestFailed] (arrives None))
                           withErrorItem)))
  = [].
Proof.
  split; [intros x source disableInput p; apply ignoresErrorItem_loadItems|].
  vm_compute. done.
Qed.

(** ** Filter-box input *)

Lemma strictEquals_custom d :
  strictEquals d CUSTOM_USER_INPUT = true <-> d = CUSTOM_USER_INPUT.
Proof.
  unfold CUSTOM_USER_INPUT. split.
  - intros H. destruct d; try discriminate H.
    unfold strictEquals in H. apply bool_decide_eq_true in H. by subst.
  - intros ->. reflexivity.
Qed.

Lemma items_update s others v q :
  items (update s others v q)
  = if bool_decide (v <> EmptyString) then customUserInputItem s v :: others else others.
Proof. unfold update. by destruct (bool_decide _). Qed.

Lemma custom_item_in_update s others v q :
  (forall item, item ∈ others -> data item <> CUSTOM_USER_INPUT) ->
  (exists item, item ∈ items (update s others v q) /\ data item = CUSTOM_USER_INPUT)
  <-> v <> EmptyString.
Proof.
  intros Hothers. rewrite items_update. case_bool_decide as Hv.
  - split; [done|]. intros _. exists (customUserInputItem s v).
    split; [apply list_elem_of_here|done].
  - split; [|done]. intros [item [Hin Hdata]]. by destruct (Hothers item Hin).
Qed.

Lemma others_are_not_custom (its : list DataQuickPickItem) item :
  item ∈ List.filter (fun item => negb (strictEquals (data item) CUSTOM_USER_INPUT)) its ->
  data item <> CUSTOM_USER_INPUT.
Proof.
  intros Hin Hdata. apply list_elem_of_In, filter_In in Hin as [_ Hkeep].
  apply strictEquals_custom in Hdata. by rewrite Hdata in Hkeep.
Qed.

Lemma custom_invalidSelection s v :
  invalidSelection (customUserInputItem s v) = bool_decide (validate s v <> None).
Proof. reflexivity. Qed.

(** C7, as the claim states it, fails: with a parse that gives no answer
    for a text the validator accepts, committing the custom-input item
    yields the marker [CUSTOM_USER_INPUT], not the value of the parse. *)
Lemma custom_input_without_answer_yields_marker :
  validate undefinedSettings "abc" = None /\
  acceptItems {| picker := setSelectedItems [customUserInputItem undefinedSettings "abc"]
                             (setValue "abc" createdQuickPick);
                 promise := Pending; effects := [] |}
  = {| picker := setSelectedItems [customUserInputItem undefinedSettings "abc"]
                   (setValue "abc" createdQuickPick);
       promise := Fulfilled [customUserInputItem undefinedSettings "abc"];
       effects := [] |} /\
  FilterBoxInputSettings.transform undefinedSettings "abc" = JUndefined /\
  transformSelection undefinedSettings (setValue "abc" createdQuickPick)
    (data (customUserInputItem undefinedSettings "abc"))
  = CUSTOM_USER_INPUT /\
  CUSTOM_USER_INPUT <> FilterBoxInputSettings.transform undefinedSettings "abc".
Proof. vm_compute. repeat split; discriminate. Qed.

(** C7, amended. In filter-box input mode, once the input has been added
    and the user has typed [v], the list holds an item whose data is the
    custom-input marker if and only if [v] is not empty, and that item
    comes first. When the validator returns a message for [v], the item is
    marked invalid with the message as its detail, and accepting it leaves
    the prompt waiting. When the validator accepts [v], accepting the item
    resolves the prompt with it, and the transform of the prompter turns
    its data into the value the caller's parse gives for the text, unless
    that value is [undefined] or [null], in which case the marker itself
    is kept. The data of any other item goes through the transform
    unchanged. *)
Theorem filter_box_input (fp : FilterBoxQuickPickPrompter) (v : string) :
  let s := settings fp in
  let typed := didChangeValue v (addFilterBoxInput fp) in
  let custom := customUserInputItem s v in
  ((exists item, item ∈ items (quickPick (super typed)) /\ data item = CUSTOM_USER_INPUT)
   <-> v <> EmptyString) /\
  (v <> EmptyString -> head (items (quickPick (super typed))) = Some custom) /\
  data custom = CUSTOM_USER_INPUT /\
  (forall msg, validate s v = Some msg ->
     invalidSelection custom = true /\ detail custom = Some msg /\
     (forall st, selectedItems (picker st) = [custom] ->
        promise (acceptItems st) = promise st)) /\
  (validate s v = None ->
     invalidSelection custom = false /\
     (forall st, selectedItems (picker st) = [custom] -> promise st = Pending ->
        promise (acceptItems st) = Fulfilled [custom]) /\
     (forall q, value q = v ->
        transformSelection s q (data custom)
        = nullish (FilterBoxInputSettings.transform s v) CUSTOM_USER_INPUT) /\
     (forall q, value q = v ->
        FilterBoxInputSettings.transform s v <> JUndefined ->
        FilterBoxInputSettings.transform s v <> JNull ->
        transformSelection s q (data custom) = FilterBoxInputSettings.transform s v)) /\
  (forall q item, data item <> CUSTOM_USER_INPUT ->
     transformSelection s q (data item) = data item).
Proof.
  intros s typed custom.
  assert (Hitems : items (quickPick (super typed))
                   = items (update s
                              (List.filter (fun item => negb (strictEquals (data item) CUSTOM_USER_INPUT))
                                           (items (quickPick (super fp))))
                              v (quickPick (super fp)))).
  { subst typed. unfold didChangeValue, addFilterBoxInput. simpl.
    rewrite !items_update. done. }
  split; [|split; [|split; [done|split; [|split]]]].
  - rewrite Hitems. apply custom_item_in_update. apply others_are_not_custom.
  - intros Hv. rewrite Hitems, items_update. by rewrite bool_decide_eq_true_2.
  - intros msg Hmsg.
    assert (Hinvalid : invalidSelection custom = true).
    { subst custom. rewrite custom_invalidSelection, Hmsg. done. }
    split; [done|]. split; [exact Hmsg|].
    intros st Hsel. rewrite acceptItems_cases, Hsel. cbv zeta.
    cbn [existsb]. by rewrite Hinvalid.
  - intros Hok.
    assert (Hvalid : invalidSelection custom = false).
    { subst custom. rewrite custom_invalidSelection, Hok. done. }
    split; [done|]. split; [|split].
    + intros st Hsel Hpending. rewrite acceptItems_cases, Hsel. cbv zeta.
      cbn [existsb]. rewrite Hvalid. unfold resolve, perform. simpl. by rewrite Hpending.
    + intros q Hq. unfold transformSelection. by rewrite <- Hq.
    + intros q Hq Hundef Hnull. unfold transformSelection.
      change (strictEquals (data custom) CUSTOM_USER_INPUT) with true.
      cbv iota. rewrite Hq.
      by destruct (FilterBoxInputSettings.transform s v).
  - intros q item Hdata. unfold transformSelection.
    destruct (strictEquals (data item) CUSTOM_USER_INPUT) eqn:Heq; [|done].
    by apply strictEquals_custom in Heq.
Qed.

Lemma filter_box_input_witness :
  head (items (quickPick (super (didChangeValue " x"
                                   (addFilterBoxInput
                                      (newFilterBoxQuickPickPrompter samplePicker sampleSettings))))))
  = Some (customUserInputItem sampleSettings " x") /\
  invalidSelection (customUserInputItem sampleSettings " x") = true /\
  transformSelection sampleSettings (setValue "x" samplePicker)
    (data (customUserInputItem sampleSettings "x")) = JString "x".
Proof.
  pose proof (filter_box_input (newFilterBoxQuickPickPrompter samplePicker sampleSettings) " x") as H.
  pose proof (filter_box_input (newFilterBoxQuickPickPrompter samplePicker sampleSettings) "x") as H'.
  cbv zeta in H, H'.
  destruct H as (_ & Hhead & _ & Hinvalid & _).
  destruct H' as (_ & _ & _ & _ & Hvalid & _).
  split; [apply Hhead; discriminate|].
  split; [by apply (Hinvalid "must not start with a space")|].
  destruct (Hvalid eq_refl) as (_ & _ & _ & Hparse).
  apply (Hparse (setValue "x" samplePicker)); [reflexivity|discriminate|discriminate].
Defined.

(** ** Step estimates *)

Section EstimateFacts.

Variable applyTransforms : JsValue -> JsValue.
Variable call : nat -> Completion JsValue.
Variable estimator : JsValue -> Z.

Local Abbreviation estimateOf := (ownEstimate applyTransforms call estimator).
Local Abbreviation setOne := (setEstimate applyTransforms call estimator).
Local Abbreviation setAll := (setEstimates applyTransforms call estimator).
Local Abbreviation fulfil := (fulfilEstimates applyTransforms estimator).

(** [setEstimate] by cases. *)
Lemma setEstimate_cases item est :
  setOne item est =
    if skipEstimate item then (None, est)
    else
      match data item with
      | JFunction f => (Some (EstimateOf item (call f)), est)
      | d => (None, <[hashItem item := estimator (applyTransforms d)]> est)
      end.
Proof. reflexivity. Qed.

(** Either nothing is stored, or the estimate of the item is stored under
    its hash. *)
Lemma setEstimate_stores item est :
  snd (setOne item est) = est \/
  exists e, estimateOf item = Some e /\ snd (setOne item est) = <[hashItem item := e]> est.
Proof.
  rewrite setEstimate_cases. unfold ownEstimate, answerOf.
  destruct (skipEstimate item); [by left|].
  destruct (data item); simpl; eauto.
Qed.

Lemma setEstimate_stores_now item est :
  skipEstimate item = false -> (forall f, data item <> JFunction f) ->
  exists e, estimateOf item = Some e /\
            setOne item est = (None, <[hashItem item := e]> est).
Proof.
  intros Hskip Hdata. rewrite setEstimate_cases. unfold ownEstimate, answerOf.
  rewrite Hskip. destruct (data item); simpl; eauto. by destruct (Hdata id).
Qed.

Lemma setEstimate_promises item est f :
  skipEstimate item = false -> data item = JFunction f ->
  setOne item est = (Some (EstimateOf item (call f)), est).
Proof. intros Hskip Hdata. by rewrite setEstimate_cases, Hskip, Hdata. Qed.

Lemma setEstimates_cons item rest est :
  setAll (item :: rest) est =
    (fst (setOne item est) :: fst (setAll rest (snd (setOne item est))),
     snd (setAll rest (snd (setOne item est)))).
Proof.
  cbn [setEstimates]. destruct (setOne item est) as [promised est1].
  cbn [fst snd]. by destruct (setAll rest est1).
Qed.

Lemma promiseOf_setEstimate item est its :
  item ∈ its -> promiseOf call its (fst (setOne item est)).
Proof.
  intros Hin. rewrite setEstimate_cases.
  destruct (skipEstimate item) eqn:Hskip; [done|].
  destruct (data item) eqn:Hdata; simpl; try done.
  repeat split; eauto.
Qed.

Lemma promiseOf_setEstimates l est its :
  (forall item, item ∈ l -> item ∈ its) ->
  Forall (promiseOf call its) (fst (setAll l est)).
Proof.
  revert est. induction l as [|item rest IH]; intros est Hsub; [by constructor|].
  rewrite setEstimates_cons. simpl. constructor.
  - apply promiseOf_setEstimate, Hsub, list_elem_of_here.
  - apply IH. intros other Hother. by apply Hsub, list_elem_of_further.
Qed.

(** The map after [setEstimate] over a list and after the chains have run. *)
Lemma setEstimates_keeps l est key :
  is_Some (est !! key) -> is_Some (snd (setAll l est) !! key).
Proof.
  revert est. induction l as [|item rest IH]; intros est Hsome; [done|].
  rewrite setEstimates_cons. simpl. apply IH.
  destruct (setEstimate_stores item est) as [->|[e [_ ->]]]; [done|].
  rewrite lookup_insert. by case_decide.
Qed.

Lemma setEstimates_elsewhere l est key :
  (forall item, item ∈ l -> hashItem item <> key) ->
  snd (setAll l est) !! key = est !! key.
Proof.
  revert est. induction l as [|item rest IH]; intros est Hother; [done|].
  rewrite setEstimates_cons. simpl. rewrite IH.
  - destruct (setEstimate_stores item est) as [->|[e [_ ->]]]; [done|].
    apply lookup_insert_ne, Hother, list_elem_of_here.
  - intros other Hin. by apply Hother, list_elem_of_further.
Qed.

Lemma setEstimates_stores_now l est item :
  item ∈ l -> skipEstimate item = false -> (forall f, data item <> JFunction f) ->
  is_Some (snd (setAll l est) !! hashItem item).
Proof.
  revert est. induction l as [|other rest IH]; intros est Hin Hskip Hdata;
    [by apply elem_of_nil in Hin|].
  rewrite setEstimates_cons. simpl.
  apply elem_of_cons in Hin as [<-|Hin]; [|by apply IH].
  apply setEstimates_keeps.
  destruct (setEstimate_stores_now item est Hskip Hdata) as [e [_ ->]]. simpl.
  rewrite lookup_insert_eq. eauto.
Qed.

Lemma setEstimates_promises l est item f :
  item ∈ l -> skipEstimate item = false -> data item = JFunction f ->
  Some (EstimateOf item (call f)) ∈ fst (setAll l est).
Proof.
  revert est. induction l as [|other rest IH]; intros est Hin Hskip Hdata;
    [by apply elem_of_nil in Hin|].
  rewrite setEstimates_cons. simpl.
  apply elem_of_cons in Hin as [<-|Hin].
  - rewrite (setEstimate_promises item est f Hskip Hdata). apply list_elem_of_here.
  - apply list_elem_of_further. by apply IH.
Qed.

Lemma fulfilEstimate_stores its est promised :
  promiseOf call its promised ->
  fulfilEstimate applyTransforms estimator est promised = est \/
  exists item e, item ∈ its /\ estimateOf item = Some e /\
    fulfilEstimate applyTransforms estimator est promised = <[hashItem item := e]> est.
Proof.
  destruct promised as [[item settles]|]; [|by left].
  intros (Hin & Hskip & f & Hdata & ->). simpl.
  destruct (call f) as [d|err] eqn:Hcall; [|by left].
  right. exists item, (estimator (applyTransforms d)). split; [done|]. split; [|done].
  unfold ownEstimate, answerOf. by rewrite Hskip, Hdata, Hcall.
Qed.

Lemma fulfil_keeps its promises est key :
  Forall (promiseOf call its) promises ->
  is_Some (est !! key) -> is_Some (fulfil promises est !! key).
Proof.
  intros Hall. revert est.
  induction Hall as [|promised promises Hp Hall IH]; intros est Hsome; [done|].
  simpl. apply IH.
  destruct (fulfilEstimate_stores its est promised Hp) as [->|(item & e & _ & _ & ->)]; [done|].
  rewrite lookup_insert. by case_decide.
Qed.

Lemma fulfil_elsewhere its promises est key :
  Forall (promiseOf call its) promises ->
  (forall item, item ∈ its -> hashItem item <> key) ->
  fulfil promises est !! key = est !! key.
Proof.
  intros Hall Hother. revert est.
  induction Hall as [|promised promises Hp Hall IH]; intros est; [done|].
  simpl. rewrite IH.
  destruct (fulfilEstimate_stores its est promised Hp) as [->|(item & e & Hin & _ & ->)]; [done|].
  by apply lookup_insert_ne, Hother.
Qed.

Lemma fulfil_stores its promises est item d :
  Forall (promiseOf call its) promises ->
  Some (EstimateOf item (Returns d)) ∈ promises ->
  is_Some (fulfil promises est !! hashItem item).
Proof.
  intros Hall. revert est.
  induction Hall as [|promised promises Hp Hall IH]; intros est Hin;
    [by apply elem_of_nil in Hin|].
  simpl. apply elem_of_cons in Hin as [<-|Hin]; [|by apply IH].
  apply (fulfil_keeps its); [done|]. simpl. rewrite lookup_insert_eq. eauto.
Qed.

Lemma estimatesOf_insert its est item e :
  item ∈ its -> estimateOf item = Some e ->
  estimatesOf applyTransforms call estimator its est ->
  estimatesOf applyTransforms call estimator its (<[hashItem item := e]> est).
Proof.
  intros Hin He Hest key e' Hlookup.
  rewrite lookup_insert in Hlookup. case_decide as Hkey.
  - injection Hlookup as <-. eauto.
  - by apply Hest.
Qed.

Lemma setEstimates_sound its l est :
  (forall item, item ∈ l -> item ∈ its) ->
  estimatesOf applyTransforms call estimator its est ->
  estimatesOf applyTransforms call estimator its (snd (setAll l est)).
Proof.
  revert est. induction l as [|item rest IH]; intros est Hsub Hest; [done|].
  rewrite setEstimates_cons. simpl. apply IH.
  - intros other Hin. by apply Hsub, list_elem_of_further.
  - destruct (setEstimate_stores item est) as [->|[e [He ->]]]; [done|].
    apply estimatesOf_insert; [apply Hsub, list_elem_of_here|done|done].
Qed.

Lemma fulfil_sound its promises est :
  Forall (promiseOf call its) promises ->
  estimatesOf applyTransforms call estimator its est ->
  estimatesOf applyTransforms call estimator its (fulfil promises est).
Proof.
  intros Hall. revert est.
  induction Hall as [|promised promises Hp Hall IH]; intros est Hest; [done|].
  simpl. apply IH.
  destruct (fulfilEstimate_stores its est promised Hp) as [->|(item & e & Hin & He & ->)];
    [done|].
  by apply estimatesOf_insert.
Qed.

(** The estimates once [setEstimate] has run over the items and every
    chain has come to its end: an entry for every item that has an
    estimate, and no entry that is not the estimate of an item. *)
Lemma memo_complete its item :
  item ∈ its -> is_Some (estimateOf item) ->
  is_Some (fulfil (fst (setAll its ∅)) (snd (setAll its ∅)) !! hashItem item).
Proof.
  intros Hin [e He].
  pose proof (promiseOf_setEstimates its ∅ its (fun _ H => H)) as Hall.
  unfold ownEstimate in He. destruct (skipEstimate item) eqn:Hskip; [done|].
  unfold answerOf in He.
  destruct (data item) eqn:Hdata.
  8: { destruct (call id) as [d|err] eqn:Hcall; [|done].
       apply (fulfil_stores its _ _ item d); [done|].
       rewrite <- Hcall. by apply setEstimates_promises. }
  all: apply (fulfil_keeps its); [done|];
       apply setEstimates_stores_now; [done|done|];
       intros f; rewrite Hdata; discriminate.
Qed.

Lemma memo_sound its :
  estimatesOf applyTransforms call estimator its
    (fulfil (fst (setAll its ∅)) (snd (setAll its ∅))).
Proof.
  apply fulfil_sound; [by apply promiseOf_setEstimates|].
  apply setEstimates_sound; [done|]. intros key e H. by rewrite lookup_empty in H.
Qed.

(** The estimate found under the hash of the first item when its data is
    a value, right after [setEstimate] has run over the items. *)
Lemma first_estimate_now first rest :
  skipEstimate first = false -> (forall f, data first <> JFunction f) ->
  fst (setOne first ∅) = None /\
  exists e,
    snd (setAll (first :: rest) ∅) !! hashItem first = Some e /\
    (exists item, item ∈ first :: rest /\ hashItem item = hashItem first /\
                  estimateOf item = Some e) /\
    ((forall item, item ∈ rest -> hashItem item <> hashItem first) ->
       estimateOf first = Some e).
Proof.
  intros Hskip Hdata.
  destruct (setEstimate_stores_now first ∅ Hskip Hdata) as [e1 [He1 Hset]].
  split; [by rewrite Hset|].
  assert (Hnow : is_Some (snd (setAll (first :: rest) ∅) !! hashItem first)).
  { rewrite setEstimates_cons, Hset. cbn [fst snd].
    apply setEstimates_keeps. rewrite lookup_insert_eq. eauto. }
  destruct Hnow as [e He]. exists e. split; [done|]. split.
  - apply (setEstimates_sound (first :: rest) (first :: rest) ∅); [done| |done].
    intros key e' H. by rewrite lookup_empty in H.
  - intros Hunique. rewrite setEstimates_cons, Hset in He. cbn [fst snd] in He.
    rewrite setEstimates_elsewhere in He by done.
    rewrite lookup_insert_eq in He. congruence.
Qed.

(** The same when its data is a function whose promise resolves, once the
    chains have run. *)
Lemma first_estimate_awaited first rest f d :
  skipEstimate first = false -> data first = JFunction f -> call f = Returns d ->
  fst (setOne first ∅) = Some (EstimateOf first (Returns d)) /\
  exists e,
    fulfil (fst (setAll (first :: rest) ∅)) (snd (setAll (first :: rest) ∅)) !! hashItem first
    = Some e /\
    (exists item, item ∈ first :: rest /\ hashItem item = hashItem first /\
                  estimateOf item = Some e) /\
    ((forall item, item ∈ rest -> hashItem item <> hashItem first) ->
       estimateOf first = Some e).
Proof.
  intros Hskip Hdata Hcall.
  pose proof (setEstimate_promises first ∅ f Hskip Hdata) as Hset.
  rewrite Hcall in Hset. split; [by rewrite Hset|].
  assert (Hown : estimateOf first = Some (estimator (applyTransforms d))).
  { unfold ownEstimate, answerOf. by rewrite Hskip, Hdata, Hcall. }
  destruct (memo_complete (first :: rest) first) as [e He];
    [apply list_elem_of_here|by eauto|].
  exists e. split; [done|]. split; [by apply (memo_sound (first :: rest))|].
  intros Hunique. rewrite Hown. f_equal.
  rewrite setEstimates_cons, Hset in He. cbn [fst snd] in He.
  cbn [fulfilEstimates fold_left fulfilEstimate] in He.
  change (fold_left (fulfilEstimate applyTransforms estimator) ?l ?m)
    with (fulfil l m) in He.
  rewrite (fulfil_elsewhere rest) in He; [|by apply promiseOf_setEstimates|done].
  rewrite lookup_insert_eq in He. congruence.
Qed.

(** [setEstimatorHook] on a prompter with an estimator and a first item,
    as one equation. *)
Lemma setEstimatorHook_eq p first rest :
  _estimator p = Some estimator ->
  items (quickPick p) = first :: rest ->
  setEstimatorHook applyTransforms call p =
    let promises := fst (setAll (first :: rest) ∅) in
    let est1 := snd (setAll (first :: rest) ∅) in
    let est2 := fulfil promises est1 in
    let cur := step (quickPick p) in
    let tot := totalSteps (quickPick p) in
    let hooked est := setHook (Some {| estimates := est; current := cur; total := tot |}) in
    let shownTotal est :=
      withQuickPick (setStepFields cur (jsPlus tot (getEstimate est (hashItem first)))) in
    match fst (setOne first ∅) with
    | Some (EstimateOf _ (Throws e)) => (Throws e, suspend (hooked est2 p))
    | Some (EstimateOf _ (Returns _)) =>
        (Returns tt, shownTotal est2 (suspend (hooked est2 p)))
    | None =>
        (Returns tt, hooked est2 (shownTotal est1 (suspend (hooked est1 p))))
    end.
Proof.
  intros Hest Hitems. unfold setEstimatorHook, bind, this. rewrite Hest, Hitems.
  rewrite setEstimates_cons.
  destruct (setOne first ∅) as [promised est0] eqn:Hfirst.
  cbn [fst snd].
  destruct (setAll rest est0) as [others estr] eqn:Hrest. cbn [fst snd].
  destruct p as [q o ph es lp h su]. simpl in Hitems.
  destruct promised as [[item [d|err]]|];
    unfold getEstimate; run_async; rewrite ?Hitems; simpl; reflexivity.
Qed.

(** The listener, when the highlight moves to one item: a memoized
    estimate is read from the map, which stays as it is; a missing one is
    computed and stored first; an item flagged [skipEstimate] counts for
    no step. Each time the displayed total is the total the hook found
    plus the estimate. *)
Lemma didChangeActive_one p h active :
  hook p = Some h ->
  _estimator p = Some estimator ->
  let after := didChangeActive applyTransforms call [active] p in
  let shows (e : Z) (est : gmap string Z) :=
    fst after = Returns tt /\
    activeItems (quickPick (snd after)) = [Some active] /\
    step (quickPick (snd after)) = current h /\
    totalSteps (quickPick (snd after)) = jsPlus (total h) (JNumber e) /\
    estimates <$> hook (snd after) = Some est in
  (forall e, estimates h !! hashItem active = Some e -> shows e (estimates h)) /\
  (estimates h !! hashItem active = None ->
   skipEstimate active = false ->
   (forall f, data active <> JFunction f) ->
   shows (estimator (applyTransforms (data active)))
         (<[hashItem active := estimator (applyTransforms (data active))]> (estimates h))) /\
  (estimates h !! hashItem active = None ->
   skipEstimate active = true ->
   shows 0 (estimates h)).
Proof.
  intros Hhook Hest. cbv zeta.
  destruct p as [q o ph es lp hk su]. simpl in Hhook, Hest. subst hk es.
  unfold didChangeActive, onDidChangeActive, bind, onPicker, modify, this. simpl.
  split; [|split].
  - intros e Hmemo. rewrite Hmemo. rewrite bool_decide_eq_false_2 by done. simpl.
    run_async. rewrite Hmemo. simpl. done.
  - intros Hnone Hskip Hdata. rewrite Hnone. rewrite bool_decide_eq_true_2 by done.
    cbn [setEstimates].
    destruct (setEstimate_stores_now active (estimates h) Hskip Hdata) as [e [He ->]].
    assert (e = estimator (applyTransforms (data active))) as ->.
    { unfold ownEstimate, answerOf in He. rewrite Hskip in He.
      destruct (data active); simpl in He; congruence. }
    run_async. rewrite lookup_insert_eq. simpl. done.
  - intros Hnone Hskip. rewrite Hnone. rewrite bool_decide_eq_true_2 by done.
    cbn [setEstimates]. rewrite setEstimate_cases, Hskip.
    run_async. rewrite Hnone. simpl. done.
Qed.

End EstimateFacts.




(** * Further properties of the code *)

(** ** What a load leaves in the list *)

Lemma appendItems_busy page p :
  busy (quickPick p) = true ->
  items (quickPick (snd (appendItems page p)))
  = sortItems (compare (options p)) (items (quickPick p) ++ page) /\
  isShowingPlaceholder (snd (appendItems page p)) = isShowingPlaceholder p.
Proof.
  intros Hbusy. rewrite appendItems_eq. cbv zeta.
  match goal with |- context [selectItems ?sel ?p0] =>
    destruct (selectItems_frame sel p0) as (Hi & _ & _ & _ & _ & Hs) end.
  cbv zeta in *. rewrite Hi, Hs, Hbusy. unfold shownFor.
  by destruct (sortItems _ _).
Qed.

Section LoadedItems.

(** A way to compare lists of items that the sort respects: equality when
    there is no comparator, rearrangement otherwise. *)
Variable cmp : option (DataQuickPickItem -> DataQuickPickItem -> Z).
Variable R : relation (list DataQuickPickItem).
Hypothesis R_refl : forall l, R l l.
Hypothesis R_trans : forall a b c, R a b -> R b c -> R a c.
Hypothesis R_sort : forall l, R (sortItems cmp l) l.
Hypothesis R_app : forall a b c, R a b -> R (a ++ c) (b ++ c).

Lemma appendItems_loaded page p :
  compare (options p) = cmp -> busy (quickPick p) = true ->
  R (items (quickPick (snd (appendItems page p)))) (items (quickPick p) ++ page) /\
  compare (options (snd (appendItems page p))) = cmp /\
  busy (quickPick (snd (appendItems page p))) = true /\
  isShowingPlaceholder (snd (appendItems page p)) = isShowingPlaceholder p.
Proof.
  intros Hcmp Hbusy.
  destruct (appendItems_busy page p Hbusy) as [Hitems Hshowing].
  destruct (appendItems_frame page p) as (_ & Hb & _ & Ho & _). cbv zeta in *.
  rewrite Hitems, Hcmp, Hb, Ho. auto.
Qed.

Lemma appendPages_loaded pages last p :
  compare (options p) = cmp -> busy (quickPick p) = true ->
  fst (appendPages pages last p) = Returns tt ->
  R (items (quickPick (snd (appendPages pages last p))))
    (items (quickPick p) ++ concat (deliveredPages (ItemIterable pages last))) /\
  compare (options (snd (appendPages pages last p))) = cmp /\
  busy (quickPick (snd (appendPages pages last p))) = true /\
  isShowingPlaceholder (snd (appendPages pages last p)) = isShowingPlaceholder p.
Proof.
  revert p. induction pages as [|w rest IH]; intros p Hcmp Hbusy; simpl.
  - unfold bind, await. simpl.
    set (p1 := match meanwhile last with
               | Some highlighted =>
                   withQuickPick (setActiveItems (Some <$> highlighted)) (suspend p)
               | None => suspend p
               end).
    assert (Hp1 : items (quickPick p1) = items (quickPick p) /\
                  compare (options p1) = cmp /\ busy (quickPick p1) = true /\
                  isShowingPlaceholder p1 = isShowingPlaceholder p)
      by (subst p1; by destruct (meanwhile last)).
    destruct Hp1 as (Hi & Ho & Hb & Hs).
    destruct (outcome last) as [[page|]|e]; simpl; [| |done].
    + intros _. destruct (appendItems_loaded page p1 Ho Hb) as (H1 & H2 & H3 & H4).
      rewrite app_nil_r, <- Hi, <- Hs. auto.
    + intros _. rewrite app_nil_r, Hi. auto.
  - unfold bind, await. simpl.
    set (p1 := match meanwhile w with
               | Some highlighted =>
                   withQuickPick (setActiveItems (Some <$> highlighted)) (suspend p)
               | None => suspend p
               end).
    assert (Hp1 : items (quickPick p1) = items (quickPick p) /\
                  compare (options p1) = cmp /\ busy (quickPick p1) = true /\
                  isShowingPlaceholder p1 = isShowingPlaceholder p)
      by (subst p1; by destruct (meanwhile w)).
    destruct Hp1 as (Hi & Ho & Hb & Hs).
    destruct (outcome w) as [page|e]; simpl; [|done].
    destruct (appendItems_loaded page p1 Ho Hb) as (H1 & H2 & H3 & H4).
    destruct (appendItems page p1) as [[[]|e] p2]; simpl in *; [|done].
    intros Hret. destruct (IH p2 H2 H3 Hret) as (H5 & H6 & H7 & H8).
    split; [|by rewrite H8, H4, Hs].
    eapply R_trans; [exact H5|].
    rewrite app_assoc, <- Hi. by apply R_app.
Qed.

Lemma loadPhase_loaded source p :
  compare (options p) = cmp -> busy (quickPick p) = true ->
  fst (loadPhase source p) = Returns tt ->
  R (items (quickPick (snd (loadPhase source p))))
    (items (quickPick p) ++ concat (deliveredPages source)) /\
  compare (options (snd (loadPhase source p))) = cmp /\
  busy (quickPick (snd (loadPhase source p))) = true /\
  isShowingPlaceholder (snd (loadPhase source p)) = isShowingPlaceholder p.
Proof.
  intros Hcmp Hbusy. destruct source as [loaded|loaded|pages last].
  - intros _. simpl. rewrite app_nil_r. by apply appendItems_loaded.
  - simpl. unfold bind, await. simpl.
    set (p1 := match meanwhile loaded with
               | Some highlighted =>
                   withQuickPick (setActiveItems (Some <$> highlighted)) (suspend p)
               | None => suspend p
               end).
    assert (Hp1 : items (quickPick p1) = items (quickPick p) /\
                  compare (options p1) = cmp /\ busy (quickPick p1) = true /\
                  isShowingPlaceholder p1 = isShowingPlaceholder p)
      by (subst p1; by destruct (meanwhile loaded)).
    destruct Hp1 as (Hi & Ho & Hb & Hs).
    destruct (outcome loaded) as [page|e]; simpl; [|done].
    intros _. destruct (appendItems_loaded page p1 Ho Hb) as (H1 & H2 & H3 & H4).
    rewrite app_nil_r, <- Hi, <- Hs. auto.
  - by apply appendPages_loaded.
Qed.

Lemma loadItems_loaded source disableInput p :
  compare (options p) = cmp ->
  fst (loadItems source disableInput p) = Returns tt ->
  (if isShowingPlaceholder p then [] else items (quickPick p))
    ++ concat (deliveredPages source) <> [] ->
  (forall l, R [] l -> l = []) ->
  R (items (quickPick (snd (loadItems source disableInput p))))
    ((if isShowingPlaceholder p then [] else items (quickPick p))
       ++ concat (deliveredPages source)) /\
  isShowingPlaceholder (snd (loadItems source disableInput p)) = false.
Proof.
  intros Hcmp Hret Hsome Hnil. rewrite loadItems_eq in *. cbv zeta in *.
  set (cleared := if isShowingPlaceholder p
                  then setShowingPlaceholder false (withQuickPick (setItems []) p)
                  else p) in *.
  set (started := withQuickPick (setBusyEnabled true (truthy disableInput)) cleared) in *.
  assert (Hstarted : items (quickPick started)
                     = (if isShowingPlaceholder p then [] else items (quickPick p)) /\
                     compare (options started) = cmp /\ busy (quickPick started) = true /\
                     isShowingPlaceholder started = false).
  { subst started cleared. by destruct (isShowingPlaceholder p) eqn:Hs. }
  destruct Hstarted as (Hi & Ho & Hb & Hs).
  pose proof (loadPhase_loaded source started Ho Hb) as Hphase.
  destruct (loadPhase source started) as [[[]|e] loaded]; simpl in *; [|done].
  destruct (Hphase eq_refl) as (H1 & H2 & H3 & H4). rewrite Hi in H1.
  set (idle := withQuickPick (setBusyEnabled false true) loaded) in *.
  destruct (appendItems_frame [] idle) as (Hitems & _). cbv zeta in Hitems.
  rewrite appendItems_eq in *. cbv zeta in *.
  match goal with |- context [selectItems ?sel ?p0] =>
    destruct (selectItems_frame sel p0) as (_ & _ & _ & _ & _ & Hshow) end.
  cbv zeta in Hshow. rewrite Hitems, Hshow.
  change (compare (options idle)) with (compare (options loaded)).
  change (items (quickPick idle)) with (items (quickPick loaded)).
  rewrite H2, app_nil_r.
  destruct (sortItems cmp (items (quickPick loaded))) as [|item merged] eqn:Hsorted.
  - exfalso. apply Hsome. apply Hnil.
    apply sortItems_nil in Hsorted. by rewrite Hsorted in H1.
  - simpl. split; [|by rewrite H4, Hs].
    eapply R_trans; [|exact H1]. rewrite <- Hsorted. apply R_sort.
Qed.

End LoadedItems.

(** X1. When [loadItems] returns and there is anything to show, the list
    holds the items that were there (none, if the placeholder was showing)
    followed by the pages delivered: in that very order without a
    comparator, rearranged by the sort with one. The placeholder is not
    showing. *)
Theorem load_appends_delivered_pages
  (source : ItemLoadTypes) (disableInput : option bool) (p : QuickPickPrompter) :
  fst (loadItems source disableInput p) = Returns tt ->
  let all := (if isShowingPlaceholder p then [] else items (quickPick p))
               ++ concat (deliveredPages source) in
  all <> [] ->
  items (quickPick (snd (loadItems source disableInput p))) ≡ₚ all /\
  (compare (options p) = None ->
     items (quickPick (snd (loadItems source disableInput p))) = all) /\
  isShowingPlaceholder (snd (loadItems source disableInput p)) = false.
Proof.
  intros Hret all Hall.
  destruct (loadItems_loaded (compare (options p)) (≡ₚ)) with (source := source)
    (disableInput := disableInput) (p := p) as [Hperm Hshowing]; try done.
  - intros a b c Hab Hbc. by rewrite Hab.
  - apply sortItems_perm.
  - intros a b c Hab. by rewrite Hab.
  - intros l Hl. by apply Permutation_nil.
  - split; [done|]. split; [|done].
    intros Hnone.
    destruct (loadItems_loaded None eq) with (source := source)
      (disableInput := disableInput) (p := p) as [Heq _]; try done.
    + intros a b c -> ->. done.
    + intros a b c ->. done.
Qed.

Lemma load_appends_delivered_pages_witness :
  items (quickPick (snd (loadItems (ItemIterable [arrives [itemB]] (arrives None)) None
                           samplePrompter)))
  = [itemA; itemB; itemB].
Proof.
  apply (load_appends_delivered_pages (ItemIterable [arrives [itemB]] (arrives None)) None
           samplePrompter); [reflexivity|discriminate|reflexivity].
Defined.

(** ** The highlight *)

Lemma highlightByLabel_inList labels its q :
  items q = its -> activeItems q = highlightByLabel labels its -> highlightInList q.
Proof.
  intros Hits Hactive. unfold highlightInList. rewrite Hits, Hactive.
  unfold highlightByLabel.
  destruct (filter _ its) as [|item kept] eqn:Hkept.
  - destruct its as [|first rest]; [by left|]. right. split; [done|].
    intros entry Hin. apply list_elem_of_singleton in Hin. subst entry.
    exists first. split; [done|apply list_elem_of_here].
  - right. split; [done|]. intros entry Hin.
    apply list_elem_of_fmap in Hin as [found [-> Hfound]]. exists found. split; [done|].
    rewrite <- Hkept in Hfound. by apply list_elem_of_filter in Hfound as [_ ?].
Qed.

Lemma selectItems_inList sel p :
  fst (selectItems sel p) = Returns tt -> highlightInList (quickPick (snd (selectItems sel p))).
Proof.
  rewrite selectItems_eq. destruct (mapM (fmap label) sel) as [labels|]; [|done].
  intros _. by apply (highlightByLabel_inList labels (items (quickPick p))).
Qed.

Lemma appendItems_inList page p :
  fst (appendItems page p) = Returns tt -> highlightInList (quickPick (snd (appendItems page p))).
Proof. rewrite appendItems_eq. cbv zeta. apply selectItems_inList. Qed.

(** X2. Whenever [selectItems], [appendItems], [loadItems] or
    [setLastResponse] (for a response other than [undefined]) returns, the
    highlight is not empty and each of its entries is an item of the list
    as it then stands; the one exception is the empty list, for which the
    highlight is the single entry [undefined]. *)
Theorem highlight_stays_in_list (p : QuickPickPrompter) :
  (forall sel,
     fst (selectItems sel p) = Returns tt ->
     highlightInList (quickPick (snd (selectItems sel p)))) /\
  (forall page,
     fst (appendItems page p) = Returns tt ->
     highlightInList (quickPick (snd (appendItems page p)))) /\
  (forall source disableInput,
     fst (loadItems source disableInput p) = Returns tt ->
     highlightInList (quickPick (snd (loadItems source disableInput p)))) /\
  (forall selectedPreviously picked,
     strictEquals picked JUndefined = false ->
     fst (setLastResponse selectedPreviously picked p) = Returns tt ->
     highlightInList (quickPick (snd (setLastResponse selectedPreviously picked p)))).
Proof.
  split; [intros sel; apply selectItems_inList|].
  split; [intros page; apply appendItems_inList|].
  split.
  - intros source disableInput. rewrite loadItems_eq. cbv zeta.
    destruct (loadPhase source _) as [[[]|e] loaded]; simpl; [|done].
    apply appendItems_inList.
  - intros sp picked Hdef. rewrite setLastResponse_eq, Hdef.
    destruct (isDataQuickPickItem picked) as [isItem|e]; [|done]. cbv zeta.
    intros _. simpl.
    set (shown := markedItems sp (options p) _ (items (quickPick p))).
    unfold highlightInList. simpl.
    destruct (List.filter _ shown) as [|item kept] eqn:Hkept.
    + destruct shown as [|first rest]; [by left|]. right. split; [done|].
      intros entry Hin. apply list_elem_of_singleton in Hin. subst entry.
      exists first. split; [done|apply list_elem_of_here].
    + right. split; [done|]. intros entry Hin.
      change (entry ∈ Some <$> (item :: kept)) in Hin.
      apply list_elem_of_fmap in Hin as [found [-> Hfound]]. exists found. split; [done|].
      rewrite <- Hkept in Hfound. apply list_elem_of_In, filter_In in Hfound as [Hfound _].
      by apply list_elem_of_In.
Qed.

Lemma highlight_stays_in_list_witness :
  highlightInList (quickPick (snd (loadItems (ItemArray [itemA]) None
                                     (newQuickPickPrompter createdQuickPick
                                        DEFAULT_QUICKPICK_OPTIONS)))).
Proof.
  destruct (highlight_stays_in_list
              (newQuickPickPrompter createdQuickPick DEFAULT_QUICKPICK_OPTIONS))
    as (_ & _ & Hload & _).
  apply Hload. reflexivity.
Defined.

(** ** Clearing and loading *)

(** A load into a list that was cleared leaves the delivered pages. *)
Lemma loadItems_after_clearing (source : ItemLoadTypes) (cleared : QuickPickPrompter) :
  items (quickPick cleared) = [] ->
  fst (loadItems source None cleared) = Returns tt ->
  concat (deliveredPages source) <> [] ->
  items (quickPick (snd (loadItems source None cleared))) ≡ₚ concat (deliveredPages source) /\
  (compare (options cleared) = None ->
     items (quickPick (snd (loadItems source None cleared))) = concat (deliveredPages source)) /\
  isShowingPlaceholder (snd (loadItems source None cleared)) = false.
Proof.
  intros Hcleared Hret Hsome.
  assert (Hall : (if isShowingPlaceholder cleared then [] else items (quickPick cleared))
                   ++ concat (deliveredPages source)
                 = concat (deliveredPages source)).
  { rewrite Hcleared. by destruct (isShowingPlaceholder cleared). }
  destruct (loadItems_loaded (compare (options cleared)) (≡ₚ)) with (source := source)
    (disableInput := @None bool) (p := cleared) as [Hperm Hshowing]; try done.
  - intros a b c Hab Hbc. by rewrite Hab.
  - apply sortItems_perm.
  - intros a b c Hab. by rewrite Hab.
  - by rewrite Hall.
  - intros l Hl. by apply Permutation_nil.
  - rewrite Hall in Hperm. split; [done|]. split; [|done].
    intros Hnone.
    destruct (loadItems_loaded None eq) with (source := source)
      (disableInput := @None bool) (p := cleared) as [Heq _]; try done.
    + intros a b c -> ->. done.
    + intros a b c ->. done.
    + by rewrite Hall.
    + by rewrite Hall in Heq.
Qed.

(** X3. When [clearAndLoadItems] returns and pages were delivered, the old
    items are gone: the list holds the delivered pages (rearranged by the
    sort if there is a comparator), and the highlight is taken from the
    one before the call, by label: the new items bearing a label
    highlighted before, else the first entry. A highlight the user set
    while the items were loading is not kept. *)
Theorem clearAndLoadItems_replaces_items
  (source : ItemLoadTypes) (p : QuickPickPrompter) (active : list DataQuickPickItem) :
  activeItems (quickPick p) = Some <$> active ->
  fst (clearAndLoadItems source p) = Returns tt ->
  concat (deliveredPages source) <> [] ->
  let after := snd (clearAndLoadItems source p) in
  items (quickPick after) ≡ₚ concat (deliveredPages source) /\
  (compare (options p) = None -> items (quickPick after) = concat (deliveredPages source)) /\
  activeItems (quickPick after) = highlightByLabel (label <$> active) (items (quickPick after)) /\
  isShowingPlaceholder after = false.
Proof.
  intros Hactive. unfold clearAndLoadItems, bind, this, clearItems, onPicker, modify.
  simpl. rewrite Hactive.
  set (cleared := setShowingPlaceholder false (withQuickPick (setItems []) p)).
  pose proof (loadItems_after_clearing source cleared eq_refl) as Hload.
  destruct (loadItems source None cleared) as [[[]|e] loaded]; simpl in *; [|done].
  rewrite selectItems_eq, mapM_label_defined. simpl. intros _ Hsome.
  destruct (Hload eq_refl Hsome) as (Hperm & Heq & Hshowing). done.
Qed.

Lemma clearAndLoadItems_replaces_items_witness :
  items (quickPick (snd (clearAndLoadItems (ItemArray [itemB; itemInvalid]) sampleLoading)))
  = [itemB; itemInvalid] /\
  activeItems (quickPick (snd (clearAndLoadItems (ItemArray [itemB; itemInvalid]) sampleLoading)))
  = [Some itemB].
Proof.
  destruct (clearAndLoadItems_replaces_items (ItemArray [itemB; itemInvalid]) sampleLoading
              [itemB] eq_refl eq_refl ltac:(discriminate))
    as (_ & Heq & Hactive & _).
  split; [by apply Heq|]. rewrite Hactive, Heq by reflexivity. vm_compute. reflexivity.
Defined.

(** ** Where the items of the list come from *)

Lemma sortItems_Forall (P : DataQuickPickItem -> Prop) cmp l :
  Forall P l -> Forall P (sortItems cmp l).
Proof. intros H. by rewrite sortItems_perm. Qed.

(** A load invents no items: a property that holds of the items in the
    list, of the items of every page and of the placeholder holds of every
    item in the list after [loadItems], whether it returns or throws. *)
Lemma loadItems_Forall (P : DataQuickPickItem -> Prop) source disableInput p :
  Forall P (items (quickPick p)) ->
  pagesSatisfy (Forall P) source ->
  (forall ph, placeholderItem (options p) = Some ph -> P ph) ->
  Forall P (items (quickPick (snd (loadItems source disableInput p)))).
Proof.
  intros Hold Hpages Hph. rewrite loadItems_eq. cbv zeta.
  set (cleared := if isShowingPlaceholder p
                  then setShowingPlaceholder false (withQuickPick (setItems []) p)
                  else p).
  set (started := withQuickPick (setBusyEnabled true (truthy disableInput)) cleared).
  set (J := fun p0 : QuickPickPrompter =>
              Forall P (items (quickPick p0)) /\ options p0 = options p).
  assert (Happend : forall p0 page, Forall P page -> J p0 -> J (snd (appendItems page p0))).
  { intros p0 page Hpage [Hitems Hopts].
    destruct (appendItems_frame page p0) as (Hi & _ & _ & Ho & _). cbv zeta in *.
    split; [|congruence]. rewrite Hi. unfold shownFor.
    destruct (sortItems (compare (options p0)) (items (quickPick p0) ++ page))
      as [|item merged] eqn:Hsorted.
    - destruct (busy (quickPick p0)); [constructor|].
      rewrite Hopts. destruct (placeholderItem (options p)) as [ph|] eqn:Hplaceholder;
        simpl; [|constructor].
      constructor; [by apply Hph|constructor].
    - rewrite <- Hsorted. apply sortItems_Forall, Forall_app. done. }
  assert (HJ : J (snd (loadPhase source started))).
  { apply (loadPhase_invariant J (Forall P)); try done.
    subst started cleared. split; [|by destruct (isShowingPlaceholder p)].
    destruct (isShowingPlaceholder p); simpl; [constructor|done]. }
  destruct (loadPhase source started) as [[[]|e] loaded]; simpl in *; [|by destruct HJ].
  apply (Happend (withQuickPick (setBusyEnabled false true) loaded) []); [constructor|].
  by destruct HJ.
Qed.



(** ** What a prompt is answered with *)

Section AnswerFacts.

Variables WIZARD_BACK WIZARD_EXIT WIZARD_RETRY : JsValue.

Lemma promise_finally st : promise (finally st) = promise st.
Proof. unfold finally. by destruct (_ && _). Qed.

Lemma resolve_answerable v st :
  answerable v ->
  (forall cs, promise st = Fulfilled cs -> answerable cs) ->
  forall cs, promise (resolve v st) = Fulfilled cs -> answerable cs.
Proof.
  intros Hv Hst cs. unfold resolve. simpl.
  destruct (promise st) eqn:Hp; [|by apply Hst|done].
  intros H. by injection H as <-.
Qed.

Lemma answerable_signal (signal : JsValue) : answerable (castDatumToItems [signal]).
Proof. by split. Qed.

Lemma dispatch_answerable st ev :
  (forall cs, promise st = Fulfilled cs -> answerable cs) ->
  forall cs, promise (dispatch WIZARD_BACK WIZARD_EXIT WIZARD_RETRY st ev) = Fulfilled cs ->
             answerable cs.
Proof.
  intros Hst cs. unfold dispatch. destruct (disposed (picker st)); [apply Hst|].
  rewrite promise_finally. destruct ev as [selection| | |i]; simpl.
  - apply Hst.
  - unfold onDidAccept. rewrite acceptItems_cases.
    destruct (selectedItems (picker st)) as [|item rest] eqn:Hsel; [apply Hst|].
    cbv zeta. destruct (existsb invalidSelection (item :: rest)) eqn:Hvalid; [apply Hst|].
    apply (resolve_answerable _ (perform _ st)); [by split|apply Hst].
  - apply resolve_answerable; [apply answerable_signal|apply Hst].
  - unfold onDidTriggerButton.
    destruct (buttons (picker st) !! i) as [button|]; [|apply Hst].
    destruct (isBack button);
      [apply resolve_answerable; [apply answerable_signal|apply Hst]|].
    destruct (buttonOnClick WIZARD_RETRY button) as [[[button' ran] response]|];
      [|apply Hst].
    destruct (strictEquals response JUndefined); [apply Hst|].
    match goal with |- context [resolve ?v ?s] =>
      apply (resolve_answerable v s); [apply answerable_signal|apply Hst] end.
Qed.

Lemma dispatchAll_answerable evs st :
  (forall cs, promise st = Fulfilled cs -> answerable cs) ->
  forall cs, promise (dispatchAll WIZARD_BACK WIZARD_EXIT WIZARD_RETRY evs st) = Fulfilled cs ->
             answerable cs.
Proof.
  revert st. induction evs as [|ev evs IH]; intros st Hst; [done|].
  simpl. apply IH. by apply dispatch_answerable.
Qed.

End AnswerFacts.

(** X5. Whatever events reach a prompt, the promise of [promptUser] is
    only ever fulfilled with at least one item, none of them marked
    invalid. So the method [QuickPickPrompter.promptUser] always finds
    [choices[0]]: it records it as the last item picked and answers with
    its data, or, when the data is a function, with what the promise of
    its call settles to. *)
Theorem prompt_answer_has_a_first_choice
  (WIZARD_BACK WIZARD_EXIT WIZARD_RETRY : JsValue)
  (q : DataQuickPick) (ran : list Effect) (evs : list Event)
  (choices : list DataQuickPickItem) :
  promise (dispatchAll WIZARD_BACK WIZARD_EXIT WIZARD_RETRY evs (promptUser q ran))
  = Fulfilled choices ->
  answerable choices /\
  exists choice,
    head choices = Some choice /\
    forall call p,
      _lastPicked (snd (QuickPickPrompter_promptUser_result call (Some choices) p))
      = Some choice /\
      ((forall f, data choice <> JFunction f) ->
         fst (QuickPickPrompter_promptUser_result call (Some choices) p)
         = Returns (data choice)) /\
      (forall f, data choice = JFunction f ->
         fst (QuickPickPrompter_promptUser_result call (Some choices) p) = call f).
Proof.
  intros Hdone.
  assert (Hok : answerable choices).
  { apply (dispatchAll_answerable WIZARD_BACK WIZARD_EXIT WIZARD_RETRY evs (promptUser q ran));
      [|done].
    intros cs H. discriminate H. }
  split; [done|].
  destruct choices as [|choice rest]; [by destruct Hok|].
  exists choice. split; [done|]. intros call p.
  unfold QuickPickPrompter_promptUser_result, bind, modify. simpl.
  split; [|split].
  - by destruct (data choice).
  - intros Hdata. destruct (data choice); try done. by destruct (Hdata id).
  - intros f ->. unfold await, nothingMeanwhile. done.
Qed.

Lemma prompt_answer_has_a_first_choice_witness :
  fst (QuickPickPrompter_promptUser_result sampleCall
         (Some (castDatumToItems [sampleExit])) samplePrompter)
  = Returns sampleExit.
Proof.
  destruct (prompt_answer_has_a_first_choice sampleBack sampleExit sampleRetry
              samplePicker [] [DidHide] (castDatumToItems [sampleExit]) eq_refl)
    as (_ & choice & Hhead & Hresult).
  injection Hhead as <-.
  destruct (Hresult sampleCall samplePrompter) as (_ & Hvalue & _).
  apply Hvalue. intros f. discriminate.
Defined.

(** ** Buttons *)

Lemma setButtons_same st :
  withPicker (setButtons (buttons (picker st))) st = st.
Proof. destruct st as [q pr es]. by destruct q. Qed.

Lemma finally_pending st : promise st = Pending -> finally st = st.
Proof. intros H. unfold finally. by rewrite H. Qed.

(** X6. A click on a button that has no [onClick] (refresh, plus) changes
    nothing at all, and a click on a button whose [onClick] returns
    nothing (help) runs the callback and leaves the prompt waiting, with
    the picker shown. With the common buttons of a wizard, the help button
    therefore never ends the prompt, the back button ends it with BACK and
    the exit button with EXIT. *)
Theorem buttons_without_response_keep_waiting
  (WIZARD_BACK WIZARD_EXIT WIZARD_RETRY : JsValue) (st : PromptState) (i : nat) :
  promise st = Pending ->
  disposed (picker st) = false ->
  let click := dispatch WIZARD_BACK WIZARD_EXIT WIZARD_RETRY st (DidTriggerButton i) in
  (buttons (picker st) !! i = None -> click = st) /\
  (buttons (picker st) !! i = Some PlainButton -> click = st) /\
  (forall callback,
     buttons (picker st) !! i = Some (CallbackButton callback JUndefined) ->
     click = perform [ButtonCallback callback] st) /\
  (buttons (picker st) = createCommonButtons WIZARD_EXIT ->
   strictEquals WIZARD_EXIT JUndefined = false ->
   (i = 0%nat -> promise click = Pending /\ disposed (picker click) = false) /\
   (i = 1%nat -> promise click = Fulfilled (castDatumToItems [WIZARD_BACK])) /\
   (i = 2%nat -> promise click = Fulfilled (castDatumToItems [WIZARD_EXIT]))).
Proof.
  intros Hpending Hlive click. subst click. unfold dispatch. rewrite Hlive.
  unfold onDidTriggerButton.
  split; [|split; [|split]].
  - intros ->. by apply finally_pending.
  - intros ->. simpl. by apply finally_pending.
  - intros callback Hi. rewrite Hi. simpl.
    rewrite list_insert_id by done. rewrite setButtons_same.
    by apply finally_pending.
  - intros Hcommon Hexit.
    split; [|split]; intros ->.
    + assert (Hi : buttons (picker st) !! 0%nat = Some (CallbackButton 0 JUndefined))
        by (by rewrite Hcommon).
      rewrite Hi. simpl. rewrite list_insert_id by done. rewrite setButtons_same.
      rewrite finally_pending by done. done.
    + assert (Hi : buttons (picker st) !! 1%nat = Some BackButton) by (by rewrite Hcommon).
      rewrite Hi. simpl. rewrite promise_finally. simpl. by rewrite Hpending.
    + assert (Hi : buttons (picker st) !! 2%nat = Some (CallbackButton 1 WIZARD_EXIT))
        by (by rewrite Hcommon).
      rewrite Hi. simpl. rewrite Hexit, promise_finally. simpl. by rewrite Hpending.
Qed.

Lemma buttons_without_response_keep_waiting_witness :
  promise (dispatch sampleBack sampleExit sampleRetry
             (promptUser (setButtons (createCommonButtons sampleExit) samplePicker) [])
             (DidTriggerButton 0))
  = Pending.
Proof.
  pose proof (buttons_without_response_keep_waiting sampleBack sampleExit sampleRetry
                (promptUser (setButtons (createCommonButtons sampleExit) samplePicker) [])
                0%nat eq_refl eq_refl) as H.
  cbv zeta in H. destruct H as (_ & _ & _ & H).
  destruct (H eq_refl eq_refl) as (Hhelp & _). by destruct (Hhelp eq_refl).
Defined.

(** X7. A click on a toggle button flips the state of that button in the
    list of the picker and leaves the other buttons alone; it runs the
    callback of the state it enters, if there is one, and no other; the
    prompt ends with RETRY. Clicked again in the next prompt, the button
    is back in the state it started from. *)
Theorem toggle_button_flips_and_retries
  (WIZARD_BACK WIZARD_EXIT WIZARD_RETRY : JsValue) (st : PromptState) (i : nat)
  (state : ButtonState) (opts : ToggleButtonOptions) :
  promise st = Pending ->
  disposed (picker st) = false ->
  strictEquals WIZARD_RETRY JUndefined = false ->
  buttons (picker st) !! i = Some (ToggleButton state opts) ->
  let click := dispatch WIZARD_BACK WIZARD_EXIT WIZARD_RETRY st (DidTriggerButton i) in
  buttons (picker click) = <[i := ToggleButton (toggled state) opts]> (buttons (picker st)) /\
  effects click
  = effects st ++
    from_option (fun callback => [ButtonCallback callback]) []
      (match toggled state with
       | on => onCallback opts
       | off => offCallBack opts
       end) ++
    [PickerDisposed] /\
  promise click = Fulfilled (castDatumToItems [WIZARD_RETRY]) /\
  forall again : PromptState,
    promise again = Pending ->
    disposed (picker again) = false ->
    buttons (picker again) = buttons (picker click) ->
    buttons (picker (dispatch WIZARD_BACK WIZARD_EXIT WIZARD_RETRY again (DidTriggerButton i)))
    = buttons (picker st).
Proof.
  intros Hpending Hlive Hretry Hi click.
  assert (Hclick : forall s0 : PromptState, forall s,
            promise s0 = Pending -> disposed (picker s0) = false ->
            buttons (picker s0) !! i = Some (ToggleButton s opts) ->
            let c := dispatch WIZARD_BACK WIZARD_EXIT WIZARD_RETRY s0 (DidTriggerButton i) in
            buttons (picker c) = <[i := ToggleButton (toggled s) opts]> (buttons (picker s0)) /\
            effects c
            = effects s0 ++
              from_option (fun callback => [ButtonCallback callback]) []
                (match toggled s with
                 | on => onCallback opts
                 | off => offCallBack opts
                 end) ++
              [PickerDisposed] /\
            promise c = Fulfilled (castDatumToItems [WIZARD_RETRY])).
  { intros s0 s Hp Hd Hb. cbv zeta. unfold dispatch. rewrite Hd.
    unfold onDidTriggerButton. rewrite Hb. simpl. rewrite Hretry.
    unfold finally, resolve, perform, withPicker. simpl. rewrite Hp, Hd. simpl.
    split; [done|]. split; [|done].
    rewrite <- app_assoc. f_equal. f_equal.
    destruct s, (onCallback opts), (offCallBack opts); reflexivity. }
  destruct (Hclick st state Hpending Hlive Hi) as (Hbuttons & Heffects & Hpromise).
  split; [done|]. split; [done|]. split; [done|].
  intros again Hp Hd Hsame.
  assert (Hi' : buttons (picker again) !! i = Some (ToggleButton (toggled state) opts)).
  { rewrite Hsame. subst click. rewrite Hbuttons. apply list_lookup_insert_eq.
    by apply lookup_lt_Some in Hi. }
  destruct (Hclick again (toggled state) Hp Hd Hi') as (Hagain & _).
  cbv zeta in Hagain. rewrite Hagain, Hsame. subst click. rewrite Hbuttons.
  rewrite list_insert_insert_eq.
  replace (toggled (toggled state)) with state by (by destruct state).
  by apply list_insert_id.
Qed.

Lemma toggle_button_flips_and_retries_witness :
  promise (dispatch sampleBack sampleExit sampleRetry (promptUser samplePicker [])
             (DidTriggerButton 1))
  = Fulfilled (castDatumToItems [sampleRetry]) /\
  effects (dispatch sampleBack sampleExit sampleRetry (promptUser samplePicker [])
             (DidTriggerButton 1))
  = [PickerShown; DidShowFired; ButtonCallback 1; PickerDisposed].
Proof.
  pose proof (toggle_button_flips_and_retries sampleBack sampleExit sampleRetry
                (promptUser samplePicker []) 1%nat off
                {| onCallback := Some 1%nat; offCallBack := None |}
                eq_refl eq_refl eq_refl eq_refl) as H.
  cbv zeta in H. destruct H as (_ & Heffects & Hpromise & _).
  split; [exact Hpromise|exact Heffects].
Defined.

(** ** Restoring an earlier answer *)

Lemma itemToJs_isItem item : isDataQuickPickItem (itemToJs item) = Returns true.
Proof.
  unfold itemToJs, isDataQuickPickItem, hasProp.
  destruct (description item), (detail item); reflexivity.
Qed.

Lemma itemToJs_label item : labelOf (itemToJs item) = Some (label item).
Proof. reflexivity. Qed.

(** X8. The item a prompt was answered with is what the getter
    [lastResponse] holds afterwards. Given to the setter [lastResponse] of
    a prompter, it is looked up by its label alone: the items of that
    prompter bearing the label are highlighted, whatever their data, and
    the first entry of the list when no item bears it. The setter does
    not throw, and the list keeps its labels. *)
Theorem last_pick_is_highlighted_again
  (selectedPreviously : string) (call : nat -> Completion JsValue)
  (chosen : list DataQuickPickItem) (choice : DataQuickPickItem)
  (answering p : QuickPickPrompter) :
  chosen !! 0%nat = Some choice ->
  let answered := QuickPickPrompter_promptUser_result call (Some chosen) answering in
  let lastResponse := _lastPicked (snd answered) in
  let restored := QuickPickPrompter_setLastResponseItem selectedPreviously lastResponse p in
  let shown := items (quickPick (snd restored)) in
  lastResponse = Some choice /\
  fst restored = Returns tt /\
  label <$> shown = label <$> items (quickPick p) /\
  (label choice ∈ label <$> items (quickPick p) ->
     activeItems (quickPick (snd restored))
     = Some <$> filter (fun item => label item = label choice) shown) /\
  (label choice ∉ label <$> items (quickPick p) ->
     activeItems (quickPick (snd restored)) = [shown !! 0%nat]).
Proof.
  intros Hfirst answered lastResponse restored shown.
  assert (Hlast : lastResponse = Some choice).
  { subst lastResponse answered.
    unfold QuickPickPrompter_promptUser_result, bind, modify. simpl.
    rewrite Hfirst. by destruct (data choice). }
  split; [done|].
  subst shown restored. rewrite Hlast.
  unfold QuickPickPrompter_setLastResponseItem. cbn [from_option].
  apply (setLastResponse_label selectedPreviously (itemToJs choice) p (label choice)).
  - done.
  - exists true. apply itemToJs_isItem.
  - unfold lastResponseLabel. by rewrite itemToJs_isItem.
Qed.

Lemma last_pick_is_highlighted_again_witness :
  activeItems (quickPick (snd (QuickPickPrompter_setLastResponseItem "Selected previously"
    (_lastPicked (snd (QuickPickPrompter_promptUser_result sampleCall (Some [itemB]) samplePrompter)))
    samplePrompter)))
  = [Some (markSelectedPreviously "Selected previously" itemB)].
Proof.
  pose proof (last_pick_is_highlighted_again "Selected previously" sampleCall [itemB] itemB
                samplePrompter samplePrompter eq_refl) as H.
  cbv zeta in H. destruct H as (_ & _ & _ & Hfound & _).
  rewrite Hfound.
  - vm_compute. reflexivity.
  - vm_compute. apply list_elem_of_further, list_elem_of_here.
Defined.

(** Data is the same as itself, unless it is [NaN] or a function. *)
Lemma SameData_refl item :
  data item <> JNaN -> typeof (data item) <> "function" -> SameData (data item) item.
Proof.
  intros Hnan Hfun.
  destruct (decide (typeof (data item) = "object")) as [Hobj|Hobj].
  - by apply same_json.
  - apply same_primitive; [done|done|].
    destruct (data item); simpl in *; try done; by apply bool_decide_eq_true.
Qed.

Lemma markedItems_data sp o wanted its :
  data <$> markedItems sp o wanted its = data <$> its.
Proof.
  unfold markedItems. destruct (showSelectedPreviously o); [|done].
  induction its as [|item rest IH]; [done|].
  cbn. rewrite IH. by destruct (bool_decide _).
Qed.

(** X9. The answer of an item, given back as the last response, finds the
    item again: when the data of an item of the list is neither
    [undefined], [null], [NaN], a function nor itself shaped like an item,
    and no earlier item of the list has the same data, then
    [setLastResponse] with that data highlights the items bearing the
    label of that item, among them an item with that very data. When the
    data is [null], [setLastResponse] throws a TypeError and leaves the
    prompter as it was. *)
Theorem answer_finds_its_item_again
  (selectedPreviously : string) (p : QuickPickPrompter)
  (before : list DataQuickPickItem) (item : DataQuickPickItem)
  (rest : list DataQuickPickItem) :
  items (quickPick p) = before ++ item :: rest ->
  (forall other, other ∈ before -> ~ SameData (data item) other) ->
  let after := setLastResponse selectedPreviously (data item) p in
  let shown := items (quickPick (snd after)) in
  let highlighted := activeItems (quickPick (snd after)) in
  (data item <> JUndefined -> data item <> JNaN ->
   typeof (data item) <> "function" ->
   isDataQuickPickItem (data item) = Returns false ->
   fst after = Returns tt /\
   highlighted = Some <$> filter (fun other => label other = label item) shown /\
   exists found, Some found ∈ highlighted /\
                 label found = label item /\ data found = data item) /\
  (data item = JNull ->
   (exists msg, fst after = Throws (TypeError msg)) /\ snd after = p).
Proof.
  intros Hsplit Hfirst after shown highlighted. split.
  - intros Hundef Hnan Hfun HisItem.
    assert (Hdef : strictEquals (data item) JUndefined = false)
      by (by destruct (data item)).
    assert (Hwanted : lastResponseLabel (data item) (items (quickPick p)) = Some (label item)).
    { unfold lastResponseLabel. rewrite HisItem, Hsplit.
      rewrite recoverItemFromData_first; [done| |done]. by apply SameData_refl. }
    assert (Hin : label item ∈ label <$> items (quickPick p)).
    { rewrite Hsplit. apply list_elem_of_fmap_2, elem_of_app. right. apply list_elem_of_here. }
    destruct (setLastResponse_label selectedPreviously (data item) p (label item) Hdef
                (ex_intro _ false HisItem) Hwanted) as (Hret & _ & Hyes & _).
    subst highlighted shown after.
    split; [done|]. rewrite (Hyes Hin). split; [done|].
    set (shown := items (quickPick (snd (setLastResponse selectedPreviously (data item) p)))).
    assert (Hshown : shown = markedItems selectedPreviously (options p) (Some (label item))
                               (items (quickPick p))).
    { subst shown. rewrite setLastResponse_eq, Hdef, HisItem. cbv zeta.
      rewrite Hwanted. done. }
    assert (Hat : exists found, shown !! length before = Some found /\
                                label found = label item /\ data found = data item).
    { pose proof (markedItems_labels selectedPreviously (options p) (Some (label item))
                    (items (quickPick p))) as Hlabels.
      pose proof (markedItems_data selectedPreviously (options p) (Some (label item))
                    (items (quickPick p))) as Hdata.
      rewrite <- Hshown in Hlabels, Hdata.
      assert (Hitem : items (quickPick p) !! length before = Some item).
      { rewrite Hsplit. by apply list_lookup_middle. }
      assert (Hl : (label <$> shown) !! length before = Some (label item))
        by (by rewrite Hlabels, list_lookup_fmap, Hitem).
      assert (Hd : (data <$> shown) !! length before = Some (data item))
        by (by rewrite Hdata, list_lookup_fmap, Hitem).
      rewrite list_lookup_fmap in Hl. rewrite list_lookup_fmap in Hd.
      destruct (shown !! length before) as [found|]; [|done].
      exists found. simpl in Hl, Hd. split; [done|]. split; congruence. }
    destruct Hat as (found & Hat & Hlabel & Hdata).
    exists found. split; [|done].
    apply list_elem_of_fmap_2, list_elem_of_filter. split; [done|].
    by apply list_elem_of_lookup_2 in Hat.
  - intros Hnull. subst after. unfold setLastResponse. rewrite Hnull. simpl.
    unfold bind, this, throw. simpl. split; [eauto|done].
Qed.

Lemma answer_finds_its_item_again_witness :
  activeItems (quickPick (snd (setLastResponse "Selected previously" (JNumber 2) samplePrompter)))
  = [Some (markSelectedPreviously "Selected previously" itemB)].
Proof.
  assert (Hfirst : forall other, other ∈ [itemA] -> ~ SameData (data itemB) other).
  { intros other Hin. apply list_elem_of_singleton in Hin. subst other.
    intros [Hobj _|_ _ Heq]; simpl in *; discriminate. }
  pose proof (answer_finds_its_item_again "Selected previously" samplePrompter
                [itemA] itemB [] eq_refl Hfirst) as H.
  cbv zeta in H. destruct H as (H & _).
  destruct H as (_ & Hfound & _); [discriminate|discriminate|discriminate|reflexivity|].
  exact Hfound.
Defined.

(** A property without JSON text leaves no trace in the JSON text of an
    object. *)
Lemma stringify_drops_property pre key v post :
  stringify v = None ->
  stringify (JObject (pre ++ (key, v) :: post)) = stringify (JObject (pre ++ post)).
Proof.
  intros Hnone. cbn [stringify]. rewrite !omap_app.
  change (omap ?f ((key, v) :: post))
    with (match f (key, v) with Some y => y :: omap f post | None => omap f post end).
  cbn [fst snd]. rewrite Hnone. done.
Qed.

(** X10. Recovery compares objects by their JSON text, so a property that
    has no JSON text (a function, a symbol, [undefined]) does not count:
    a response with such a property recovers the same item as the
    response without it, over any list; and an item whose data has such a
    property is recovered by the response without it. *)
Theorem recovery_ignores_properties_without_json
  (pre post : list (string * JsValue)) (key : string) (v : JsValue)
  (l : list DataQuickPickItem) :
  stringify v = None ->
  recoverItemFromData (JObject (pre ++ (key, v) :: post)) l
  = recoverItemFromData (JObject (pre ++ post)) l /\
  forall item before rest,
    data item = JObject (pre ++ (key, v) :: post) ->
    l = before ++ item :: rest ->
    (forall other, other ∈ before -> ~ SameData (JObject (pre ++ post)) other) ->
    recoverItemFromData (JObject (pre ++ post)) l = Some item.
Proof.
  intros Hnone. split.
  - unfold recoverItemFromData. rewrite (stringify_drops_property pre key v post Hnone).
    induction l as [|item rest IH]; [done|].
    cbn [find]. rewrite IH.
    replace (dataMatches (stringify (JObject (pre ++ post)))
               (JObject (pre ++ (key, v) :: post)) item)
      with (dataMatches (stringify (JObject (pre ++ post))) (JObject (pre ++ post)) item);
      [done|].
    unfold dataMatches. by repeat case_bool_decide.
  - intros item before rest Hdata -> Hfirst.
    apply recoverItemFromData_first; [|done].
    apply same_json; rewrite Hdata; [done|].
    symmetry. by apply stringify_drops_property.
Qed.

Lemma recovery_ignores_properties_without_json_witness :
  recoverItemFromData
    (JObject [("region", JString "us-west-2"); ("refresh", JFunction 4)])
    [labelled "east" (JObject [("region", JString "us-east-1")]);
     labelled "west" (JObject [("region", JString "us-west-2")])]
  = Some (labelled "west" (JObject [("region", JString "us-west-2")])).
Proof.
  destruct (recovery_ignores_properties_without_json
              [("region", JString "us-west-2")] [] "refresh" (JFunction 4)
              [labelled "east" (JObject [("region", JString "us-east-1")]);
               labelled "west" (JObject [("region", JString "us-west-2")])]
              eq_refl) as [Hsame _].
  simpl app in Hsame. rewrite Hsame. vm_compute. reflexivity.
Defined.

(** ** More of the filter-box input *)

Lemma didChangeValue_listener v fp :
  onChangeValue (didChangeValue v fp) = onChangeValue fp /\
  settings (didChangeValue v fp) = settings fp.
Proof. done. Qed.

Lemma didChangeValue_shows s others v fp :
  onChangeValue fp = Some others -> settings fp = s ->
  items (quickPick (super (didChangeValue v fp)))
  = (if bool_decide (v <> EmptyString) then [customUserInputItem s v] else []) ++ others /\
  value (quickPick (super (didChangeValue v fp))) = v.
Proof.
  intros Hothers <-. unfold didChangeValue. rewrite Hothers.
  destruct fp as [p s l]. destruct p as [q o ph est lp h su]. simpl.
  rewrite items_update. unfold update. by case_bool_decide.
Qed.

(** X11. Once the filter-box input has been added, what the list shows
    depends on the text typed last and on nothing else: the custom-input
    item for that text comes first, if the text is not empty, followed by
    the items that were in the list when the input was added, none of
    which is a custom-input item. Earlier texts leave no item behind, and
    whatever was done to the picker in between (items appended, say) is
    undone by the next keystroke. *)
Theorem typing_shows_last_text_over_captured_items
  (fp : FilterBoxQuickPickPrompter) (between : QuickPickPrompter -> QuickPickPrompter)
  (texts : list string) (v : string) :
  let others :=
    List.filter (fun item => negb (strictEquals (data item) CUSTOM_USER_INPUT))
      (items (quickPick (super fp))) in
  let added := addFilterBoxInput fp in
  let changed :=
    {| super := between (super added); settings := settings added;
       onChangeValue := onChangeValue added |} in
  let typed := didChangeValue v (foldl (fun f text => didChangeValue text f) changed texts) in
  items (quickPick (super typed))
  = (if bool_decide (v <> EmptyString) then [customUserInputItem (settings fp) v] else [])
    ++ others /\
  value (quickPick (super typed)) = v /\
  Forall (fun item => data item <> CUSTOM_USER_INPUT) others.
Proof.
  intros others added changed typed.
  assert (Hkept : forall start,
            onChangeValue start = Some others -> settings start = settings fp ->
            onChangeValue (foldl (fun f text => didChangeValue text f) start texts) = Some others /\
            settings (foldl (fun f text => didChangeValue text f) start texts) = settings fp).
  { induction texts as [|text texts IH]; intros start Hl Hs; [done|].
    simpl. apply IH; by rewrite ?(proj1 (didChangeValue_listener _ _)). }
  destruct (Hkept changed eq_refl eq_refl) as [Hl Hs].
  destruct (didChangeValue_shows (settings fp) others v _ Hl Hs) as [Hitems Hvalue].
  split; [exact Hitems|]. split; [exact Hvalue|].
  apply Forall_forall. intros item Hin.
  by apply (others_are_not_custom (items (quickPick (super fp))) item).
Qed.

(** X12. The custom-input item given to the setter [lastResponse] of the
    filter-box prompter puts its description back into the filter box,
    throws nothing and leaves the list and the highlight alone; when the
    input is then added, the custom-input item for that text comes first
    again, so that the item picked for a text that was not empty is shown
    again as it was. *)
Theorem filter_box_restores_typed_text
  (selectedPreviously : string) (fp : FilterBoxQuickPickPrompter)
  (picked : DataQuickPickItem) :
  data picked = CUSTOM_USER_INPUT ->
  let restored := FilterBox_setLastResponse selectedPreviously (Some picked) fp in
  let text := default EmptyString (description picked) in
  fst restored = Returns tt /\
  value (quickPick (super (snd restored))) = text /\
  items (quickPick (super (snd restored))) = items (quickPick (super fp)) /\
  activeItems (quickPick (super (snd restored))) = activeItems (quickPick (super fp)) /\
  items (quickPick (super (addFilterBoxInput (snd restored))))
  = (if bool_decide (text <> EmptyString)
     then [customUserInputItem (settings fp) text] else [])
    ++ List.filter (fun item => negb (strictEquals (data item) CUSTOM_USER_INPUT))
         (items (quickPick (super fp))) /\
  (forall v, v <> EmptyString -> picked = customUserInputItem (settings fp) v ->
     head (items (quickPick (super (addFilterBoxInput (snd restored))))) = Some picked).
Proof.
  intros Hdata restored text.
  assert (Hrestored : restored
            = (Returns tt,
               {| super := withQuickPick (setValue text) (super fp);
                  settings := settings fp; onChangeValue := onChangeValue fp |})).
  { subst restored. unfold FilterBox_setLastResponse. by rewrite Hdata. }
  rewrite Hrestored. clear Hrestored restored.
  destruct fp as [p s l]. destruct p as [q o ph est lp h su]. simpl.
  split; [done|]. split; [done|]. split; [done|]. split; [done|].
  assert (Hitems : forall others,
            items (update s others text (setValue text q))
            = (if bool_decide (text <> EmptyString) then [customUserInputItem s text] else [])
              ++ others).
  { intros others. rewrite items_update. by case_bool_decide. }
  split; [apply Hitems|].
  intros v Hv ->. rewrite Hitems. subst text. simpl.
  by rewrite bool_decide_eq_true_2.
Qed.

Lemma filter_box_restores_typed_text_witness :
  items (quickPick (super (addFilterBoxInput
    (snd (FilterBox_setLastResponse "Selected previously"
            (Some (customUserInputItem sampleSettings "us-east-9"))
            (newFilterBoxQuickPickPrompter samplePicker sampleSettings))))))
  = [customUserInputItem sampleSettings "us-east-9"; itemA; itemB].
Proof.
  pose proof (filter_box_restores_typed_text "Selected previously"
                (newFilterBoxQuickPickPrompter samplePicker sampleSettings)
                (customUserInputItem sampleSettings "us-east-9") eq_refl) as H.
  cbv zeta in H. destruct H as (_ & _ & _ & _ & Hitems & _).
  rewrite Hitems. vm_compute. reflexivity.
Defined.

(** ** The HTTP resource fetcher *)

Section FetcherFacts.

Import HttpResourceFetcher.

Variable cancellationMessage : string -> string.

Local Abbreviation get := (HttpResourceFetcher.get cancellationMessage).

Lemma undisturbed_dec f :
  undisturbed f \/ exists agent, timeout (params f) = Some (Some agent).
Proof.
  unfold undisturbed. destruct (timeout (params f)) as [[agent|]|]; eauto; by left.
Qed.

Lemma messageOrCode_of_code code :
  messageOrCode (Thrown (JObject [("code", code)])) = Returns code.
Proof. reflexivity. Qed.

Lemma messageOrCode_throws err thrown :
  messageOrCode err = Throws thrown -> err = Thrown JUndefined \/ err = Thrown JNull.
Proof.
  destruct err as [msg|reason]; simpl; [done|].
  destruct reason; simpl; try done; eauto.
  destruct (default JUndefined (getProp "message" props)); done.
Qed.

(** The three ways a download can go. *)
Lemma get_cancelled f course agent :
  timeout (params f) = Some (Some agent) ->
  get f course
  = ([Logged Verbose ("Downloading " +:+ logText f) None;
      logCancellation f agent;
      Logged Verbose ("Error downloading " +:+ logText f +:+ ": %s")
        (Some (JString (cancellationMessage agent)))],
     Returns JUndefined).
Proof.
  intros Htimeout.
  unfold HttpResourceFetcher.get, downloadRequest, tryDownload, getResponseFromGetRequest.
  by rewrite Htimeout.
Qed.

Lemma get_fails f code message :
  undisturbed f ->
  get f (RequestFails code message)
  = ([Logged Verbose ("Downloading " +:+ logText f) None;
      Logged Verbose ("Error downloading " +:+ logText f +:+ ": %s") (Some code)],
     Returns JUndefined).
Proof.
  intros Hquiet.
  unfold HttpResourceFetcher.get, downloadRequest, tryDownload, getResponseFromGetRequest.
  destruct (timeout (params f)) as [[agent|]|] eqn:Htimeout; [by destruct (Hquiet agent)|done..].
Qed.

Lemma get_responds f body :
  undisturbed f ->
  get f (Responds body)
  = let called := from_option (fun _ => [SuccessCallback body]) [] (onSuccess (params f)) in
    match succeeds f body with
    | Returns _ =>
        (Logged Verbose ("Downloading " +:+ logText f) None :: called ++
         [Logged Verbose ("Finished downloading " +:+ logText f) None],
         Returns (JString body))
    | Throws err =>
        match messageOrCode err with
        | Returns detail =>
            (Logged Verbose ("Downloading " +:+ logText f) None :: called ++
             [Logged Verbose ("Error downloading " +:+ logText f +:+ ": %s") (Some detail)],
             Returns JUndefined)
        | Throws thrown =>
            (Logged Verbose ("Downloading " +:+ logText f) None :: called, Throws thrown)
        end
    end.
Proof.
  intros Hquiet.
  unfold HttpResourceFetcher.get, downloadRequest, tryDownload, getResponseFromGetRequest,
    succeeds.
  destruct (timeout (params f)) as [[agent|]|] eqn:Htimeout; [by destruct (Hquiet agent)|..];
    (destruct (onSuccess (params f)) as [callback|]; simpl; [|done];
     destruct (callback body) as [[]|err]; simpl; [done|];
     by destruct (messageOrCode err)).
Qed.

Lemma messageOrCode_TypeError err thrown :
  messageOrCode err = Throws thrown -> exists msg, thrown = TypeError msg.
Proof.
  destruct err as [msg|reason]; simpl; [done|].
  destruct reason; simpl; try done; try (intros H; injection H as <-; eauto).
  destruct (default JUndefined (getProp "message" props)); done.
Qed.

Lemma called_with f body contents :
  SuccessCallback contents
    ∈ from_option (fun _ => [SuccessCallback body]) [] (onSuccess (params f)) ->
  contents = body.
Proof.
  destruct (onSuccess (params f)); simpl; intros Hin.
  - apply list_elem_of_singleton in Hin. by injection Hin.
  - by apply elem_of_nil in Hin.
Qed.

(** X13. [get()] without a pipe location resolves with the body of the
    response exactly when no cancellation was requested, the request was
    answered and [onSuccess], if there is one, returned; [onSuccess] is
    called with that body and with nothing else. In every other case the
    promise resolves with [undefined], with one exception: it rejects,
    with a TypeError, when [onSuccess] throws [undefined] or [null],
    because the handler reads [message] off what it caught. *)
Theorem get_resolves_with_contents_or_undefined
  (f : HttpResourceFetcher.t) (course : RequestCourse) :
  let result := snd (get f course) in
  (forall contents,
     result = Returns (JString contents) <->
     undisturbed f /\ course = Responds contents /\ succeeds f contents = Returns tt) /\
  (forall thrown,
     result = Throws thrown ->
     (exists msg, thrown = TypeError msg) /\ undisturbed f /\
     exists contents, course = Responds contents /\
       (succeeds f contents = Throws (Thrown JUndefined) \/
        succeeds f contents = Throws (Thrown JNull))) /\
  (result = Returns JUndefined \/
   (exists contents, result = Returns (JString contents)) \/
   (exists thrown, result = Throws thrown)) /\
  (forall contents,
     SuccessCallback contents ∈ fst (get f course) ->
     undisturbed f /\ course = Responds contents).
Proof.
  intros result. subst result.
  destruct (undisturbed_dec f) as [Hquiet|[agent Hagent]].
  - destruct course as [body|code message].
    + rewrite (get_responds f body Hquiet). cbv zeta.
      destruct (succeeds f body) as [[]|err] eqn:Hcall;
        [|destruct (messageOrCode err) as [detail|thrown] eqn:Herr]; simpl.
      * split; [|split; [done|split; [right; left; eauto|]]].
        -- intros contents. split.
           ++ intros H. injection H as <-. done.
           ++ intros (_ & H & _). by injection H as <-.
        -- intros contents Hin. split; [done|].
           apply elem_of_cons in Hin as [Hin|Hin]; [done|].
           apply elem_of_app in Hin as [Hin|Hin].
           ++ by rewrite (called_with f body contents Hin).
           ++ by apply list_elem_of_singleton in Hin.
      * split; [|split; [done|split; [by left|]]].
        -- intros contents. split; [done|]. intros (_ & H & Hok).
           injection H as <-. by rewrite Hcall in Hok.
        -- intros contents Hin. split; [done|].
           apply elem_of_cons in Hin as [Hin|Hin]; [done|].
           apply elem_of_app in Hin as [Hin|Hin].
           ++ by rewrite (called_with f body contents Hin).
           ++ by apply list_elem_of_singleton in Hin.
      * split; [|split; [|split; [right; right; eauto|]]].
        -- intros contents. split; [done|]. intros (_ & H & Hok).
           injection H as <-. by rewrite Hcall in Hok.
        -- intros e He. injection He as <-.
           split; [by apply (messageOrCode_TypeError err)|]. split; [done|].
           exists body. split; [done|].
           destruct (messageOrCode_throws _ _ Herr) as [-> | ->]; eauto.
        -- intros contents Hin. split; [done|].
           apply elem_of_cons in Hin as [Hin|Hin]; [done|].
           by rewrite (called_with f body contents Hin).
    + rewrite (get_fails f code message Hquiet). simpl.
      split; [|split; [done|split; [by left|]]].
      * intros contents. split; [done|]. by intros (_ & H & _).
      * intros contents Hin. exfalso.
        repeat (apply elem_of_cons in Hin as [Hin|Hin]; [discriminate Hin|]).
        by apply elem_of_nil in Hin.
  - rewrite (get_cancelled f course agent Hagent). simpl.
    split; [|split; [done|split; [by left|]]].
    + intros contents. split; [done|]. intros [H _]. by destruct (H agent).
    + intros contents Hin. exfalso.
      repeat (apply elem_of_cons in Hin as [Hin|Hin]; [discriminate Hin|]).
      by apply elem_of_nil in Hin.
Qed.


End FetcherFacts.


(** ** The region commands *)

Section RegionFacts.

Import AwsContextCommands.

Variable partitionRegions : list Region.
Variable explorerRegions : list string.
Variable user : list QuickPickItem -> option (list QuickPickItem).

Local Abbreviation regionItem :=
  (fun r : Region => {| label := name r; detail := Some (id r) |}).

Lemma existsb_id (given : list string) (code : string) :
  existsb (fun x => bool_decide (x = code)) given = bool_decide (code ∈ given).
Proof.
  induction given as [|x given IH].
  - symmetry. apply bool_decide_eq_false_2. apply not_elem_of_nil.
  - cbn [existsb]. rewrite IH. destruct (decide (x = code)) as [->|Hne].
    + rewrite bool_decide_eq_true_2 by done. simpl.
      symmetry. apply bool_decide_eq_true_2. apply list_elem_of_here.
    + rewrite (bool_decide_eq_false_2 (x = code)) by done. simpl.
      apply bool_decide_ext. rewrite elem_of_cons. split; [by right|].
      intros [Heq|Hin]; [by destruct Hne|done].
Qed.

(** The items the picker shows for given region codes: the regions of the
    partition with one of these codes, in the order of the partition. *)
Lemma regionsToShow_given (given : list string) :
  regionsToShow partitionRegions (Some given)
  = map regionItem (List.filter (fun r => bool_decide (id r ∈ given)) partitionRegions).
Proof.
  unfold regionsToShow. f_equal. apply filter_ext. intros r. apply existsb_id.
Qed.

(** A filter that looks at the code of a region only shows the regions it
    accepts. *)
Lemma regionsToShow_filtered (filter : Region -> bool) :
  (forall r r', id r = id r' -> filter r = filter r') ->
  regionsToShow partitionRegions (Some (map id (List.filter filter partitionRegions)))
  = map regionItem (List.filter filter partitionRegions).
Proof.
  intros Hid. rewrite regionsToShow_given. f_equal.
  apply filter_ext_in. intros r Hr.
  destruct (filter r) eqn:Hf.
  - apply bool_decide_eq_true_2. apply list_elem_of_In, in_map, filter_In. done.
  - apply bool_decide_eq_false_2. intros Hin.
    apply list_elem_of_In, in_map_iff in Hin as (r' & Hsame & Hr').
    apply filter_In in Hr' as [_ Hf']. rewrite (Hid r' r Hsame) in Hf'. congruence.
Qed.

(** What a picker that answers with items it shows makes [promptForRegion]
    return: the code of a region among those shown. *)
Lemma promptForRegion_shown (regions : option (list string)) (code : string) :
  picksAmongShown user ->
  promptForRegion partitionRegions user regions = Some code ->
  exists r, regionItem r ∈ regionsToShow partitionRegions regions /\
            r ∈ partitionRegions /\ id r = code.
Proof.
  intros Hhonest. unfold promptForRegion.
  destruct (user (regionsToShow partitionRegions regions)) as [[|picked [|]]|] eqn:Huser;
    try done.
  intros Hdetail.
  assert (Hshown : picked ∈ regionsToShow partitionRegions regions).
  { apply (Hhonest _ _ picked Huser). apply list_elem_of_here. }
  pose proof Hshown as Hin.
  unfold regionsToShow in Hin.
  apply list_elem_of_In, in_map_iff in Hin as (r & <- & Hr).
  apply filter_In in Hr as [Hr _]. simpl in Hdetail. injection Hdetail as <-.
  exists r. split; [done|]. split; [by apply list_elem_of_In|done].
Qed.

(** X15. The command that shows a region offers the regions of the
    partition whose code is not among the regions of the explorer, in the
    order of the partition. With a picker that answers with items it
    shows, the command either does nothing, or adds one region and then
    refreshes the trees; the region added is a region of the partition, it
    was not in the explorer, and its code is not empty. *)
Theorem show_region_adds_a_hidden_region_of_the_partition :
  picksAmongShown user ->
  let hidden := fun r : Region => negb (bool_decide (id r ∈ explorerRegions)) in
  regionsToShow partitionRegions (Some (map id (List.filter hidden partitionRegions)))
  = map regionItem (List.filter hidden partitionRegions) /\
  (onCommandShowRegion partitionRegions explorerRegions user = [] \/
   exists r,
     r ∈ partitionRegions /\ (id r ∉ explorerRegions) /\ id r <> EmptyString /\
     onCommandShowRegion partitionRegions explorerRegions user
     = [AddExplorerRegion (id r); RefreshTrees]).
Proof.
  intros Hhonest hidden.
  assert (Hshown : regionsToShow partitionRegions
                     (Some (map id (List.filter hidden partitionRegions)))
                   = map regionItem (List.filter hidden partitionRegions)).
  { apply regionsToShow_filtered. intros r r' Hsame. subst hidden. simpl. by rewrite Hsame. }
  split; [exact Hshown|].
  unfold onCommandShowRegion, promptForFilteredRegion. fold hidden.
  destruct (promptForRegion partitionRegions user
              (Some (map id (List.filter hidden partitionRegions)))) as [code|] eqn:Hcode;
    [|by left].
  simpl. case_bool_decide as Hempty; [|by left]. right.
  destruct (promptForRegion_shown _ code Hhonest Hcode) as (r & Hitem & Hr & <-).
  exists r. split; [done|]. split; [|done].
  rewrite Hshown in Hitem.
  apply list_elem_of_In, in_map_iff in Hitem as (r' & Hsame & Hr').
  apply filter_In in Hr' as [_ Hhidden]. subst hidden. simpl in Hhidden.
  injection Hsame as _ Hid. rewrite Hid in Hhidden.
  apply negb_true_iff, bool_decide_eq_false in Hhidden. done.
Qed.

(** X16. The command that hides a region, given a region code that is
    not empty, removes that region and refreshes the trees without asking,
    whatever the code is. Without a code, or with the empty one, it offers
    the regions of the partition whose code is among the regions of the
    explorer; with a picker that answers with items it shows, it then
    does nothing, or removes one region and refreshes the trees, and the
    region removed is a region of the partition that was in the
    explorer. *)
Theorem hide_region_removes_the_given_or_a_shown_region :
  picksAmongShown user ->
  (forall code, code <> EmptyString ->
     onCommandHideRegion partitionRegions explorerRegions user (Some code)
     = [RemoveExplorerRegion code; RefreshTrees]) /\
  regionsToShow partitionRegions (Some explorerRegions)
  = map regionItem
      (List.filter (fun r => bool_decide (id r ∈ explorerRegions)) partitionRegions) /\
  (forall regionCode, truthyString regionCode = false ->
     onCommandHideRegion partitionRegions explorerRegions user regionCode = [] \/
     exists r,
       r ∈ partitionRegions /\ id r ∈ explorerRegions /\ id r <> EmptyString /\
       onCommandHideRegion partitionRegions explorerRegions user regionCode
       = [RemoveExplorerRegion (id r); RefreshTrees]).
Proof.
  intros Hhonest. split; [|split].
  - intros code Hcode.
    assert (Htruthy : truthyString (Some code) = true) by (by apply bool_decide_eq_true_2).
    unfold onCommandHideRegion. rewrite Htruthy. cbv zeta. by rewrite Htruthy.
  - apply regionsToShow_given.
  - intros regionCode Hfalsy. unfold onCommandHideRegion. rewrite Hfalsy.
    destruct (promptForRegion partitionRegions user (Some explorerRegions))
      as [code|] eqn:Hcode; [|by left].
    simpl. case_bool_decide as Hempty; [|by left]. right.
    destruct (promptForRegion_shown _ code Hhonest Hcode) as (r & Hitem & Hr & <-).
    exists r. split; [done|]. split; [|done].
    rewrite regionsToShow_given in Hitem.
    apply list_elem_of_In, in_map_iff in Hitem as (r' & Hsame & Hr').
    apply filter_In in Hr' as [_ Hshown].
    injection Hsame as _ Hid. rewrite Hid in Hshown.
    by apply bool_decide_eq_true in Hshown.
Qed.

End RegionFacts.

Lemma takesFirst_picksAmongShown :
  AwsContextCommands.picksAmongShown AwsContextCommands.takesFirst.
Proof.
  intros shown picked item Hpicked Hin. injection Hpicked as <-.
  destruct shown as [|first rest]; simpl in Hin; [done|].
  apply list_elem_of_singleton in Hin as ->. apply list_elem_of_here.
Defined.

Lemma show_region_adds_a_hidden_region_of_the_partition_witness :
  AwsContextCommands.onCommandShowRegion AwsContextCommands.sampleRegions ["us-east-1"]
    AwsContextCommands.takesFirst
  = [AwsContextCommands.AddExplorerRegion "us-west-2"; AwsContextCommands.RefreshTrees].
Proof.
  pose proof (show_region_adds_a_hidden_region_of_the_partition
                AwsContextCommands.sampleRegions ["us-east-1"] AwsContextCommands.takesFirst
                takesFirst_picksAmongShown) as H.
  cbv zeta in H. destruct H as [_ [Hnothing|(r & _ & _ & _ & Hadded)]].
  - vm_compute in Hnothing. discriminate Hnothing.
  - vm_compute. reflexivity.
Defined.

Lemma hide_region_removes_the_given_or_a_shown_region_witness :
  AwsContextCommands.onCommandHideRegion AwsContextCommands.sampleRegions
    ["eu-west-1"; "ap-south-1"] AwsContextCommands.takesFirst (Some "ap-south-1")
  = [AwsContextCommands.RemoveExplorerRegion "ap-south-1"; AwsContextCommands.RefreshTrees].
Proof.
  destruct (hide_region_removes_the_given_or_a_shown_region
              AwsContextCommands.sampleRegions ["eu-west-1"; "ap-south-1"]
              AwsContextCommands.takesFirst takesFirst_picksAmongShown) as (Hgiven & _).
  apply Hgiven. discriminate.
Defined.

(** ** The exclude pattern *)

Lemma dropPrefix_Some text s rest :
  RegExp.dropPrefix text s = Some rest <-> s = text ++ rest.
Proof.
  revert s. induction text as [|c text IH]; intros s; simpl.
  - split; [by intros [= ->]|by intros ->].
  - destruct s as [|d s]; [done|].
    destruct (Ascii.eqb c d) eqn:Hcd.
    + apply Ascii.eqb_eq in Hcd as ->. rewrite IH. split; [by intros ->|by intros [= ->]].
    + apply Ascii.eqb_neq in Hcd. split; [done|]. intros [= -> _]. done.
Qed.

Lemma oneOf_separator c :
  existsb (Ascii.eqb c) pathSeparators = true <-> c ∈ pathSeparators.
Proof.
  rewrite existsb_exists. split.
  - intros (d & Hd & Heq). apply Ascii.eqb_eq in Heq as ->. by apply list_elem_of_In.
  - intros Hc. exists c. split; [by apply list_elem_of_In|apply Ascii.eqb_refl].
Qed.

(** A continuation that accepts is reached without a round. *)
Lemma repeatMatch_none body k fuel s :
  k s = true -> RegExp.repeatMatch body k fuel s = true.
Proof. intros Hk. destruct fuel; simpl; [done|]. rewrite Hk. apply orb_true_r. Qed.

(** What the rounds of [.*] consume is a prefix. *)
Lemma repeatMatch_any k fuel s :
  RegExp.repeatMatch (RegExp.matchesAt RegExp.Any) k fuel s = true ->
  exists consumed rest, s = consumed ++ rest /\ k rest = true.
Proof.
  revert s. induction fuel as [|fuel IH]; intros s; simpl.
  - intros Hk. by exists [], s.
  - intros H. apply orb_true_iff in H as [H|Hk]; [|by exists [], s].
    destruct s as [|c s]; [done|].
    apply andb_true_iff in H as [_ H]. apply andb_true_iff in H as [_ H].
    destruct (IH s H) as (consumed & rest & -> & Hk).
    by exists (c :: consumed), rest.
Qed.

(** X17. The exclude pattern of the template registry finds a match in a
    path exactly when the path has a separator ([/] or [\]) followed by
    [.aws-sam] and then either the end of the path or another separator:
    a folder of that very name, below some folder. A relative path that
    starts with [.aws-sam], and a folder whose name only starts or ends
    with it, are not matched. *)
Theorem exclude_pattern_matches_aws_sam_folders (path : string) :
  RegExp.test TEMPLATE_FILE_EXCLUDE_PATTERN path = true <-> inAwsSamFolder path.
Proof.
  set (name := list_ascii_of_string ".aws-sam").
  set (tail := RegExp.Seq (RegExp.OneOf pathSeparators)
                 (RegExp.Seq (RegExp.Literal name)
                    (RegExp.Alt (RegExp.Seq (RegExp.OneOf pathSeparators)
                                   (RegExp.Star RegExp.Any))
                       RegExp.EndOfInput))).
  assert (Htail : forall s,
            RegExp.matchesAt tail s (fun _ => true) = true <->
            exists sep after,
              s = sep :: name ++ after /\ sep ∈ pathSeparators /\
              (after = [] \/ exists sep' rest, after = sep' :: rest /\ sep' ∈ pathSeparators)).
  { intros s. subst tail. cbn [RegExp.matchesAt]. split.
    - destruct s as [|sep s]; [done|]. intros H.
      apply andb_true_iff in H as [Hsep H]. apply oneOf_separator in Hsep.
      destruct (RegExp.dropPrefix name s) as [after|] eqn:Hname; [|done].
      apply dropPrefix_Some in Hname as ->.
      exists sep, after. split; [done|]. split; [done|].
      apply orb_true_iff in H as [H|H].
      + destruct after as [|sep' rest]; [done|]. right.
        apply andb_true_iff in H as [Hsep' _]. apply oneOf_separator in Hsep'. eauto.
      + destruct after; [by left|done].
    - intros (sep & after & -> & Hsep & Hafter).
      apply andb_true_iff. split; [by apply oneOf_separator|].
      rewrite (proj2 (dropPrefix_Some name (name ++ after) after) eq_refl).
      destruct Hafter as [->|(sep' & rest & -> & Hsep')]; [done|].
      apply orb_true_iff. left. apply andb_true_iff. split; [by apply oneOf_separator|].
      by apply repeatMatch_none. }
  unfold RegExp.test, inAwsSamFolder. cbv zeta. fold name.
  set (units := list_ascii_of_string path).
  change TEMPLATE_FILE_EXCLUDE_PATTERN with (RegExp.Seq (RegExp.Star RegExp.Any) tail).
  rewrite existsb_exists. split.
  - intros (i & _ & H). cbn [RegExp.matchesAt] in H.
    apply repeatMatch_any in H as (consumed & rest & Hsplit & H).
    apply Htail in H as (sep & after & -> & Hsep & Hafter).
    exists (take i units ++ consumed), sep, after. split; [|done].
    rewrite <- app_assoc, <- Hsplit. by rewrite take_drop.
  - intros (before & sep & after & Hunits & Hsep & Hafter).
    exists (length before). split.
    + apply in_seq. rewrite Hunits, length_app. lia.
    + cbn [RegExp.matchesAt]. apply repeatMatch_none.
      rewrite Hunits, drop_app_length. apply Htail. eauto 6.
Qed.

Example exclude_pattern_samples :
  RegExp.test TEMPLATE_FILE_EXCLUDE_PATTERN "/work/app/.aws-sam/build/template.yaml" = true /\
  RegExp.test TEMPLATE_FILE_EXCLUDE_PATTERN "C:\work\app\.aws-sam" = true /\
  RegExp.test TEMPLATE_FILE_EXCLUDE_PATTERN ".aws-sam/build/template.yaml" = false /\
  RegExp.test TEMPLATE_FILE_EXCLUDE_PATTERN "/work/app/.aws-samples/template.yaml" = false /\
  RegExp.test TEMPLATE_FILE_EXCLUDE_PATTERN "/work/app/my.aws-sam/template.yaml" = false.
Proof. vm_compute. done. Qed.

(** ** The credentials commands *)

Section CredentialFacts.

Import AwsContextCommands CredentialCommands.

Variables yes help viewDocs : string.
Variable asString : string -> string.
Variable credentialsFiles : list string.
Variable profileNames : list string.

Local Abbreviation promptAndCreate := (promptAndCreateNewCredentialsFile yes asString).
Local Abbreviation profileOf :=
  (fun round : Round => default EmptyString (profileName (defined round))).

(** What the loop of [promptAndCreateNewCredentialsFile] does, turn by
    turn: it stops at the first turn that does not ask again. *)
Lemma promptAndCreate_cons round later :
  promptAndCreate (round :: later)
  = if asksAgain yes round
    then (ShowInvalidMessage :: fst (promptAndCreate later), snd (promptAndCreate later))
    else if truthyString (profileName (defined round))
            && truthyString (accesskey (defined round))
            && truthyString (secretKey (defined round))
    then if truthyString (accountId round)
         then ([GenerateCredentialDirectoryIfNonexistent; writesFileOf round;
                ShowCreatedMessage (profileOf round)],
               Some (Some (asString (profileOf round))))
         else ([ShowInvalidMessage], Some None)
    else ([], Some None).
Proof.
  unfold asksAgain, writesFileOf. cbn [promptAndCreateNewCredentialsFile]. cbv zeta.
  destruct (truthyString (profileName (defined round))),
    (truthyString (accesskey (defined round))),
    (truthyString (secretKey (defined round))); cbn [negb orb andb]; try done.
  destruct (truthyString (accountId round)); cbn [negb orb andb]; [done|].
  destruct (truthyString (tryAgain round)); cbn [negb orb andb]; [|done].
  destruct (bool_decide (tryAgain round = Some yes)); cbn [negb orb andb]; [|done].
  by destruct (promptAndCreateNewCredentialsFile yes asString later).
Qed.

(** The profile the loop returns is that of a turn with validated keys
    for which it has written the file. *)
Lemma promptAndCreate_result (rounds : list Round) (profile : string) :
  snd (promptAndCreate rounds) = Some (Some profile) ->
  exists round, round ∈ rounds /\ validated round /\
                writesFileOf round ∈ fst (promptAndCreate rounds) /\
                profile = asString (profileOf round).
Proof.
  induction rounds as [|round later IH]; [done|].
  rewrite promptAndCreate_cons.
  destruct (asksAgain yes round).
  - cbn [fst snd]. intros Hresult.
    destruct (IH Hresult) as (found & Hfound & Hvalid & Hin & Hprofile).
    exists found. split; [by apply list_elem_of_further|].
    split; [done|]. split; [by apply list_elem_of_further|done].
  - destruct (truthyString (profileName (defined round))) eqn:Hname,
      (truthyString (accesskey (defined round))) eqn:Hkey,
      (truthyString (secretKey (defined round))) eqn:Hsecret; cbn [andb]; try done.
    destruct (truthyString (accountId round)) eqn:Haccount; cbn [fst snd]; [|done].
    intros [= <-]. exists round.
    split; [apply list_elem_of_here|]. split; [done|].
    split; [apply list_elem_of_further, list_elem_of_here|done].
Qed.

(** X18. [promptAndCreateNewCredentialsFile] writes the credentials file
    at most once, and only with the keys of a turn in which all three
    fields were filled in and an account was found for the keys; it
    returns a profile exactly when it has written the file for it, and it
    comes to an end as soon as a turn does not lead to another one. *)
Theorem credentials_file_is_written_once_for_validated_keys (rounds : list Round) :
  let calls := fst (promptAndCreate rounds) in
  let result := snd (promptAndCreate rounds) in
  (length (List.filter isWrite calls) <= 1)%nat /\
  (forall call, call ∈ calls -> isWrite call = true ->
     exists round, round ∈ rounds /\ validated round /\ call = writesFileOf round /\
                   result = Some (Some (asString (profileOf round)))) /\
  (forall profile, result = Some (Some profile) ->
     exists round, round ∈ rounds /\ validated round /\ writesFileOf round ∈ calls /\
                   profile = asString (profileOf round)) /\
  (Exists (fun round => asksAgain yes round = false) rounds -> is_Some result).
Proof.
  cbv zeta. induction rounds as [|round later IH].
  - simpl. split; [lia|]. split; [by intros call Hin; apply elem_of_nil in Hin|].
    split; [done|]. intros H. by apply Exists_nil in H.
  - destruct IH as (IHonce & IHwrite & IHresult & IHends).
    rewrite promptAndCreate_cons.
    destruct (asksAgain yes round) eqn:Hagain.
    + cbn [fst snd]. split; [exact IHonce|]. split; [|split].
      * intros call Hin Hwrite. apply elem_of_cons in Hin as [->|Hin]; [done|].
        destruct (IHwrite call Hin Hwrite) as (found & Hfound & H).
        exists found. split; [by apply list_elem_of_further|done].
      * intros profile Hresult.
        destruct (IHresult profile Hresult) as (found & Hfound & Hvalid & Hin & Hprofile).
        exists found. split; [by apply list_elem_of_further|].
        split; [done|]. split; [by apply list_elem_of_further|done].
      * intros Hends. apply Exists_cons in Hends as [Hends|Hends]; [congruence|].
        by apply IHends.
    + destruct (truthyString (profileName (defined round))) eqn:Hname,
        (truthyString (accesskey (defined round))) eqn:Hkey,
        (truthyString (secretKey (defined round))) eqn:Hsecret; cbn [andb];
        try (cbn [fst snd]; split; [simpl; lia|];
             split; [by intros call Hin; apply elem_of_nil in Hin|];
             split; [done|]; intros _; eauto).
      destruct (truthyString (accountId round)) eqn:Haccount; cbn [fst snd].
      * assert (Hvalid : validated round) by done.
        split; [simpl; lia|]. split; [|split; [|intros _; eauto]].
        -- intros call Hin Hwrite.
           exists round. split; [apply list_elem_of_here|]. split; [done|]. split; [|done].
           repeat (apply elem_of_cons in Hin as [->|Hin]; [try done|]).
           by apply elem_of_nil in Hin.
        -- intros profile [= <-]. exists round.
           split; [apply list_elem_of_here|]. split; [done|].
           split; [apply list_elem_of_further, list_elem_of_here|done].
      * split; [simpl; lia|]. split; [|split; [done|intros _; eauto]].
        intros call Hin Hwrite. apply list_elem_of_singleton in Hin as ->. done.
Qed.

Lemma promptCredentialsSetup_calls answers call :
  call ∈ fst (promptCredentialsSetup yes help answers) -> call = OpenExternal CredentialHelp.
Proof.
  induction answers as [|answer later IH]; simpl.
  - intros Hin. by apply elem_of_nil in Hin.
  - destruct (bool_decide (answer = Some yes)); simpl.
    + intros Hin. by apply elem_of_nil in Hin.
    + destruct (bool_decide (answer = Some help)); simpl.
      * destruct (promptCredentialsSetup yes help later) as [calls result]. simpl in *.
        intros Hin. apply elem_of_cons in Hin as [->|Hin]; [done|by apply IH].
      * intros Hin. by apply elem_of_nil in Hin.
Qed.

Lemma editCredentials_calls response call :
  call ∈ editCredentials viewDocs credentialsFiles response ->
  isLogin call = false /\ isWrite call = false.
Proof.
  unfold editCredentials. intros Hin. apply elem_of_app in Hin as [Hin|Hin].
  - apply elem_of_lookup_imap in Hin as (i & filename & -> & _). done.
  - destruct (_ && _); [|by apply elem_of_nil in Hin].
    apply list_elem_of_singleton in Hin as ->. done.
Qed.

Lemma promptAndCreate_no_login rounds call :
  call ∈ fst (promptAndCreate rounds) -> isLogin call = false.
Proof.
  induction rounds as [|round later IH]; [by intros Hin; apply elem_of_nil in Hin|].
  rewrite promptAndCreate_cons.
  destruct (asksAgain yes round).
  - cbn [fst]. intros Hin. apply elem_of_cons in Hin as [->|Hin]; [done|by apply IH].
  - destruct (_ && _); [|by intros Hin; apply elem_of_nil in Hin].
    destruct (truthyString (accountId round)); cbn [fst]; intros Hin;
      repeat (apply elem_of_cons in Hin as [->|Hin]; [done|]);
      by apply elem_of_nil in Hin.
Qed.

(** X19. The login command logs in at most once, as its last step, and
    only with a profile that is not empty and that the user either picked
    among the existing profiles, or, when there are neither profiles nor
    credentials files, has just defined with keys for which an account
    was found and the credentials file was written. When there are
    credentials files but no profiles, the command never logs in and never
    writes a file: it leaves the user editing the files. *)
Theorem login_only_with_a_picked_or_validated_profile (u : User) :
  let calls := fst (onCommandLogin yes help viewDocs asString credentialsFiles profileNames u) in
  (forall profile, Login profile ∈ calls ->
     profile <> EmptyString /\
     (exists before, calls = before ++ [Login profile] /\
                     forall call, call ∈ before -> isLogin call = false) /\
     ((profileNames <> [] /\
       exists state item, selected u = Some state /\ credentialProfile state = Some item /\
                          label item = profile) \/
      (profileNames = [] /\ credentialsFiles = [] /\
       exists round, round ∈ rounds u /\ validated round /\ writesFileOf round ∈ calls /\
                     profile = asString (profileOf round)))) /\
  (profileNames = [] -> credentialsFiles <> [] ->
   forall call, call ∈ calls -> isLogin call = false /\ isWrite call = false).
Proof.
  cbv zeta. unfold onCommandLogin, getProfileNameFromUser.
  destruct profileNames as [|name names] eqn:Hnames; cbn [length].
  - rewrite bool_decide_eq_false_2 by lia.
    destruct credentialsFiles as [|file files] eqn:Hfiles; cbn [length].
    + rewrite bool_decide_eq_true_2 by done. split; [|done].
      pose proof (promptCredentialsSetup_calls (setupAnswers u)) as Hsetup.
      destruct (promptCredentialsSetup yes help (setupAnswers u)) as [calls [[]|]];
        cbn [fst] in *;
        try (intros profile Hin; apply Hsetup in Hin; discriminate Hin).
      pose proof (promptAndCreate_result (rounds u)) as Hresult.
      pose proof (promptAndCreate_no_login (rounds u)) as Hnone.
      destruct (promptAndCreateNewCredentialsFile yes asString (rounds u))
        as [more [result|]]; cbn [fst snd] in *.
      * destruct (truthyString result) eqn:Htruthy; cbn [fst].
        -- destruct result as [profile|]; [|done]. simpl in Htruthy.
           apply bool_decide_eq_true in Htruthy.
           intros found Hin.
           assert (Hfound : found = profile).
           { apply elem_of_app in Hin as [Hin|Hin].
             - apply elem_of_app in Hin as [Hin|Hin].
               + apply Hsetup in Hin. discriminate Hin.
               + apply Hnone in Hin. discriminate Hin.
             - apply list_elem_of_singleton in Hin. by injection Hin. }
           subst found. split; [done|]. split.
           ++ exists (calls ++ more). split; [done|].
              intros call Hcall. apply elem_of_app in Hcall as [Hcall|Hcall].
              ** by rewrite (Hsetup call Hcall).
              ** by apply Hnone.
           ++ right. split; [done|]. split; [done|].
              destruct (Hresult profile eq_refl) as (round & Hround & Hvalid & Hwrite & Hprofile).
              exists round. split; [done|]. split; [done|]. split; [|done].
              apply elem_of_app. left. apply elem_of_app. by right.
        -- intros found Hin. apply elem_of_app in Hin as [Hin|Hin].
           ++ apply Hsetup in Hin. discriminate Hin.
           ++ apply Hnone in Hin. discriminate Hin.
      * intros found Hin. apply elem_of_app in Hin as [Hin|Hin].
        -- apply Hsetup in Hin. discriminate Hin.
        -- apply Hnone in Hin. discriminate Hin.
    + rewrite bool_decide_eq_false_2 by done.
      pose proof (promptCredentialsSetup_calls (setupAnswers u)) as Hsetup.
      pose proof (editCredentials_calls (editAnswer u)) as Hedit. rewrite Hfiles in Hedit.
      assert (Hquiet : forall call,
                call ∈ fst (promptCredentialsSetup yes help (setupAnswers u))
                       ++ editCredentials viewDocs (file :: files) (editAnswer u) ->
                isLogin call = false /\ isWrite call = false).
      { intros call Hin. apply elem_of_app in Hin as [Hin|Hin].
        - by rewrite (Hsetup call Hin).
        - by apply Hedit. }
      destruct (promptCredentialsSetup yes help (setupAnswers u)) as [calls [[]|]];
        cbn [fst snd truthyString] in *.
      * split; [|done]. intros profile Hin. by destruct (Hquiet _ Hin).
      * split.
        -- intros profile Hin. apply Hsetup in Hin. discriminate Hin.
        -- intros _ _ call Hin. by rewrite (Hsetup call Hin).
      * split.
        -- intros profile Hin. apply Hsetup in Hin. discriminate Hin.
        -- intros _ _ call Hin. by rewrite (Hsetup call Hin).
  - rewrite bool_decide_eq_true_2 by lia. split; [|done].
    destruct (selected u) as [state|] eqn:Hselected;
      [destruct (credentialProfile state) as [item|] eqn:Hitem|];
      cbn [fst snd truthyString];
      try (intros profile Hin; by apply elem_of_nil in Hin).
    case_bool_decide as Hempty; cbn [fst];
      [|intros profile Hin; by apply elem_of_nil in Hin].
    intros profile Hin. apply list_elem_of_singleton in Hin. injection Hin as ->.
    split; [done|]. split.
    + exists []. split; [done|]. intros call Hcall. by apply elem_of_nil in Hcall.
    + left. split; [done|]. eauto.
Qed.

(** X20. [promptCredentialsSetup] goes by the first answer that is not
    the help button: it opens the help link once for every time help was
    chosen before, and returns whether that answer is yes. Answers given
    later are not looked at. *)
Theorem setup_prompt_goes_by_first_answer_but_help
  (asked : nat) (answer : option string) (later : list (option string)) :
  yes <> help ->
  answer <> Some help ->
  promptCredentialsSetup yes help (replicate asked (Some help) ++ answer :: later)
  = (replicate asked (OpenExternal CredentialHelp), Some (bool_decide (answer = Some yes))).
Proof.
  intros Hdistinct Hanswer. induction asked as [|asked IH]; simpl.
  - case_bool_decide as Hyes; [done|]. by rewrite bool_decide_eq_false_2.
  - rewrite bool_decide_eq_false_2 by (intros [= H]; by destruct Hdistinct).
    rewrite bool_decide_eq_true_2 by done. by rewrite IH.
Qed.

End CredentialFacts.

Lemma setup_prompt_goes_by_first_answer_but_help_witness :
  CredentialCommands.promptCredentialsSetup "Yes" "Help"
    [Some "Help"; Some "Help"; None; Some "Yes"]
  = ([CredentialCommands.OpenExternal CredentialCommands.CredentialHelp;
      CredentialCommands.OpenExternal CredentialCommands.CredentialHelp],
     Some false).
Proof.
  apply (setup_prompt_goes_by_first_answer_but_help "Yes" "Help" 2 None [Some "Yes"]);
    discriminate.
Defined.

Example login_after_defining_credentials :
  CredentialCommands.onCommandLogin "Yes" "Help" "View Documentation"
    (fun profile => "profile:" +:+ profile) [] []
    {| CredentialCommands.selected := None;
       CredentialCommands.setupAnswers := [Some "Help"; Some "Yes"];
       CredentialCommands.rounds := CredentialCommands.sampleRounds;
       CredentialCommands.editAnswer := None |}
  = ([CredentialCommands.OpenExternal CredentialCommands.CredentialHelp;
      CredentialCommands.ShowInvalidMessage;
      CredentialCommands.GenerateCredentialDirectoryIfNonexistent;
      CredentialCommands.GenerateCredentialsFile "dev" "AKIANEW" "new";
      CredentialCommands.ShowCreatedMessage "dev";
      CredentialCommands.Login "profile:dev"],
     true).
Proof. vm_compute. reflexivity. Qed.

Example define_credentials_sample :
  CredentialCommands.promptAndCreateNewCredentialsFile "Yes" (fun profile => "profile:" +:+ profile)
    CredentialCommands.sampleRounds
  = ([CredentialCommands.ShowInvalidMessage;
      CredentialCommands.GenerateCredentialDirectoryIfNonexistent;
      CredentialCommands.GenerateCredentialsFile "dev" "AKIANEW" "new";
      CredentialCommands.ShowCreatedMessage "dev"],
     Some (Some "profile:dev")).
Proof. vm_compute. reflexivity. Qed.

(** ** Commands with telemetry *)

Section RunCommandFacts.

Import EcsCommands.

Variable isUserCancelled : JsError -> bool.

Local Abbreviation run := (runCommandInContainer isUserCancelled).

(** Taking the command apart along the calls it waits for. *)
Ltac run_cases w :=
  unfold runCommandInContainer, tryRunCommand, catchRunCommand, lacksPermissions;
  destruct w as [role iam allowed enabled answer cli sent ran];
  cbn [taskRoleArn createIamClient hasRolePermissions isPromptEnabled wizardRun
       getOrInstallCli executeCommand runPlugin];
  repeat match goal with
         | |- context [match ?x with _ => _ end] => is_var x; destruct x
         | |- context [bool_decide ?P] => destruct (bool_decide P) eqn:?
         | |- context [isUserCancelled ?e] => destruct (isUserCancelled e) eqn:?
         end;
  cbn [app fst snd];
  repeat match goal with u : unit |- _ => destruct u end.

Ltac in_list := repeat first [apply list_elem_of_here | apply list_elem_of_further].

Ltac not_in_list H :=
  repeat (apply elem_of_cons in H as [H|H]; [discriminate H|]); by apply elem_of_nil in H.

(** X21. Whatever the calls it waits for do, [runCommandInContainer]
    records its result exactly once, after everything else but the
    disposal of the status bar message, which follows if and only if the
    message was set. The result recorded is [Succeeded] exactly when the
    plugin was run and returned. When the task role lacks the
    permissions, the command shows the error and records [Failed]
    without asking or executing anything; and a command is only executed
    when the role does not lack them, with the task and the command line
    the wizard answered with. *)
Theorem run_command_records_its_result_once (w : Run) :
  length (List.filter isRecord (run w)) = 1%nat /\
  (exists result,
     last (run w) = Some (RecordTelemetry result) /\ (SetStatusBarMessage ∉ run w) \/
     last (run w) = Some DisposeStatus /\ SetStatusBarMessage ∈ run w /\
     exists before, run w = before ++ [RecordTelemetry result; DisposeStatus]) /\
  (RecordTelemetry Succeeded ∈ run w <->
   (exists ssmPlugin, RunPlugin ssmPlugin ∈ run w) /\ runPlugin w = Returns tt) /\
  (createIamClient w = Returns tt -> lacksPermissions w ->
   run w = [ShowMissingPermissions; RecordTelemetry Failed]) /\
  (forall t c, ExecuteCommand t c ∈ run w ->
     ~ lacksPermissions w /\
     exists response, wizardRun w = Returns (Some response) /\
                      task response = t /\ command response = c).
Proof.
  split; [|split; [|split; [|split]]].
  - run_cases w; reflexivity.
  - run_cases w;
      first [ eexists; left; split; [reflexivity|]; intros Hin; not_in_list Hin
            | eexists; right; split; [reflexivity|]; split; [in_list|];
              first [ by eexists [_] | by eexists [_; _] | by eexists [_; _; _]
                    | by eexists [_; _; _; _] | by eexists [_; _; _; _; _]
                    | by eexists [_; _; _; _; _; _] | by eexists [_; _; _; _; _; _; _] ] ].
  - run_cases w;
      (split;
       [intros H; first [by not_in_list H | split; [eexists; in_list|reflexivity]]
       |intros [[plugin H] H']; first [discriminate H' | by not_in_list H | in_list]]).
  - intros Hiam [Hrole Hallowed]. revert Hiam Hrole Hallowed.
    run_cases w; intros Hiam Hrole Hallowed; try discriminate; try reflexivity;
      try (by destruct Hrole as [? Hrole]).
  - intros t c. run_cases w; intros Hin; try (by not_in_list Hin);
      (split; [intros [Hrole Hallowed]; first [discriminate Hallowed | by destruct Hrole]|]);
      eexists; (split; [reflexivity|]);
      repeat (apply elem_of_cons in Hin as [Hin|Hin]; [try discriminate Hin|]);
      try (by apply elem_of_nil in Hin); by injection Hin.
Qed.

End RunCommandFacts.

Example run_command_sample :
  EcsCommands.runCommandInContainer (fun _ => false) EcsCommands.sampleRun
  = [EcsCommands.DisablePrompt; EcsCommands.SetStatusBarMessage;
     EcsCommands.ExecuteCommand "task-1" "ls"; EcsCommands.ShowCommandOutput "task-1" "ls";
     EcsCommands.RunPlugin "session-manager-plugin";
     EcsCommands.LogError (Thrown (JString "exit code 1")); EcsCommands.ShowViewLogsMessage;
     EcsCommands.RecordTelemetry Failed; EcsCommands.DisposeStatus].
Proof. reflexivity. Qed.

Section DeleteServiceFacts.

Import AppRunnerCommands.

Variable typeDeleteToConfirm : string.
Variable isValidResponse : JsValue -> bool.

Local Abbreviation deleteService := (AppRunnerCommands.deleteService isValidResponse).

(** X22. [deleteService] records its result exactly once, as the last
    thing it does, whether it returns or throws. The node is deleted
    exactly when the prompt returned a valid response; the result is
    [Succeeded] exactly when the deletion was then carried out and
    returned, [Cancelled] exactly when the prompt returned a response that
    is not valid, and a failure of the prompt or of the deletion is
    recorded as [Failed] and still reaches the caller. The validator of
    the input accepts the text [delete] and no other. *)
Theorem delete_service_records_its_result_once
  (prompt : Completion JsValue) (delete : Completion unit) :
  let calls := fst (deleteService prompt delete) in
  let outcome := snd (deleteService prompt delete) in
  (exists result,
     calls = [RecordTelemetry result] \/ calls = [DeleteNode; RecordTelemetry result]) /\
  (DeleteNode ∈ calls <->
   exists userInput, prompt = Returns userInput /\ isValidResponse userInput = true) /\
  (RecordTelemetry Succeeded ∈ calls <-> DeleteNode ∈ calls /\ delete = Returns tt) /\
  (RecordTelemetry Cancelled ∈ calls <->
   exists userInput, prompt = Returns userInput /\ isValidResponse userInput = false) /\
  (forall error,
     outcome = Throws error <->
     prompt = Throws error \/ (DeleteNode ∈ calls /\ delete = Throws error)) /\
  (forall error, outcome = Throws error -> RecordTelemetry Failed ∈ calls) /\
  (forall name, validateName typeDeleteToConfirm name = None <-> name = "delete").
Proof.
  cbv zeta. unfold AppRunnerCommands.deleteService.
  split; [|split; [|split; [|split; [|split; [|split]]]]].
  - destruct prompt as [userInput|error]; [|eauto].
    destruct (isValidResponse userInput); cbn [negb]; [|eauto].
    destruct delete; eauto.
  - destruct prompt as [userInput|error].
    + destruct (isValidResponse userInput) eqn:Hvalid; cbn [negb].
      * destruct delete; cbn [fst app]; (split; [eauto|intros _; apply list_elem_of_here]).
      * cbn [fst app]. split.
        -- intros Hin. apply list_elem_of_singleton in Hin. discriminate Hin.
        -- intros (input & [= <-] & H). congruence.
    + cbn [fst app]. split.
      * intros Hin. apply list_elem_of_singleton in Hin. discriminate Hin.
      * by intros (input & H & _).
  - destruct prompt as [userInput|error].
    + destruct (isValidResponse userInput) eqn:Hvalid; cbn [negb].
      * destruct delete as [[]|error]; cbn [fst app]; split.
        -- intros _. split; [apply list_elem_of_here|done].
        -- intros _. apply list_elem_of_further, list_elem_of_here.
        -- intros Hin. apply elem_of_cons in Hin as [Hin|Hin]; [discriminate Hin|].
           apply list_elem_of_singleton in Hin. discriminate Hin.
        -- by intros [_ H].
      * cbn [fst app]. split.
        -- intros Hin. apply list_elem_of_singleton in Hin. discriminate Hin.
        -- intros [Hin _]. apply list_elem_of_singleton in Hin. discriminate Hin.
    + cbn [fst app]. split.
      * intros Hin. apply list_elem_of_singleton in Hin. discriminate Hin.
      * intros [Hin _]. apply list_elem_of_singleton in Hin. discriminate Hin.
  - destruct prompt as [userInput|error].
    + destruct (isValidResponse userInput) eqn:Hvalid; cbn [negb].
      * destruct delete as [[]|error]; cbn [fst app]; split;
          try (intros Hin; apply elem_of_cons in Hin as [Hin|Hin]; [discriminate Hin|];
               apply list_elem_of_singleton in Hin; discriminate Hin);
          intros (input & [= <-] & H); congruence.
      * cbn [fst app]. split; [eauto|]. intros _. apply list_elem_of_here.
    + cbn [fst app]. split.
      * intros Hin. apply list_elem_of_singleton in Hin. discriminate Hin.
      * by intros (input & H & _).
  - intros error0. destruct prompt as [userInput|error].
    + destruct (isValidResponse userInput) eqn:Hvalid; cbn [negb].
      * destruct delete as [[]|error]; cbn [fst snd app]; split.
        -- done.
        -- intros [H|[_ H]]; done.
        -- intros [= <-]. right. split; [apply list_elem_of_here|done].
        -- intros [H|[_ H]]; [done|]. by injection H as <-.
      * cbn [fst snd app]. split; [done|]. intros [H|[Hin _]]; [done|].
        apply list_elem_of_singleton in Hin. discriminate Hin.
    + cbn [fst snd app]. split.
      * intros [= <-]. by left.
      * intros [[= <-]|[Hin _]]; [done|].
        apply list_elem_of_singleton in Hin. discriminate Hin.
  - intros error0. destruct prompt as [userInput|error].
    + destruct (isValidResponse userInput) eqn:Hvalid; cbn [negb].
      * destruct delete as [[]|error]; cbn [fst snd app]; [done|].
        intros _. apply list_elem_of_further, list_elem_of_here.
      * done.
    + cbn [fst snd app]. intros _. apply list_elem_of_here.
  - intros name. unfold validateName. by case_bool_decide as Hname.
Qed.

End DeleteServiceFacts.

(** ** A reload of the filter-box prompter that fails *)

Lemma pagesSatisfy_any source : pagesSatisfy (fun _ => True) source.
Proof.
  destruct source as [loaded|loaded|pages last]; simpl; [done|done|].
  split; [|done]. by apply Forall_forall.
Qed.

(** An item of the list is still there when [loadItems] is done with the
    list, whether it returns or throws, unless the placeholder is
    showing. *)
Lemma loadItems_keeps_item source disableInput p item :
  isShowingPlaceholder p = false ->
  item ∈ items (quickPick p) ->
  item ∈ items (quickPick (snd (loadItems source disableInput p))).
Proof.
  intros Hshowing Hitem. rewrite loadItems_eq, Hshowing. cbv zeta.
  set (started := withQuickPick (setBusyEnabled true (truthy disableInput)) p).
  set (J := fun p0 : QuickPickPrompter => item ∈ items (quickPick p0)).
  assert (Happend : forall p0 page, J p0 -> J (snd (appendItems page p0))).
  { intros p0 page Hp0. unfold J in *.
    destruct (appendItems_frame page p0) as (Hitems & _). cbv zeta in Hitems.
    rewrite Hitems.
    assert (Hin : item ∈ sortItems (compare (options p0)) (items (quickPick p0) ++ page)).
    { rewrite sortItems_perm. apply elem_of_app. by left. }
    unfold shownFor. destruct (sortItems _ _); [by apply elem_of_nil in Hin|done]. }
  assert (Hloaded : J (snd (loadPhase source started))).
  { apply (loadPhase_invariant J (fun _ => True)).
    - by intros [q o ph est lp h su].
    - by intros [q o ph est lp h su] hl.
    - intros p0 page _. apply Happend.
    - apply pagesSatisfy_any.
    - subst J started. by destruct p as [[] o ph est lp h su]. }
  destruct (loadPhase source started) as [[[]|e] loaded]; cbn [snd] in *; [|done].
  apply Happend. unfold J in *. by destruct loaded as [[] o ph est lp h su].
Qed.



Section CreateProfileFacts.

Import AwsContextCommands CredentialCommands.

Variables yes viewDocs : string.
Variable asString : string -> string.
Variable credentialsFiles : list string.

(** X24. The command that creates a credentials profile opens the
    existing credentials files for editing when there are any, the first
    one with the focus and the others beside it, and then neither writes a
    file nor logs in. When there are none, it logs in at most once, as
    its last step, with the profile the user has just defined with
    validated keys and for which the file was written, and not at all when
    the definition was given up. *)
Theorem create_profile_edits_or_defines_and_logs_in (u : User) :
  let calls := fst (onCommandCreateCredentialsProfile yes viewDocs asString credentialsFiles u) in
  (credentialsFiles <> [] ->
   (forall call, call ∈ calls -> isLogin call = false /\ isWrite call = false) /\
   forall i filename, credentialsFiles !! i = Some filename ->
     calls !! i = Some (ShowTextDocument filename (negb (bool_decide (i = 0%nat)))
                          (negb (bool_decide (i = 0%nat))))) /\
  (credentialsFiles = [] ->
   forall profile, Login profile ∈ calls ->
     profile <> EmptyString /\
     (exists before, calls = before ++ [Login profile] /\
                     forall call, call ∈ before -> isLogin call = false) /\
     exists round, round ∈ rounds u /\ validated round /\ writesFileOf round ∈ calls /\
                   profile = asString (default EmptyString (profileName (defined round)))).
Proof.
  cbv zeta. unfold onCommandCreateCredentialsProfile. split.
  - intros Hfiles. rewrite bool_decide_eq_false_2 by (by destruct credentialsFiles).
    cbn [fst]. split.
    + intros call Hin. by apply (editCredentials_calls viewDocs credentialsFiles (editAnswer u)).
    + intros i filename Hi. unfold editCredentials.
      rewrite lookup_app_l by (rewrite length_imap; by apply lookup_lt_Some in Hi).
      by rewrite list_lookup_imap, Hi.
  - intros ->. cbn [length]. rewrite bool_decide_eq_true_2 by done.
    pose proof (promptAndCreate_result yes asString (rounds u)) as Hresult.
    pose proof (promptAndCreate_no_login yes asString (rounds u)) as Hnone.
    destruct (promptAndCreateNewCredentialsFile yes asString (rounds u))
      as [calls [result|]]; cbn [fst snd] in *.
    + destruct (truthyString result) eqn:Htruthy; cbn [fst].
      * destruct result as [profile|]; [|done]. simpl in Htruthy.
        apply bool_decide_eq_true in Htruthy.
        intros found Hin.
        assert (Hfound : found = profile).
        { apply elem_of_app in Hin as [Hin|Hin].
          - apply Hnone in Hin. discriminate Hin.
          - apply list_elem_of_singleton in Hin. by injection Hin. }
        subst found. split; [done|]. split; [by exists calls|].
        destruct (Hresult profile eq_refl) as (round & Hround & Hvalid & Hwrite & Hprofile).
        exists round. split; [done|]. split; [done|]. split; [|done].
        apply elem_of_app. by left.
      * intros found Hin. apply Hnone in Hin. discriminate Hin.
    + intros found Hin. apply Hnone in Hin. discriminate Hin.
Qed.

End CreateProfileFacts.

(** ** The remote invoke view *)

Section RemoteInvokeFacts.

Import RemoteInvoke.

Variable parse : JsValue -> Completion JsValue.

Lemma happen_errorStandsAlone d h :
  errorStandsAlone d -> errorStandsAlone (happen parse d h).
Proof.
  intros Hd. destruct h as [|message]; [exact Hd|].
  unfold happen, handleMessageReceived.
  destruct (HttpResourceFetcher.readProp "command" message) as [command|thrown]; [|exact Hd].
  destruct (strictEquals command (JString "loadedSample")); [exact Hd|].
  destruct (strictEquals command (JString "invokedLambda")); [|exact Hd].
  cbn [snd]. destruct (toBoolean (prop "error" message)) eqn:Herror.
  - intros _. cbn. by rewrite Herror.
  - intros Hset. by destruct Hset.
Qed.

(** X25. Whatever messages the view receives and however often Invoke is
    clicked, an error stands alone in the data of the component: whenever
    [error] is set, it is a truthy value, [showResponse] is on, and the
    payload, the status code and the logs are the empty string, so that
    nothing of an earlier result is kept beside it. After a message that
    reports an invocation, [isLoading] is off and [showResponse] is on. *)
Theorem error_stands_alone (happenings : list Happening) :
  let final := foldl (happen parse) data happenings in
  errorStandsAlone final /\
  forall earlier h,
    happenings = earlier ++ [h] -> isInvoked h ->
    isLoading final = false /\ showResponse final = true.
Proof.
  cbv zeta. split.
  - assert (Hany : forall d, errorStandsAlone d ->
                             errorStandsAlone (foldl (happen parse) d happenings)).
    { induction happenings as [|h later IH]; intros d Hd; [done|].
      simpl. by apply IH, happen_errorStandsAlone. }
    apply Hany. intros Hset. by destruct Hset.
  - intros earlier h -> Hinvoked. rewrite foldl_app. cbn [foldl].
    generalize (foldl (happen parse) data earlier). intros d.
    destruct h as [|message]; [by destruct Hinvoked|]. simpl in Hinvoked.
    unfold happen, handleMessageReceived.
    destruct message; try discriminate Hinvoked.
    cbn [HttpResourceFetcher.readProp]. unfold prop in Hinvoked. rewrite Hinvoked.
    cbn [strictEquals]. rewrite bool_decide_eq_false_2 by discriminate.
    rewrite bool_decide_eq_true_2 by done. cbn [snd].
    by destruct (toBoolean _).
Qed.

End RemoteInvokeFacts.

Example failed_invocation_clears_the_result :
  RemoteInvoke.happen (fun _ => Throws (Thrown JUndefined))
    (RemoteInvoke.happen (fun _ => Throws (Thrown JUndefined))
       (RemoteInvoke.sendInput RemoteInvoke.data)
       (RemoteInvoke.Message
          (JObject [("command", JString "invokedLambda"); ("payload", JString "done");
                    ("statusCode", JNumber 200); ("logs", JString "START")])))
    (RemoteInvoke.Message
       (JObject [("command", JString "invokedLambda"); ("error", JString "timed out")]))
  = {| RemoteInvoke.sampleText := JString EmptyString;
       RemoteInvoke.error := JString "timed out";
       RemoteInvoke.payload := JString EmptyString;
       RemoteInvoke.statusCode := JString EmptyString;
       RemoteInvoke.logs := JString EmptyString;
       RemoteInvoke.showResponse := true;
       RemoteInvoke.isLoading := false;
       RemoteInvoke.selectedFile := JString EmptyString |}.
Proof. reflexivity. Qed.

(** ** The quick start pages *)

Section ReplaceFacts.

Import RegExp.

(** What the matcher hands to its continuation is what is left of the
    text behind a match. *)
Lemma repeatExec_suffix {A : Type}
  (body : list ascii -> (list ascii -> option A) -> option A) :
  (forall s k found, body s k = Some found ->
     exists matched rest, s = matched ++ rest /\ k rest = Some found) ->
  forall fuel s k found, repeatExec body k fuel s = Some found ->
    exists matched rest, s = matched ++ rest /\ k rest = Some found.
Proof.
  intros Hbody. induction fuel as [|fuel IH]; intros s k found; simpl.
  - intros Hk. by exists [], s.
  - destruct (body s _) as [found'|] eqn:Hround.
    + intros [= ->]. apply Hbody in Hround as (matched & rest & -> & Hrest).
      destruct (_ <? _)%nat; [|done].
      apply IH in Hrest as (more & rest' & -> & Hk).
      exists (matched ++ more), rest'. by rewrite <- app_assoc.
    + intros Hk. by exists [], s.
Qed.

Lemma execAt_suffix {A : Type} r s (k : list ascii -> option A) found :
  execAt r s k = Some found ->
  exists matched rest, s = matched ++ rest /\ k rest = Some found.
Proof.
  revert s k found. induction r as [|chars|text|body IH|first IH1 second IH2|one IH1 other IH2|];
    intros s k found; cbn [execAt].
  - destruct s as [|c rest]; [done|]. destruct (isLineTerminator c); [done|].
    intros Hk. by exists [c], rest.
  - destruct s as [|c rest]; [done|]. destruct (existsb _ _); [|done].
    intros Hk. by exists [c], rest.
  - destruct (dropPrefix text s) as [rest|] eqn:Hdrop; [|done].
    apply dropPrefix_Some in Hdrop as ->. intros Hk. by exists text, rest.
  - apply repeatExec_suffix. intros s' k' found'. apply IH.
  - intros H. apply IH1 in H as (matched & rest & -> & H).
    apply IH2 in H as (more & rest' & -> & Hk).
    exists (matched ++ more), rest'. by rewrite <- app_assoc.
  - destruct (execAt one s k) as [found'|] eqn:Hone.
    + intros [= ->]. by apply IH1.
    + apply IH2.
  - destruct s; [|done]. intros Hk. by exists [], [].
Qed.

Variable r : Regex.
Variable replacement : list ascii.
Variable first : ascii.
Variable others : list ascii.

Hypothesis replacement_first : replacement = first :: others.

(** The pattern matches no empty text. *)
Hypothesis never_empty : forall s, execAt r s Some <> Some s.

Lemma match_shortens s rest :
  execAt r s Some = Some rest -> exists matched, s = matched ++ rest /\ matched <> [].
Proof.
  intros Hmatch. pose proof Hmatch as Hsuffix.
  apply execAt_suffix in Hsuffix as (matched & rest' & -> & [= ->]).
  exists matched. split; [done|]. intros ->. by apply (never_empty rest).
Qed.

(** One step of the replacement. *)
Lemma replaceFrom_step fuel s :
  replaceFrom (S fuel) r replacement s
  = match execAt r s Some with
    | Some rest => replacement ++ replaceFrom fuel r replacement rest
    | None =>
        match s with
        | [] => []
        | c :: rest => c :: replaceFrom fuel r replacement rest
        end
    end.
Proof.
  cbn [replaceFrom]. destruct (execAt r s Some) as [rest|] eqn:Hmatch; [|done].
  destruct (match_shortens s rest Hmatch) as (matched & -> & Hsome).
  rewrite (proj2 (Nat.ltb_lt _ _)); [done|].
  rewrite length_app. destruct matched; [done|]. simpl. lia.
Qed.

(** A start of the result that nowhere has the first code unit of the
    replacement was copied from the text. *)
Lemma copied_start start :
  Forall (fun c => c <> first) start ->
  forall fuel s, (length s < fuel)%nat ->
    start `prefix_of` replaceFrom fuel r replacement s -> start `prefix_of` s.
Proof.
  induction 1 as [|c start Hc Hstart IH]; intros fuel s Hfuel Hprefix.
  - apply prefix_nil.
  - destruct fuel as [|fuel]; [lia|]. rewrite replaceFrom_step in Hprefix.
    destruct (execAt r s Some) as [rest|] eqn:Hmatch.
    + rewrite replacement_first in Hprefix. destruct Hprefix as [more Hmore].
      simpl in Hmore. injection Hmore as Hhead _. by destruct Hc.
    + destruct s as [|d s]; [by destruct Hprefix as [more Hmore]|].
      destruct Hprefix as [more Hmore]. simpl in Hmore. injection Hmore as <- Hmore.
      apply prefix_cons. apply (IH fuel s); [simpl in Hfuel; lia|]. by exists more.
Qed.

Lemma compatible_prefix a b after after' :
  a ++ after = b ++ after' -> compatible a b = true.
Proof.
  revert b. induction a as [|c a IH]; intros [|d b]; simpl; try done.
  intros [= -> H]. rewrite Ascii.eqb_refl. simpl. by apply IH.
Qed.

(** Where a [part] can be in the result: only where the text has it at a
    place at which the pattern does not match. *)
Lemma part_in_result (head : ascii) (tail : list ascii) :
  Forall (fun c => c <> first) tail ->
  clearOf (head :: tail) replacement = true ->
  forall fuel s before after, (length s < fuel)%nat ->
    replaceFrom fuel r replacement s = before ++ (head :: tail) ++ after ->
    exists skipped rest,
      s = skipped ++ rest /\ execAt r rest Some = None /\ (head :: tail) `prefix_of` rest.
Proof.
  intros Htail Hclear. induction fuel as [|fuel IH]; intros s before after Hfuel Hout; [lia|].
  rewrite replaceFrom_step in Hout.
  destruct (execAt r s Some) as [rest|] eqn:Hmatch.
  - destruct (match_shortens s rest Hmatch) as (matched & -> & Hsome).
    assert (Hrest : (length rest < fuel)%nat).
    { rewrite length_app in Hfuel. destruct matched; [done|]. simpl in Hfuel. lia. }
    apply app_eq_inv in Hout as [(k & Hrep & Hk)|(k & Hbefore & Hk)].
    + destruct (decide (k = [])) as [->|Hk0].
      * rewrite app_nil_r in Hrep. subst before. simpl in Hk.
        destruct (IH rest [] after Hrest (eq_sym Hk)) as (skipped & rest' & -> & Hnone & Hpre).
        exists (matched ++ skipped), rest'. by rewrite <- app_assoc.
      * exfalso. unfold clearOf in Hclear. rewrite forallb_forall in Hclear.
        assert (Hi : (length before < length replacement)%nat).
        { rewrite Hrep, length_app. destruct k; [done|]. simpl. lia. }
        assert (Hin : In (length before) (seq 0 (length replacement)))
          by (apply in_seq; lia).
        specialize (Hclear _ Hin).
        rewrite Hrep, drop_app_length in Hclear.
        apply negb_true_iff in Hclear.
        rewrite (compatible_prefix (head :: tail) k after
                   (replaceFrom fuel r replacement rest)) in Hclear; [done|].
        by rewrite Hk.
    + subst before.
      destruct (IH rest k after Hrest Hk) as (skipped & rest' & -> & Hnone & Hpre).
      exists (matched ++ skipped), rest'. by rewrite <- app_assoc.
  - destruct s as [|c s]; [by destruct before|].
    destruct before as [|b before].
    + simpl in Hout. injection Hout as -> Hout.
      exists [], (head :: s). split; [done|]. split; [done|].
      apply prefix_cons. apply (copied_start tail Htail fuel s); [simpl in Hfuel; lia|].
      by exists after.
    + simpl in Hout. injection Hout as -> Hout.
      destruct (IH s before after ltac:(simpl in Hfuel; lia) Hout)
        as (skipped & rest' & -> & Hnone & Hpre).
      by exists (b :: skipped), rest'.
Qed.

(** The fuel does not matter once it is enough. *)
Lemma replaceFrom_fuel fuel fuel' s :
  (length s < fuel)%nat -> (length s < fuel')%nat ->
  replaceFrom fuel r replacement s = replaceFrom fuel' r replacement s.
Proof.
  revert fuel' s. induction fuel as [|fuel IH]; intros [|fuel'] s Hfuel Hfuel'; try lia.
  rewrite !replaceFrom_step.
  destruct (execAt r s Some) as [rest|] eqn:Hmatch.
  - destruct (match_shortens s rest Hmatch) as (matched & -> & Hsome).
    rewrite length_app in Hfuel, Hfuel'.
    f_equal. apply IH; destruct matched; try done; simpl in *; lia.
  - destruct s as [|c s]; [done|]. f_equal. apply IH; simpl in *; lia.
Qed.

(** Text in which the pattern finds nothing is copied, up to the first
    match. *)
Lemma replaceFrom_copies fuel copied s :
  (length (copied ++ s) < fuel)%nat ->
  (forall skipped rest, copied = skipped ++ rest -> rest <> [] ->
     execAt r (rest ++ s) Some = None) ->
  replaceFrom fuel r replacement (copied ++ s)
  = copied ++ replaceFrom (fuel - length copied) r replacement s.
Proof.
  revert fuel. induction copied as [|c copied IH]; intros fuel Hfuel Hnone.
  - simpl. by rewrite Nat.sub_0_r.
  - destruct fuel as [|fuel]; [simpl in Hfuel; lia|].
    rewrite replaceFrom_step. rewrite (Hnone [] (c :: copied)) by done.
    simpl. f_equal. apply IH; [simpl in Hfuel; lia|].
    intros skipped rest -> Hrest. by apply (Hnone (c :: skipped) rest).
Qed.

End ReplaceFacts.

Lemma literal_never_empty c text s :
  RegExp.execAt (RegExp.Literal (c :: text)) s Some <> Some s.
Proof.
  cbn [RegExp.execAt]. destruct (RegExp.dropPrefix (c :: text) s) as [rest|] eqn:Hdrop; [|done].
  apply dropPrefix_Some in Hdrop. intros [= ->].
  apply (f_equal length) in Hdrop. rewrite length_app in Hdrop. simpl in Hdrop. lia.
Qed.

Lemma literal_matches_prefix text s :
  text `prefix_of` s -> RegExp.execAt (RegExp.Literal text) s Some <> None.
Proof.
  intros [rest ->]. cbn [RegExp.execAt].
  by rewrite (proj2 (dropPrefix_Some text (text ++ rest) rest) eq_refl).
Qed.

Lemma literal_match text s rest :
  RegExp.execAt (RegExp.Literal text) s Some = Some rest <-> s = text ++ rest.
Proof.
  cbn [RegExp.execAt]. rewrite <- dropPrefix_Some.
  destruct (RegExp.dropPrefix text s); [split; congruence|done].
Qed.

Lemma enPng_never_empty s : RegExp.execAt enPngRegex s Some <> Some s.
Proof.
  unfold enPngRegex. cbn [RegExp.execAt].
  destruct (RegExp.dropPrefix _ s) as [rest|] eqn:Hen; [|done].
  apply dropPrefix_Some in Hen.
  destruct rest as [|c rest]; [done|]. destruct (RegExp.isLineTerminator c); [done|].
  destruct (RegExp.dropPrefix _ rest) as [rest'|] eqn:Hpng; [|done].
  apply dropPrefix_Some in Hpng. intros [= Hsame]. subst rest' rest.
  apply (f_equal length) in Hen. simpl in Hen. lia.
Qed.

Local Abbreviation units := list_ascii_of_string.

(** A replacement through which a part that is not in the text cannot
    come to be in the result. *)
Lemma replace_brings_no_part r replacement part text :
  (forall s, RegExp.execAt r s Some <> Some s) ->
  match units replacement, units part with
  | first :: _, _ :: tail =>
      forallb (fun c => negb (Ascii.eqb c first)) tail
      && clearOf (units part) (units replacement)
  | _, _ => false
  end = true ->
  occursIn part (RegExp.replace r replacement text) -> occursIn part text.
Proof.
  intros Hnever Hclear (before & after & Hout). unfold RegExp.replace in Hout.
  destruct (units replacement) as [|first others] eqn:Hreplacement; [done|].
  destruct (units part) as [|head tail] eqn:Hpart; [done|].
  apply andb_true_iff in Hclear as [Htail Hclear].
  assert (Htail' : Forall (fun c => c <> first) tail).
  { apply Forall_forall. intros c Hc. rewrite forallb_forall in Htail.
    specialize (Htail c (proj1 (list_elem_of_In _ _) Hc)).
    apply negb_true_iff, Ascii.eqb_neq in Htail. done. }
  destruct (part_in_result r (first :: others) first others eq_refl Hnever head tail
              Htail' Hclear (S (length text)) text before after ltac:(lia) Hout)
    as (skipped & rest & -> & _ & [after' ->]).
  exists skipped, after'. by rewrite Hpart.
Qed.

(** A literal pattern leaves nothing of itself, if the replacement does
    not bring it back. *)
Lemma replace_leaves_no_literal part replacement text :
  match units replacement, units part with
  | first :: _, _ :: tail =>
      forallb (fun c => negb (Ascii.eqb c first)) tail
      && clearOf (units part) (units replacement)
  | _, _ => false
  end = true ->
  ~ occursIn part (RegExp.replace (RegExp.Literal (units part)) replacement text).
Proof.
  intros Hclear (before & after & Hout). unfold RegExp.replace in Hout.
  destruct (units replacement) as [|first others] eqn:Hreplacement; [done|].
  destruct (units part) as [|head tail] eqn:Hpart; [done|].
  apply andb_true_iff in Hclear as [Htail Hclear].
  assert (Htail' : Forall (fun c => c <> first) tail).
  { apply Forall_forall. intros c Hc. rewrite forallb_forall in Htail.
    specialize (Htail c (proj1 (list_elem_of_In _ _) Hc)).
    apply negb_true_iff, Ascii.eqb_neq in Htail. done. }
  destruct (part_in_result (RegExp.Literal (head :: tail)) (first :: others) first others
              eq_refl (literal_never_empty head tail) head tail
              Htail' Hclear (S (length text)) text before after ltac:(lia) Hout)
    as (skipped & rest & -> & Hnone & Hprefix).
  by apply (literal_matches_prefix (head :: tail) rest).
Qed.

(** X26. The text [translateReadmeToHtml] hands to the Markdown parser
    has no relative path [](./] left, with or without the change to the
    CN names, and with that change it has no [AWS] left either. Without
    the change, a text that has no relative path stays as it is, and in a
    text that has one, the first is replaced by the token
    [](!!EXTENSIONROOT!!/] and what comes before it is kept. *)
Theorem quick_start_text_has_no_relative_path (cn : bool) (fileText : string) :
  ~ occursIn "](./" (transformedText cn fileText) /\
  (cn = true -> ~ occursIn "AWS" (transformedText cn fileText)) /\
  (~ occursIn "](./" (units fileText) -> transformedText false fileText = units fileText) /\
  (forall before after,
     units fileText = before ++ units "](./" ++ after ->
     ~ occursIn "](./" before ->
     transformedText false fileText
     = before ++ units "](!!EXTENSIONROOT!!/"
         ++ RegExp.replace relativePathRegex "](!!EXTENSIONROOT!!/" after).
Proof.
  assert (Hrelative : forall text,
            ~ occursIn "](./" (RegExp.replace relativePathRegex "](!!EXTENSIONROOT!!/" text)).
  { intros text. by apply (replace_leaves_no_literal "](./" "](!!EXTENSIONROOT!!/"). }
  split; [|split; [|split]].
  - unfold transformedText. destruct cn; [|apply Hrelative].
    intros Hin.
    apply (replace_brings_no_part enPngRegex "-cn.png" "](./") in Hin;
      [|apply enPng_never_empty|done].
    apply (replace_brings_no_part awsRegex "Amazon" "](./") in Hin;
      [|apply literal_never_empty|done].
    by apply Hrelative in Hin.
  - intros ->. unfold transformedText. intros Hin.
    apply (replace_brings_no_part enPngRegex "-cn.png" "AWS") in Hin;
      [|apply enPng_never_empty|done].
    by apply (replace_leaves_no_literal "AWS" "Amazon") in Hin.
  - intros Hnone. unfold transformedText, RegExp.replace.
    rewrite <- (app_nil_r (units fileText)) at 2.
    rewrite (replaceFrom_copies relativePathRegex _ (literal_never_empty _ _)).
    + replace (S (length (units fileText)) - length (units fileText))%nat
        with 1%nat by lia.
      apply app_nil_r.
    + rewrite app_nil_r. lia.
    + intros skipped rest Hsplit Hrest. rewrite app_nil_r.
      destruct (RegExp.execAt relativePathRegex rest Some) as [rest'|] eqn:Hmatch; [|done].
      apply literal_match in Hmatch. destruct Hnone.
      exists skipped, rest'. by rewrite Hsplit, Hmatch.
  - intros before after Hsplit Hnone. unfold transformedText, RegExp.replace.
    rewrite Hsplit.
    rewrite (replaceFrom_copies relativePathRegex _ (literal_never_empty _ _)).
    + f_equal.
      destruct (S (length (before ++ units "](./" ++ after)) - length before)%nat
        as [|fuel] eqn:Hfuel; [rewrite !length_app in Hfuel; lia|].
      rewrite (replaceFrom_step relativePathRegex _ (literal_never_empty _ _)).
      assert (Hhere : RegExp.execAt relativePathRegex (units "](./" ++ after) Some
                      = Some after) by (by apply literal_match).
      rewrite Hhere.
      f_equal. apply (replaceFrom_fuel relativePathRegex _ (literal_never_empty _ _)); [|lia].
      rewrite !length_app in Hfuel. simpl in Hfuel. lia.
    + lia.
    + intros skipped rest -> Hrest.
      destruct (RegExp.execAt relativePathRegex (rest ++ units "](./" ++ after) Some)
        as [rest'|] eqn:Hmatch; [|done].
      apply literal_match in Hmatch. exfalso.
      destruct rest as [|c1 [|c2 [|c3 [|c4 rest]]]]; try done;
        try (injection Hmatch as Hmatch; discriminate).
      apply Hnone. exists skipped, rest.
      simpl in Hmatch. injection Hmatch as -> -> -> -> _. done.
Qed.

Example quick_start_sample :
  transformedText true "See [the guide](./docs/setup-en.png) for AWS."
  = list_ascii_of_string "See [the guide](!!EXTENSIONROOT!!/docs/setup-cn.png) for Amazon.".
Proof. vm_compute. reflexivity. Qed.
